(** * Write coalescing in the abstract resource preference provider

    A shallow embedding of
    [packages/preferences/src/browser/abstract-resource-preference-provider.ts]:
    the [LockQueue] class, the synchronous snapshot maintenance
    ([readPreferences], [getParsedContent], [handlePreferenceChanges],
    [reset]) and the asynchronous write path ([setPreference],
    [doSetPreferences], [doSetPreference], [handleDirtyEditor]).

    The asynchronous code runs on the single-threaded JavaScript event loop.
    It is modelled as a deterministic machine: every [async] function is cut
    at its [await]s into continuations ([Job]), a FIFO microtask queue holds
    the continuations whose awaited promise is settled, and the operations of
    external collaborators (the text model, the message service) are
    suspended until the environment completes them. *)

From Stdlib Require Import Ascii String.
From stdpp Require Import gmap strings list fin_maps pretty.

Local Open Scope string_scope.
Local Open Scope list_scope.
Local Set Warnings "-register-all".

(** ** JSON values

    What [jsoncparser.parse] produces.  A JavaScript [undefined] is never a
    JSON value; an [any] that may be [undefined] is an [option JSON]. *)
Inductive JSON : Type :=
  | JNull
  | JBool (b : bool)
  | JNum (z : Z)
  | JStr (s : string)
  | JArr (items : list JSON)
  | JObj (fields : list (string * JSON)).

(** [typeof v === 'object'] for a parsed value ([undefined] is [None]). *)
Definition typeof_object (v : option JSON) : bool :=
  match v with
  | Some JNull | Some (JArr _) | Some (JObj _) => true
  | _ => false
  end.

Fixpoint indexed {A} (i : nat) (l : list A) : list (string * A) :=
  match l with
  | [] => []
  | x :: l' => (pretty i, x) :: indexed (S i) l'
  end.

(** The enumerable own properties visited by [for (const k in v)]. *)
Definition for_in (v : JSON) : list (string * JSON) :=
  match v with
  | JObj fields => fields
  | JArr items => indexed 0 items
  | JStr s => indexed 0 ((fun c => JStr (String c EmptyString)) <$> list_ascii_of_string s)
  | _ => []
  end.

(** ** The lock queue (class [LockQueue], lines 41-80)

    [W] stands for the [Deferred<void>] a queued [acquire] hands out and [L]
    for a listener registered on [onFree] by [waitUntilFree]. *)
Module LockQueue.
Section LockQueue.
Context {W L : Type}.

Record t : Type := mk {
  queue : list W;
  busy : bool;
  onFree : list L
}.

Definition init : t := mk [] false [].

(** [acquire()]: [None] is the already resolved [Promise.resolve()],
    [Some d] the pending promise of the deferred pushed on the queue. *)
Definition acquire (addedToQueue : W) (q : t) : t * option W :=
  let wasBusy := busy q in
  if wasBusy
  then (mk (queue q ++ [addedToQueue]) true (onFree q), Some addedToQueue)
  else (mk (queue q) true (onFree q), None).

(** What a [release()] did: resolved the deferred of the head waiter, or
    fired [onFree], which runs every registered listener. *)
Inductive released : Type :=
  | Transferred (next : W)
  | Freed (fired : list L).

Definition release (q : t) : t * released :=
  match queue q with
  | next :: rest => (mk rest (busy q) (onFree q), Transferred next)
  | [] => (mk [] false [], Freed (onFree q))
  end.

(** [waitUntilFree()]: [true] when the returned promise is already
    resolved; otherwise the listener is registered (it resolves the promise
    and disposes itself when [onFree] fires). *)
Definition waitUntilFree (listener : L) (q : t) : t * bool :=
  if negb (busy q)
  then (q, true)
  else (mk (queue q) (busy q) (onFree q ++ [listener]), false).

Inductive op : Type :=
  | Acquire (d : W)
  | Release
  | WaitUntilFree (l : L).

Definition exec (q : t) (o : op) : t :=
  match o with
  | Acquire d => fst (acquire d q)
  | Release => fst (release q)
  | WaitUntilFree l => fst (waitUntilFree l q)
  end.

Definition run (ops : list op) : t := foldl exec init ops.

End LockQueue.
Global Arguments t : clear implicits.
Global Arguments released : clear implicits.
Global Arguments op : clear implicits.
End LockQueue.

(** ** The text document and the structured-edit differ *)

Inductive DefaultEndOfLine : Type := LF | CRLF.

(** [textModel.getOptions()]. *)
Record TextModelOptions : Type := {
  insertSpaces : bool;
  tabSize : nat;
  defaultEOL : DefaultEndOfLine
}.

(** The [formattingOptions] handed to [jsoncparser.modify]. *)
Record FormattingOptions : Type := {
  fo_insertSpaces : bool;
  fo_tabSize : nat;
  fo_eol : string
}.

(** What the provider reads from its [MonacoEditorModel]: the current text,
    the dirty and validity flags and the formatting options.  [stored] is the
    content written by the last [save()]. *)
Record MonacoEditorModel : Type := {
  text : string;
  dirty : bool;
  valid : bool;
  options : TextModelOptions;
  stored : string
}.

(** An edit computed by [jsoncparser.modify]. *)
Record Edit : Type := {
  offset : nat;
  len : nat;
  content : string
}.

(** [monaco.editor.IIdentifiedSingleEditOperation]; a position is kept as the
    offset it was made from. *)
Record EditOperation : Type := {
  range : nat * nat;
  op_text : option string;
  forceMoveMarkers : bool
}.

(** [textModel.getPositionAt(offset)] clamps the offset to the text. *)
Definition getPositionAt (m : MonacoEditorModel) (off : nat) : nat :=
  off `min` String.length (text m).

Definition getFullModelRange (m : MonacoEditorModel) : nat * nat :=
  (0, String.length (text m)).

(** [String.prototype.trim] on the white space and line terminators of
    ASCII.  The method also strips the white space outside ASCII (U+00A0,
    U+FEFF, the Unicode space separators, U+2028 and U+2029); a text that
    begins or ends with one of those is not covered. *)
Definition is_white (c : ascii) : bool :=
  let n := nat_of_ascii c in
  bool_decide (n = 32) || (bool_decide (9 ≤ n)%nat && bool_decide (n ≤ 13)%nat).

Fixpoint trimStart (s : string) : string :=
  match s with
  | String c s' => if is_white c then trimStart s' else s
  | EmptyString => EmptyString
  end.

Fixpoint trimEnd (s : string) : string :=
  match s with
  | String c s' =>
      match trimEnd s' with
      | EmptyString => if is_white c then EmptyString else String c EmptyString
      | r => String c r
      end
  | EmptyString => EmptyString
  end.

Definition trim (s : string) : string := trimEnd (trimStart s).

(** [!content] for a string. *)
Definition is_empty (s : string) : bool :=
  match s with EmptyString => true | _ => false end.

Inductive PreferenceScope : Type := Default | User | Workspace | Folder.

(** ** External collaborators

    The abstract members of the class ([getScope], [getDomain]), its
    overridable hook [getPath], and the services the provider consumes: the
    jsonc-parser library ([modify]; [parse_jsonc] is [jsoncparser.parse]
    after [jsoncparser.stripComments]), the workspace's background edit, the
    schema provider ([hasSchema]: the combined schema has properties for the
    name) and [JSONExt.deepEqual].  [relativity uri resource] is
    [new URI(uri).path.relativity(new URI(resource).path)].  A [None] result
    of [modify] or [applyBackgroundEdit] stands for a thrown exception (a
    rejected promise). *)
Record Env : Type := {
  getScope : PreferenceScope;
  getDomain : option (list string);
  relativity : string -> string -> Z;
  getPath : string -> option (list string);
  modify : string -> list string -> option JSON -> FormattingOptions -> option (list Edit);
  parse_jsonc : string -> option JSON;
  applyBackgroundEdit : MonacoEditorModel -> list EditOperation -> option MonacoEditorModel;
  testOverrideValue : string -> JSON -> bool;
  hasSchema : string -> bool;
  isValidInScope : string -> PreferenceScope -> bool;
  deepEqual : JSON -> JSON -> bool
}.

(** [getPath] as this class defines it (lines 288-290). *)
Definition getPath_default (preferenceName : string) : option (list string) :=
  Some [preferenceName].

(** ** Promises, continuations and the provider state *)

Record EnqueuedPreferenceChange : Type := {
  key : string;
  value : option JSON;
  editResolver : nat
}.

(** The answer of [messageService.error(msg, 'Save and Retry', 'Open File')];
    [Dismissed] is the [undefined] of a closed notification. *)
Inductive Answer : Type := SaveAndRetry | OpenFile | Dismissed.

(** The continuations of the [async] methods, one per [await]. *)
Inductive Job : Type :=
  | SP_loaded (id : nat) (k : string) (v : option JSON) (resourceUri : option string)
      (* setPreference, after [await this.loading.promise] *)
  | SP_free (id : nat) (k : string) (v : option JSON)
      (* setPreference, after [await this.fileEditLock.waitUntilFree()] *)
  | DSP_gate (lpc : nat)
      (* doSetPreferences, after [await this.dirtyEditorHandled.promise] *)
  | DSet_applied (lpc : nat) (resolver : nat) (k : string) (ok : bool)
      (* doSetPreference, after [await applyBackgroundEdit(...)] *)
  | DSP_edited (lpc : nat) (resolver : nat) (applied : bool)
      (* doSetPreferences, after [await this.doSetPreference(key, value)] *)
  | DSP_locked (lpc : nat)
      (* doSetPreferences, after [await this.fileEditLock.acquire()] *)
  | DSP_saved (lpc : nat) (ok : bool)
      (* doSetPreferences, after [await this.model.save()] *)
  | DSP_outcome (lpc : nat) (success : bool)
      (* doSetPreferences, after [await this.pendingChanges] *)
  | HDE_answered (msg : Answer)
      (* handleDirtyEditor, after [await this.messageService.error(...)] *)
  | HDE_saved (ok : bool).
      (* handleDirtyEditor, after [await this.model.save()] *)

(** An operation of an external collaborator that a coroutine awaits. *)
Inductive Suspended : Type :=
  | AwaitApply (lpc : nat) (resolver : nat) (k : string) (ok : bool)
  | AwaitSave (lpc : nat)
  | AwaitPendingChanges (lpc : nat)
  | AwaitAnswer
  | AwaitRetrySave.

(** How the environment settles a suspended operation. *)
Inductive Signal : Type :=
  | Done
  | Threw
  | Flag (b : bool)
  | Chose (a : Answer).

(** What the promise returned by [setPreference] settles to.  [Follows lpc]
    is [editResolver.resolve(localPendingChanges.promise)]: the caller's
    promise adopts the outcome of that flush transaction. *)
Inductive Outcome : Type :=
  | Settled (b : bool)
  | Follows (lpc : nat)
  | Rejected.

Record PreferenceProviderDataChange : Type := {
  preferenceName : string;
  newValue : option JSON;
  oldValue : option JSON;
  scope : PreferenceScope;
  domain : option (list string)
}.

(** The preference snapshot and what the provider told its listeners:
    [preferences] is the field of the class, [emitted] the change events
    passed to [emitPreferencesChangedEvent], [warned] the names reported by
    [console.warn]. *)
Record Snapshot : Type := {
  preferences : gmap string JSON;
  emitted : list (list PreferenceProviderDataChange);
  warned : list string
}.

(** The provider ([snapshot] ... [fileEditLock]), the promises it created
    ([gates]: the continuations awaiting each pending [dirtyEditorHandled]
    deferred, a deferred absent from the map being resolved; [transactions]:
    the resolved [localPendingChanges]; [outcomes]: the settled
    [setPreference] promises, a call and its [editResolver] sharing one
    identifier), the event loop ([microtasks], [suspended]) and what it did
    to its collaborators ([saves]: calls of [model.save()]; [prompts]:
    dirty-editor prompts shown; [errors]: error notifications; [logged]:
    [console.error] entries; [opened]: [editorManager.open] calls). *)
Record State : Type := {
  snapshot : Snapshot;
  model : option MonacoEditorModel;
  editQueue : list EnqueuedPreferenceChange;
  dirtyEditorHandled : nat;
  fileEditLock : LockQueue.t Job Job;
  gates : gmap nat (list Job);
  transactions : gmap nat bool;
  outcomes : gmap nat Outcome;
  next_id : nat;
  microtasks : list Job;
  suspended : list Suspended;
  saves : nat;
  prompts : nat;
  errors : list string;
  logged : list string;
  opened : nat
}.

(** Field updates. *)
Definition set_snapshot (x : Snapshot) (st : State) : State :=
  Build_State
    x (model st) (editQueue st) (dirtyEditorHandled st) (fileEditLock st)
    (gates st) (transactions st) (outcomes st) (next_id st) (microtasks st)
    (suspended st) (saves st) (prompts st) (errors st) (logged st)
    (opened st).
Definition set_model (x : option MonacoEditorModel) (st : State) : State :=
  Build_State
    (snapshot st) x (editQueue st) (dirtyEditorHandled st) (fileEditLock st)
    (gates st) (transactions st) (outcomes st) (next_id st) (microtasks st)
    (suspended st) (saves st) (prompts st) (errors st) (logged st)
    (opened st).
Definition set_editQueue (x : list EnqueuedPreferenceChange) (st : State) : State :=
  Build_State
    (snapshot st) (model st) x (dirtyEditorHandled st) (fileEditLock st)
    (gates st) (transactions st) (outcomes st) (next_id st) (microtasks st)
    (suspended st) (saves st) (prompts st) (errors st) (logged st)
    (opened st).
Definition set_dirtyEditorHandled (x : nat) (st : State) : State :=
  Build_State
    (snapshot st) (model st) (editQueue st) x (fileEditLock st) (gates st)
    (transactions st) (outcomes st) (next_id st) (microtasks st)
    (suspended st) (saves st) (prompts st) (errors st) (logged st)
    (opened st).
Definition set_fileEditLock (x : LockQueue.t Job Job) (st : State) : State :=
  Build_State
    (snapshot st) (model st) (editQueue st) (dirtyEditorHandled st) x
    (gates st) (transactions st) (outcomes st) (next_id st) (microtasks st)
    (suspended st) (saves st) (prompts st) (errors st) (logged st)
    (opened st).
Definition set_gates (x : gmap nat (list Job)) (st : State) : State :=
  Build_State
    (snapshot st) (model st) (editQueue st) (dirtyEditorHandled st)
    (fileEditLock st) x (transactions st) (outcomes st) (next_id st)
    (microtasks st) (suspended st) (saves st) (prompts st) (errors st)
    (logged st) (opened st).
Definition set_transactions (x : gmap nat bool) (st : State) : State :=
  Build_State
    (snapshot st) (model st) (editQueue st) (dirtyEditorHandled st)
    (fileEditLock st) (gates st) x (outcomes st) (next_id st) (microtasks st)
    (suspended st) (saves st) (prompts st) (errors st) (logged st)
    (opened st).
Definition set_outcomes (x : gmap nat Outcome) (st : State) : State :=
  Build_State
    (snapshot st) (model st) (editQueue st) (dirtyEditorHandled st)
    (fileEditLock st) (gates st) (transactions st) x (next_id st)
    (microtasks st) (suspended st) (saves st) (prompts st) (errors st)
    (logged st) (opened st).
Definition set_next_id (x : nat) (st : State) : State :=
  Build_State
    (snapshot st) (model st) (editQueue st) (dirtyEditorHandled st)
    (fileEditLock st) (gates st) (transactions st) (outcomes st) x
    (microtasks st) (suspended st) (saves st) (prompts st) (errors st)
    (logged st) (opened st).
Definition set_microtasks (x : list Job) (st : State) : State :=
  Build_State
    (snapshot st) (model st) (editQueue st) (dirtyEditorHandled st)
    (fileEditLock st) (gates st) (transactions st) (outcomes st) (next_id st)
    x (suspended st) (saves st) (prompts st) (errors st) (logged st)
    (opened st).
Definition set_suspended (x : list Suspended) (st : State) : State :=
  Build_State
    (snapshot st) (model st) (editQueue st) (dirtyEditorHandled st)
    (fileEditLock st) (gates st) (transactions st) (outcomes st) (next_id st)
    (microtasks st) x (saves st) (prompts st) (errors st) (logged st)
    (opened st).
Definition set_saves (x : nat) (st : State) : State :=
  Build_State
    (snapshot st) (model st) (editQueue st) (dirtyEditorHandled st)
    (fileEditLock st) (gates st) (transactions st) (outcomes st) (next_id st)
    (microtasks st) (suspended st) x (prompts st) (errors st) (logged st)
    (opened st).
Definition set_prompts (x : nat) (st : State) : State :=
  Build_State
    (snapshot st) (model st) (editQueue st) (dirtyEditorHandled st)
    (fileEditLock st) (gates st) (transactions st) (outcomes st) (next_id st)
    (microtasks st) (suspended st) (saves st) x (errors st) (logged st)
    (opened st).
Definition set_errors (x : list string) (st : State) : State :=
  Build_State
    (snapshot st) (model st) (editQueue st) (dirtyEditorHandled st)
    (fileEditLock st) (gates st) (transactions st) (outcomes st) (next_id st)
    (microtasks st) (suspended st) (saves st) (prompts st) x (logged st)
    (opened st).
Definition set_logged (x : list string) (st : State) : State :=
  Build_State
    (snapshot st) (model st) (editQueue st) (dirtyEditorHandled st)
    (fileEditLock st) (gates st) (transactions st) (outcomes st) (next_id st)
    (microtasks st) (suspended st) (saves st) (prompts st) (errors st) x
    (opened st).
Definition set_opened (x : nat) (st : State) : State :=
  Build_State
    (snapshot st) (model st) (editQueue st) (dirtyEditorHandled st)
    (fileEditLock st) (gates st) (transactions st) (outcomes st) (next_id st)
    (microtasks st) (suspended st) (saves st) (prompts st) (errors st)
    (logged st) x.

(** The provider once [init] has run with a loaded model: [loading] and the
    first [dirtyEditorHandled] (identifier 0) are resolved, nothing is
    queued. *)
Definition initial (m : MonacoEditorModel) (prefs : gmap string JSON) : State :=
  {| snapshot := {| preferences := prefs; emitted := []; warned := [] |};
     model := Some m; editQueue := [];
     dirtyEditorHandled := 0; fileEditLock := LockQueue.init;
     gates := ∅; transactions := ∅; outcomes := ∅; next_id := 1;
     microtasks := []; suspended := [];
     saves := 0; prompts := 0; errors := []; logged := []; opened := 0 |}.

Section Provider.
Context (env : Env).

(** *** The snapshot (synchronous code) *)

(** [get valid()] (lines 138-140). *)
Definition is_valid (st : State) : bool :=
  match model st with
  | Some m => valid m
  | None => false
  end.

(** [contains] (lines 151-161); an empty string is falsy like [undefined]. *)
Definition contains (resourceUri : option string) : bool :=
  match resourceUri with
  | None | Some EmptyString => true
  | Some resourcePath =>
      match getDomain env with
      | None => true
      | Some domain =>
          existsb (fun uri => bool_decide (0 ≤ relativity env uri resourcePath)%Z) domain
      end
  end.

(** [getPreferences] (lines 163-165). *)
Definition getPreferences (st : State) (resourceUri : option string) : gmap string JSON :=
  if is_valid st && contains resourceUri then preferences (snapshot st) else ∅.

(** [parse] (lines 338-345). *)
Definition parse (content : string) : option JSON :=
  let content := trim content in
  if is_empty content then None else parse_jsonc env content.

(** [getParsedContent] (lines 315-336). *)
Definition getParsedContent (content : string) : gmap string JSON :=
  let jsonData := parse content in
  if negb (typeof_object jsonData) then ∅
  else
    foldl
      (fun (preferences : gmap string JSON) '(preferenceName, preferenceValue) =>
         if testOverrideValue env preferenceName preferenceValue
         then
           foldl
             (fun (preferences : gmap string JSON) '(overriddenPreferenceName, overriddenValue) =>
                <[preferenceName +:+ "." +:+ overriddenPreferenceName := overriddenValue]>
                  preferences)
             preferences (for_in preferenceValue)
         else <[preferenceName := preferenceValue]> preferences)
      ∅ (from_option for_in [] jsonData).

(** The test of lines 365-367 on two looked-up values. *)
Definition differs (oldValue newValue : option JSON) : bool :=
  match oldValue, newValue with
  | None, None => false
  | Some o, Some n => negb (deepEqual env o n)
  | _, _ => true
  end.

(** [handlePreferenceChanges] (lines 347-377).  The names are visited in
    the enumeration order of the maps. *)
Definition handlePreferenceChanges (newPrefs : gmap string JSON) (s : Snapshot) : Snapshot :=
  let oldPrefs := preferences s in
  let prefNames := remove_dups ((map_to_list oldPrefs).*1 ++ (map_to_list newPrefs).*1) in
  let '(prefChanges, warnings) :=
    foldl
      (fun '(prefChanges, warnings) prefName =>
         let oldValue := oldPrefs !! prefName in
         let newValue := newPrefs !! prefName in
         if hasSchema env prefName && negb (isValidInScope env prefName (getScope env))
         then (prefChanges, warnings ++ [prefName])
         else if differs oldValue newValue
         then (prefChanges ++
                 [{| preferenceName := prefName; newValue := newValue;
                     oldValue := oldValue; scope := getScope env;
                     domain := getDomain env |}], warnings)
         else (prefChanges, warnings))
      ([], []) prefNames in
  {| preferences := newPrefs;
     emitted := match prefChanges with
                | [] => emitted s
                | _ => emitted s ++ [prefChanges]
                end;
     warned := warned s ++ warnings |}.

(** [readPreferences] (lines 296-313). *)
Definition readPreferences (model : option MonacoEditorModel) (s : Snapshot) : Snapshot :=
  match model with
  | None => s
  | Some model =>
      if dirty model then s
      else
        let preferences := if valid model then getParsedContent (text model) else ∅ in
        handlePreferenceChanges preferences s
  end.

(** [reset] (lines 379-394). *)
Definition reset (s : Snapshot) : Snapshot :=
  let preferences0 := preferences s in
  let changes :=
    omap
      (fun prefName =>
         match preferences0 !! prefName with
         | Some value =>
             Some {| preferenceName := prefName; newValue := None;
                     oldValue := Some value; scope := getScope env;
                     domain := getDomain env |}
         | None => None
         end)
      (map_to_list preferences0).*1 in
  {| preferences := ∅;
     emitted := match changes with
                | [] => emitted s
                | _ => emitted s ++ [changes]
                end;
     warned := warned s |}.

(** [readPreferences] on the provider's own model. *)
Definition read (st : State) : State :=
  set_snapshot (readPreferences (model st) (snapshot st)) st.

(** Disposal runs the registered disposables last-in first-out: [reset],
    then [this.model = undefined]. *)
Definition dispose (st : State) : State :=
  set_model None (set_snapshot (reset (snapshot st)) st).

(** The three model listeners registered by [init] (lines 128-130) all run
    [readPreferences] on the changed model. *)
Definition onModelEvent (m : MonacoEditorModel) (st : State) : State :=
  match model st with
  | None => st
  | Some _ => read (set_model (Some m) st)
  end.

End Provider.

(** ** The write path (asynchronous code) *)

Inductive Event : Type :=
  | Call (k : string) (v : option JSON) (resourceUri : option string)
      (* a caller invokes [setPreference(key, value, resourceUri)] *)
  | Tick
      (* the event loop runs the microtask at the head of the queue *)
  | Complete (i : nat) (s : Signal)
      (* the environment settles the [i]-th suspended operation *)
  | ModelEvent (m : MonacoEditorModel)
      (* the model reports a content, dirty-state or validity change *)
  | Dispose.

(** [value === undefined] and [!path.length]. *)
Definition is_undefined {A} (v : option A) : bool :=
  match v with None => true | Some _ => false end.

Definition is_nil {A} (l : list A) : bool :=
  match l with [] => true | _ => false end.

(** The [i]-th element of a list and the others. *)
Fixpoint pick {A} (i : nat) (l : list A) : option (A * list A) :=
  match l, i with
  | [], _ => None
  | x :: l', 0 => Some (x, l')
  | x :: l', S i' =>
      match pick i' l' with
      | Some (y, others) => Some (y, x :: others)
      | None => None
      end
  end.

(** The model after a successful [save()]. *)
Definition saved (m : MonacoEditorModel) : MonacoEditorModel :=
  {| text := text m; dirty := false; valid := valid m;
     options := options m; stored := text m |}.

(** How far [doSetPreference] gets before its first [await]. *)
Inductive EditStart : Type :=
  | Returned (result : bool)
  | Caught
  | Applying (m : MonacoEditorModel) (editOperations : list EditOperation).

(** How the collaborators behave in one run: whether [model.save()]
    succeeds, the value of [this.pendingChanges] after a save, and what the
    user answers to the dirty-editor prompt. *)
Record World : Type := {
  save_succeeds : bool;
  changes_reported : bool;
  answer : Answer
}.

Definition respond (w : World) (s : Suspended) : Signal :=
  match s with
  | AwaitApply _ _ _ _ => Done
  | AwaitSave _ | AwaitRetrySave => if save_succeeds w then Done else Threw
  | AwaitPendingChanges _ => Flag (changes_reported w)
  | AwaitAnswer => Chose (answer w)
  end.

Section WritePath.
Context (env : Env).

Definition enqueue (jobs : list Job) (st : State) : State :=
  set_microtasks (microtasks st ++ jobs) st.

Definition suspend (s : Suspended) (st : State) : State :=
  set_suspended (suspended st ++ [s]) st.

(** Settling the promise of a call: a promise settles once, a later
    [resolve] is ignored. *)
Definition settle (id : nat) (o : Outcome) (st : State) : State :=
  match outcomes st !! id with
  | Some _ => st
  | None => set_outcomes (<[id := o]> (outcomes st)) st
  end.

(** [await this.dirtyEditorHandled.promise]. *)
Definition await_gate (j : Job) (st : State) : State :=
  match gates st !! dirtyEditorHandled st with
  | Some waiters =>
      set_gates (<[dirtyEditorHandled st := waiters ++ [j]]> (gates st)) st
  | None => enqueue [j] st
  end.

(** [this.dirtyEditorHandled.resolve()]. *)
Definition resolve_gate (st : State) : State :=
  match gates st !! dirtyEditorHandled st with
  | Some waiters =>
      enqueue waiters (set_gates (delete (dirtyEditorHandled st) (gates st)) st)
  | None => st
  end.

(** [this.dirtyEditorHandled = new Deferred()] (line 184). *)
Definition arm_gate (st : State) : State :=
  let g := next_id st in
  set_dirtyEditorHandled g (set_gates (<[g := []]> (gates st)) (set_next_id (S g) st)).

(** [setPreference] up to its first [await] (line 168). *)
Definition setPreference (k : string) (v : option JSON) (resourceUri : option string)
    (st : State) : State :=
  let id := next_id st in
  enqueue [SP_loaded id k v resourceUri] (set_next_id (S id) st).

(** [setPreference], lines 169-177. *)
Definition setPreference_loaded (id : nat) (k : string) (v : option JSON)
    (resourceUri : option string) (st : State) : State :=
  match model st with
  | None => settle id (Settled false) st
  | Some _ =>
      if negb (contains env resourceUri) then settle id (Settled false) st
      else
        let '(lock, free) := LockQueue.waitUntilFree (SP_free id k v) (fileEditLock st) in
        let st := set_fileEditLock lock st in
        if free then enqueue [SP_free id k v] st else st
  end.

(** [handleDirtyEditor] up to its first [await] (lines 270-272). *)
Definition handleDirtyEditor (st : State) : State :=
  suspend AwaitAnswer (set_prompts (S (prompts st)) st).

(** [doSetPreferences] up to its first [await] (lines 196-197). *)
Definition doSetPreferences (st : State) : State :=
  let localPendingChanges := next_id st in
  await_gate (DSP_gate localPendingChanges) (set_next_id (S localPendingChanges) st).

(** [setPreference], lines 178-192.  [this.model.dirty] is only read for
    the first edit of the queue and throws when the model is gone. *)
Definition setPreference_free (id : nat) (k : string) (v : option JSON)
    (st : State) : State :=
  let isFirstEditInQueue := is_nil (editQueue st) in
  let mustHandleDirty : option bool :=
    if isFirstEditInQueue then option_map dirty (model st) else Some false in
  match mustHandleDirty with
  | None => settle id Rejected st
  | Some mustHandleDirty =>
      let st :=
        set_editQueue (editQueue st ++ [{| key := k; value := v; editResolver := id |}]) st in
      let st := if mustHandleDirty then handleDirtyEditor (arm_gate st) else st in
      if isFirstEditInQueue then doSetPreferences st else st
  end.

Definition formattingOptions (o : TextModelOptions) : FormattingOptions :=
  {| fo_insertSpaces := insertSpaces o;
     fo_tabSize := tabSize o;
     fo_eol := match defaultEOL o with
               | LF => String "010" EmptyString
               | CRLF => String "013" (String "010" EmptyString)
               end |}.

(** An edit of the differ as an edit operation (lines 244-250);
    [edit.content || null] turns the empty string into [null]. *)
Definition toEditOperation (m : MonacoEditorModel) (edit : Edit) : EditOperation :=
  {| range := (getPositionAt m (offset edit), getPositionAt m (offset edit + len edit));
     op_text := if is_empty (content edit) then None else Some (content edit);
     forceMoveMarkers := false |}.

(** [doSetPreference] (lines 220-260) up to the call of
    [applyBackgroundEdit]. *)
Definition doSetPreference_start (m : option MonacoEditorModel) (k : string)
    (v : option JSON) : EditStart :=
  match m with
  | None => Returned false
  | Some m =>
      match getPath env k with
      | None => Returned false
      | Some path =>
          let content := trim (text m) in
          if is_empty content && is_undefined v then Returned true
          else if negb (is_nil path) || negb (is_undefined v) then
            match modify env content path v (formattingOptions (options m)) with
            | None => Caught
            | Some edits => Applying m (toEditOperation m <$> edits)
            end
          else
            Applying m [{| range := getFullModelRange m; op_text := None;
                         forceMoveMarkers := false |}]
      end
  end.

(** The [catch] block of [doSetPreference] (lines 261-266): one error
    notification and one console entry naming the key. *)
Definition doSetPreference_catch (k : string) (st : State) : State :=
  set_logged (logged st ++ [k]) (set_errors (errors st ++ [k]) st).

(** The head of the queue is handed to [doSetPreference] (lines 199-200). *)
Definition doSetPreference (lpc : nat) (e : EnqueuedPreferenceChange) (st : State) : State :=
  match doSetPreference_start (model st) (key e) (value e) with
  | Returned result => enqueue [DSP_edited lpc (editResolver e) result] st
  | Caught => enqueue [DSP_edited lpc (editResolver e) false] (doSetPreference_catch (key e) st)
  | Applying m editOperations =>
      match applyBackgroundEdit env m editOperations with
      | Some m' =>
          suspend (AwaitApply lpc (editResolver e) (key e) true)
            (read env (set_model (Some m') st))
      | None => suspend (AwaitApply lpc (editResolver e) (key e) false) st
      end
  end.

(** The loop of [doSetPreferences] (lines 198-202) and, once the queue is
    empty, [this.fileEditLock.acquire()] (line 206). *)
Definition drain (lpc : nat) (st : State) : State :=
  match editQueue st with
  | e :: rest => doSetPreference lpc e (set_editQueue rest st)
  | [] =>
      let '(lock, wait) := LockQueue.acquire (DSP_locked lpc) (fileEditLock st) in
      let st := set_fileEditLock lock st in
      match wait with
      | None => enqueue [DSP_locked lpc] st
      | Some _ => st
      end
  end.

(** Lines 216-217: release the lock, then resolve [localPendingChanges]. *)
Definition finish (lpc : nat) (success : bool) (st : State) : State :=
  let '(lock, r) := LockQueue.release (fileEditLock st) in
  let st := set_fileEditLock lock st in
  let st :=
    match r with
    | LockQueue.Transferred next => enqueue [next] st
    | LockQueue.Freed fired => enqueue fired st
    end in
  set_transactions (<[lpc := success]> (transactions st)) st.

(** Lines 207-209: save when the model is dirty. *)
Definition doSetPreferences_locked (lpc : nat) (st : State) : State :=
  match model st with
  | Some m =>
      if dirty m then suspend (AwaitSave lpc) (set_saves (S (saves st)) st)
      else finish lpc true st
  | None => finish lpc true st
  end.

(** Lines 281-285 of [handleDirtyEditor]. *)
Definition handleDirtyEditor_end (msg : Answer) (st : State) : State :=
  let st :=
    match msg with
    | SaveAndRetry => st
    | _ =>
        set_editQueue []
          (foldl (fun st e => settle (editResolver e) (Settled false) st) st (editQueue st))
    end in
  resolve_gate st.

(** Lines 274-280 of [handleDirtyEditor]. *)
Definition handleDirtyEditor_answered (msg : Answer) (st : State) : State :=
  match model st, msg with
  | Some _, OpenFile => handleDirtyEditor_end msg (set_opened (S (opened st)) st)
  | Some _, SaveAndRetry => suspend AwaitRetrySave (set_saves (S (saves st)) st)
  | _, _ => handleDirtyEditor_end msg st
  end.

Definition run_job (j : Job) (st : State) : State :=
  match j with
  | SP_loaded id k v resourceUri => setPreference_loaded id k v resourceUri st
  | SP_free id k v => setPreference_free id k v st
  | DSP_gate lpc => drain lpc st
  | DSet_applied lpc resolver k ok =>
      if ok then enqueue [DSP_edited lpc resolver true] st
      else enqueue [DSP_edited lpc resolver false] (doSetPreference_catch k st)
  | DSP_edited lpc resolver applied =>
      drain lpc (settle resolver (if applied then Follows lpc else Settled false) st)
  | DSP_locked lpc => doSetPreferences_locked lpc st
  | DSP_saved lpc ok =>
      if ok then suspend (AwaitPendingChanges lpc) st else finish lpc false st
  | DSP_outcome lpc success => finish lpc success st
  | HDE_answered msg => handleDirtyEditor_answered msg st
  | HDE_saved ok => if ok then handleDirtyEditor_end SaveAndRetry st else st
  end.

(** A completed [model.save()]: the text is stored, the model is clean
    and its dirty-state listener runs. *)
Definition model_saved (st : State) : State :=
  match model st with
  | None => st
  | Some m => read env (set_model (Some (saved m)) st)
  end.

(** The environment settles a suspended operation; a signal that does not
    fit the operation is ignored. *)
Definition complete (i : nat) (sig : Signal) (st : State) : State :=
  match pick i (suspended st) with
  | None => st
  | Some (s, others) =>
      let rest := set_suspended others st in
      match s, sig with
      | AwaitApply lpc resolver k ok, Done => enqueue [DSet_applied lpc resolver k ok] rest
      | AwaitSave lpc, Done => enqueue [DSP_saved lpc true] (model_saved rest)
      | AwaitSave lpc, Threw => enqueue [DSP_saved lpc false] rest
      | AwaitPendingChanges lpc, Flag b => enqueue [DSP_outcome lpc b] rest
      | AwaitPendingChanges lpc, Threw => enqueue [DSP_outcome lpc false] rest
      | AwaitAnswer, Chose a => enqueue [HDE_answered a] rest
      | AwaitRetrySave, Done => enqueue [HDE_saved true] (model_saved rest)
      | AwaitRetrySave, Threw => enqueue [HDE_saved false] rest
      | _, _ => st
      end
  end.

Definition step (st : State) (e : Event) : State :=
  match e with
  | Call k v resourceUri => setPreference k v resourceUri st
  | Tick =>
      match microtasks st with
      | j :: rest => run_job j (set_microtasks rest st)
      | [] => st
      end
  | Complete i sig => complete i sig st
  | ModelEvent m => onModelEvent env m st
  | Dispose => dispose env st
  end.

Definition run (st : State) (trace : list Event) : State := foldl step st trace.

(** What the environment does next: the head microtask if there is one,
    else the oldest suspended operation, settled as [world] decides. *)
Definition next_event (world : World) (st : State) : option Event :=
  match microtasks st, suspended st with
  | _ :: _, _ => Some Tick
  | [], s :: _ => Some (Complete 0 (respond world s))
  | [], [] => None
  end.

(** Running to quiescence. *)
Fixpoint drive (world : World) (fuel : nat) (st : State) : State :=
  match fuel with
  | 0 => st
  | S fuel =>
      match next_event world st with
      | Some e => drive world fuel (step st e)
      | None => st
      end
  end.

(** The value a caller of [setPreference] receives, once known. *)
Definition result (st : State) (id : nat) : option bool :=
  match outcomes st !! id with
  | Some (Settled b) => Some b
  | Some (Follows lpc) => transactions st !! lpc
  | _ => None
  end.

End WritePath.

(** ** Batches of writes and flush transactions as functions

    The definitions below describe, as plain functions of the state, what
    the machine is proved to do: the continuations a batch of calls leaves
    in the microtask queue, the effect of draining the edit queue and of the
    save that follows. *)

(** A [setPreference(key, value, resourceUri)] call. *)
Definition Write : Type := string * option JSON * option string.

Definition call (x : Write) : Event := Call x.1.1 x.1.2 x.2.

(** The continuations and queue entries of a batch whose first call got the
    identifier [id]. *)
Fixpoint loaded_jobs (id : nat) (ws : list Write) : list Job :=
  match ws with
  | [] => []
  | x :: ws' => SP_loaded id x.1.1 x.1.2 x.2 :: loaded_jobs (S id) ws'
  end.

Fixpoint free_jobs (id : nat) (ws : list Write) : list Job :=
  match ws with
  | [] => []
  | x :: ws' => SP_free id x.1.1 x.1.2 :: free_jobs (S id) ws'
  end.

Fixpoint entries (id : nat) (ws : list Write) : list EnqueuedPreferenceChange :=
  match ws with
  | [] => []
  | x :: ws' => {| key := x.1.1; value := x.1.2; editResolver := id |} :: entries (S id) ws'
  end.

(** How the edit of one write ended: applied, refused without an exception
    ([doSetPreference] returned [false] before its [try]), or thrown. *)
Inductive Applied : Type := Clean | Refused | Thrown.

Global Instance Applied_eq_dec : EqDecision Applied.
Proof. solve_decision. Defined.

(** What [doSetPreferences] resolves the write's [editResolver] with. *)
Definition verdict (lpc : nat) (a : Applied) : Outcome :=
  match a with
  | Clean => Follows lpc
  | _ => Settled false
  end.

(** The outcome of a flush transaction whose edits left the model [m]
    (lines 203-215): the post-save signal when a save was needed and went
    through, [false] when it threw, [true] when nothing had to be saved. *)
Definition success (w : World) (m : MonacoEditorModel) : bool :=
  if dirty m then save_succeeds w && changes_reported w else true.

(** Writing [v] under [k], or removing [k] when [v] is [undefined]. *)
Definition assign (k : string) (v : option JSON) (prefs : gmap string JSON)
    : gmap string JSON :=
  match v with
  | Some x => <[k := x]> prefs
  | None => delete k prefs
  end.

(** The value of the last write to [k], if any. *)
Definition last_value (k : string) (es : list EnqueuedPreferenceChange)
    : option (option JSON) :=
  last (value <$> filter (fun e => key e = k) es).

(** The last clean model of a sequence of model events. *)
Definition last_clean (ms : list MonacoEditorModel) : option MonacoEditorModel :=
  last (filter (fun m => dirty m = false) ms).

(** The continuations of [setPreference] and the call they belong to. *)
Definition call_id (j : Job) : option nat :=
  match j with
  | SP_loaded id _ _ _ | SP_free id _ _ => Some id
  | _ => None
  end.

Definition is_call_or_tick (e : Event) : Prop :=
  match e with
  | Call _ _ _ | Tick => True
  | _ => False
  end.

(** The outcomes after lines 282-283 of [handleDirtyEditor]. *)
Definition refused (es : list EnqueuedPreferenceChange) (ou : gmap nat Outcome)
    : gmap nat Outcome :=
  foldl
    (fun (ou : gmap nat Outcome) e =>
       match ou !! editResolver e with
       | Some _ => ou
       | None => <[editResolver e := Settled false]> ou
       end)
    ou es.

(** The provider at rest: nothing queued, scheduled or suspended, the lock
    free, the current gate resolved, and no promise settled ahead of its
    call. *)
Record idle (st : State) : Prop := {
  idle_editQueue : editQueue st = [];
  idle_microtasks : microtasks st = [];
  idle_suspended : suspended st = [];
  idle_lock : fileEditLock st = LockQueue.init;
  idle_gate : gates st !! dirtyEditorHandled st = None;
  idle_fresh : forall i, next_id st <= i -> outcomes st !! i = None
}.

(** What holds from a provider at rest [st0] on a dirty model [m] while only
    calls arrive and microtasks run: either no write got through yet, or the
    prompt is up and one flush transaction waits behind the gate. *)
Record blocked (st0 : State) (m : MonacoEditorModel) (st : State) : Prop := {
  bl_model : model st = Some m;
  bl_lock : fileEditLock st = LockQueue.init;
  bl_jobs :
    Forall (fun j => exists id, call_id j = Some id /\ next_id st0 <= id < next_id st)
      (microtasks st);
  bl_entries :
    Forall (fun e => next_id st0 <= editResolver e < next_id st) (editQueue st);
  bl_next : next_id st0 <= next_id st;
  bl_fresh : forall i, next_id st <= i -> outcomes st !! i = None;
  bl_outcomes :
    forall i o, outcomes st !! i = Some o -> outcomes st0 !! i = Some o \/ o = Settled false;
  bl_phase :
    (editQueue st = [] /\ suspended st = [] /\ prompts st = prompts st0 /\
     gates st !! dirtyEditorHandled st = None) \/
    (editQueue st <> [] /\ suspended st = [AwaitAnswer] /\ prompts st = S (prompts st0) /\
     exists lpc, next_id st0 <= lpc < next_id st /\
       gates st !! dirtyEditorHandled st = Some [DSP_gate lpc])
}.

(** The invariant of the lock queue: free only without waiters. *)
Definition lock_wf {W L} (q : LockQueue.t W L) : Prop :=
  LockQueue.busy q = false -> LockQueue.queue q = [].

Section Transactions.
Context (env : Env) (w : World).

Definition in_domain (x : Write) : Prop := contains env x.2 = true.

(** [doSetPreference] run to completion on one entry: the state and the
    boolean it returns. *)
Definition apply_edit (e : EnqueuedPreferenceChange) (st : State) : State * bool :=
  match doSetPreference_start env (model st) (key e) (value e) with
  | Returned r => (st, r)
  | Caught => (doSetPreference_catch (key e) st, false)
  | Applying m ops =>
      match applyBackgroundEdit env m ops with
      | Some m' => (read env (set_model (Some m') st), true)
      | None => (doSetPreference_catch (key e) st, false)
      end
  end.

(** One turn of the loop of [doSetPreferences] (lines 199-201). *)
Definition flush_edit (lpc : nat) (st : State) (e : EnqueuedPreferenceChange) : State :=
  let r := apply_edit e st in
  settle (editResolver e) (if r.2 then Follows lpc else Settled false) r.1.

Definition flush_edits (lpc : nat) (es : list EnqueuedPreferenceChange) (st : State) : State :=
  foldl (flush_edit lpc) st es.

(** Lines 203-217 of [doSetPreferences] run to completion with a free
    lock. *)
Definition commit (lpc : nat) (st : State) : State :=
  match model st with
  | Some m =>
      if dirty m then
        if save_succeeds w then
          set_transactions (<[lpc := changes_reported w]> (transactions st))
            (read env (set_model (Some (saved m)) (set_saves (S (saves st)) st)))
        else
          set_transactions (<[lpc := false]> (transactions st))
            (set_saves (S (saves st)) st)
      else set_transactions (<[lpc := true]> (transactions st)) st
  | None => set_transactions (<[lpc := true]> (transactions st)) st
  end.

(** The effect of [doSetPreference] on the model alone. *)
Definition edit_model (m : MonacoEditorModel) (e : EnqueuedPreferenceChange)
    : MonacoEditorModel * Applied :=
  match doSetPreference_start env (Some m) (key e) (value e) with
  | Returned true => (m, Clean)
  | Returned false => (m, Refused)
  | Caught => (m, Thrown)
  | Applying m0 ops =>
      match applyBackgroundEdit env m0 ops with
      | Some m' => (m', Clean)
      | None => (m, Thrown)
      end
  end.

(** The model after the edits of [es], applied in order. *)
Definition edited (m : MonacoEditorModel) (es : list EnqueuedPreferenceChange)
    : MonacoEditorModel :=
  foldl (fun m e => (edit_model m e).1) m es.

(** How each edit of [es] ended. *)
Fixpoint statuses (m : MonacoEditorModel) (es : list EnqueuedPreferenceChange)
    : list Applied :=
  match es with
  | [] => []
  | e :: es' => (edit_model m e).2 :: statuses (edit_model m e).1 es'
  end.

Definition thrown1 (m : MonacoEditorModel) (e : EnqueuedPreferenceChange) : list string :=
  match (edit_model m e).2 with
  | Thrown => [key e]
  | _ => []
  end.

(** The keys of the writes of [es] whose edit threw, in order. *)
Fixpoint thrown (m : MonacoEditorModel) (es : list EnqueuedPreferenceChange)
    : list string :=
  match es with
  | [] => []
  | e :: es' => thrown1 m e ++ thrown (edit_model m e).1 es'
  end.

(** Every edit of the sequence applies and realises its assignment on the
    parsed content of the document. *)
Fixpoint tracks (m : MonacoEditorModel) (es : list EnqueuedPreferenceChange) : Prop :=
  match es with
  | [] => True
  | e :: es' =>
      (edit_model m e).2 = Clean /\
      getParsedContent env (text (edit_model m e).1) =
        assign (key e) (value e) (getParsedContent env (text m)) /\
      tracks (edit_model m e).1 es'
  end.

(** [st'] is reached from [st] within [b] events of the event loop. *)
Definition reach (b : nat) (st st' : State) : Prop :=
  exists n, n <= b /\ forall k, drive env w (n + k) st = drive env w k st'.

End Transactions.

(** ** A concrete environment

    A text model that applies edit operations by splicing, and a stand-in
    for the differ and the parser that knows the documents of the scenarios
    evaluated below. *)
Module Demo.

Definition splice (t : string) (r : nat * nat) (ins : string) : string :=
  substring 0 (fst r) t +:+ ins +:+ substring (snd r) (String.length t - snd r) t.

Definition overlapping (ops : list EditOperation) : bool :=
  existsb
    (fun '(a, b) => bool_decide (fst (range b) < snd (range a))%nat)
    (zip ops (tail ops)).

(** Operations arrive in increasing offset order and all refer to the text
    before the edit, so they are applied from the last to the first;
    overlapping ranges are refused.  Any applied operation marks the model
    dirty. *)
Definition applyEdits (m : MonacoEditorModel) (ops : list EditOperation)
    : option MonacoEditorModel :=
  if overlapping ops then None
  else
    Some {| text := foldr (fun o t => splice t (range o) (default EmptyString (op_text o)))
                      (text m) ops;
            dirty := dirty m || negb (is_nil ops);
            valid := valid m;
            options := options m;
            stored := stored m |}.

Definition quote : string := String "034" EmptyString.
Definition empty_object : string := "{}".
Definition member (k v : string) : string := quote +:+ k +:+ quote +:+ ": " +:+ v.
Definition doc_a : string := "{" +:+ member "a" "1" +:+ "}".
Definition doc_ab : string := "{" +:+ member "a" "1" +:+ ", " +:+ member "b" "2" +:+ "}".

Definition differ (content : string) (path : list string) (v : option JSON)
    (_ : FormattingOptions) : option (list Edit) :=
  match path, v with
  | [k], Some (JNum z) =>
      if String.eqb content empty_object
      then Some [{| offset := 1; len := 0; content := member k (pretty z) |}]
      else if String.eqb content doc_a
      then Some [{| offset := String.length doc_a - 1; len := 0;
                    content := ", " +:+ member k (pretty z) |}]
      else None
  | [k], None =>
      if String.eqb content doc_a && String.eqb k "a"
      then Some [{| offset := 1; len := String.length doc_a - 2; content := EmptyString |}]
      else if String.eqb content empty_object then Some []
      else None
  | _, _ => None
  end.

Definition parser (content : string) : option JSON :=
  if String.eqb content empty_object then Some (JObj [])
  else if String.eqb content doc_a then Some (JObj [("a", JNum 1)])
  else if String.eqb content doc_ab then Some (JObj [("a", JNum 1); ("b", JNum 2)])
  else None.

(** Equality of scalar values. *)
Definition scalar_eqb (a b : JSON) : bool :=
  match a, b with
  | JNull, JNull => true
  | JBool x, JBool y => Bool.eqb x y
  | JNum x, JNum y => Z.eqb x y
  | JStr x, JStr y => String.eqb x y
  | _, _ => false
  end.

Definition env : Env :=
  {| getScope := Folder;
     getDomain := None;
     relativity := fun _ _ => 0%Z;
     getPath := getPath_default;
     modify := differ;
     parse_jsonc := parser;
     applyBackgroundEdit := applyEdits;
     testOverrideValue := fun _ _ => false;
     hasSchema := fun _ => false;
     isValidInScope := fun _ _ => true;
     deepEqual := scalar_eqb |}.

Definition document (t : string) (d : bool) : MonacoEditorModel :=
  {| text := t; dirty := d; valid := true;
     options := {| insertSpaces := true; tabSize := 4; defaultEOL := LF |};
     stored := t |}.

(** A healthy file system; the prompt is answered as given. *)
Definition world (a : Answer) : World :=
  {| save_succeeds := true; changes_reported := true; answer := a |}.

(** A provider whose [getPath] override addresses the whole document. *)
Definition section_env : Env :=
  {| getScope := Folder;
     getDomain := None;
     relativity := fun _ _ => 0%Z;
     getPath := fun _ => Some [];
     modify := differ;
     parse_jsonc := parser;
     applyBackgroundEdit := applyEdits;
     testOverrideValue := fun _ _ => false;
     hasSchema := fun _ => false;
     isValidInScope := fun _ _ => true;
     deepEqual := scalar_eqb |}.

End Demo.

(** ** Further members of the class and what its loops compute *)

(** [getConfigUri] (lines 142-149); [getUri] is the abstract member of the
    class. *)
Definition getConfigUri (env : Env) (getUri : string) (st : State)
    (resourceUri : option string) : option string :=
  match resourceUri with
  | None | Some EmptyString => Some getUri
  | Some _ => if is_valid st && contains env resourceUri then Some getUri else None
  end.

(** The assignments [preferences[name] = value] that the loops of
    [getParsedContent] (lines 323-334) perform on a parsed document, in the
    order they are made. *)
Definition bindings (env : Env) (jsonData : JSON) : list (string * JSON) :=
  '(preferenceName, preferenceValue) ← for_in jsonData;
  if testOverrideValue env preferenceName preferenceValue
  then (fun '(overriddenPreferenceName, overriddenValue) =>
          (preferenceName +:+ "." +:+ overriddenPreferenceName, overriddenValue))
         <$> for_in preferenceValue
  else [(preferenceName, preferenceValue)].

(** The guard of lines 356-363 of [handlePreferenceChanges]: the combined
    schema knows the preference and it cannot be defined in the scope of
    this provider. *)
Definition out_of_scope (env : Env) (prefName : string) : bool :=
  hasSchema env prefName && negb (isValidInScope env prefName (getScope env)).

(** The change record of lines 368-370 for a preference name. *)
Definition change_record (env : Env) (oldPrefs newPrefs : gmap string JSON)
    (prefName : string) : PreferenceProviderDataChange :=
  {| preferenceName := prefName; newValue := newPrefs !! prefName;
     oldValue := oldPrefs !! prefName; scope := getScope env;
     domain := getDomain env |}.

(** The names [handlePreferenceChanges] visits (line 350), and those it
    reports: the ones not held back by the scope check whose value
    differs. *)
Definition visited (oldPrefs newPrefs : gmap string JSON) : list string :=
  remove_dups ((map_to_list oldPrefs).*1 ++ (map_to_list newPrefs).*1).

Definition reportable (env : Env) (oldPrefs newPrefs : gmap string JSON) (k : string) : Prop :=
  out_of_scope env k = false /\ differs env (oldPrefs !! k) (newPrefs !! k) = true.

Global Instance reportable_dec env oldPrefs newPrefs k :
  Decision (reportable env oldPrefs newPrefs k).
Proof. unfold reportable. apply _. Defined.

(** ** Sequences of calls on the lock queue *)

Section LockTraces.
Context {W L : Type}.
Implicit Types (q : LockQueue.t W L) (o : LockQueue.op W L).

(** What one call did besides changing the lock: the deferred an
    [acquire()] pushed on the wait list, the waiter a [release()] resolved,
    the listener a [waitUntilFree()] registered, the listeners a
    [release()] ran. *)
Definition queued_by q o : list W :=
  match o with
  | LockQueue.Acquire d =>
      match (LockQueue.acquire d q).2 with Some d' => [d'] | None => [] end
  | _ => []
  end.

Definition resolved_by q o : list W :=
  match o with
  | LockQueue.Release =>
      match (LockQueue.release q).2 with
      | LockQueue.Transferred next => [next]
      | LockQueue.Freed _ => []
      end
  | _ => []
  end.

Definition registered_by q o : list L :=
  match o with
  | LockQueue.WaitUntilFree l => if (LockQueue.waitUntilFree l q).2 then [] else [l]
  | _ => []
  end.

Definition fired_by q o : list L :=
  match o with
  | LockQueue.Release =>
      match (LockQueue.release q).2 with
      | LockQueue.Transferred _ => []
      | LockQueue.Freed fired => fired
      end
  | _ => []
  end.

(** The same along a sequence of calls, from the lock [q]. *)
Fixpoint along {A} (f : LockQueue.t W L -> LockQueue.op W L -> list A) q
    (ops : list (LockQueue.op W L)) : list A :=
  match ops with
  | [] => []
  | o :: ops' => f q o ++ along f (LockQueue.exec q o) ops'
  end.

(** The callers an operation lets in: an [acquire()] whose promise is
    already resolved, a [release()] that resolves a waiter. *)
Definition granted_by q o : nat :=
  match o with
  | LockQueue.Acquire d =>
      match (LockQueue.acquire d q).2 with None => 1 | Some _ => 0 end
  | LockQueue.Release =>
      match (LockQueue.release q).2 with
      | LockQueue.Transferred _ => 1
      | LockQueue.Freed _ => 0
      end
  | LockQueue.WaitUntilFree _ => 0
  end.

(** The number of callers inside the critical section after [ops], [h]
    being inside before; [None] when a [release()] is called while nobody
    is inside. *)
Fixpoint holders q (h : nat) (ops : list (LockQueue.op W L)) : option nat :=
  match ops with
  | [] => Some h
  | o :: ops' =>
      match o, h with
      | LockQueue.Release, 0 => None
      | LockQueue.Release, S h' => holders (LockQueue.exec q o) (h' + granted_by q o) ops'
      | _, _ => holders (LockQueue.exec q o) (h + granted_by q o) ops'
      end
  end.

End LockTraces.

(** ** Writes on a dirty document *)

(** The state a burst of calls on a dirty document at rest leads to: the
    prompt is up, the writes are queued, one flush transaction waits behind
    the gate. *)
Definition prompting (st : State) (ws : list Write) : State :=
  let g := next_id st + length ws in
  set_suspended [AwaitAnswer]
    (set_prompts (S (prompts st))
       (set_gates (<[g := [DSP_gate (S g)]]> (<[g := []]> (gates st)))
          (set_dirtyEditorHandled g
             (set_editQueue (entries (next_id st) ws)
                (set_next_id (S (S g)) st))))).

(** The identifiers of the calls on their way to the queue or in it. *)
Definition in_flight (st : State) : list nat :=
  omap call_id (microtasks st) ++ (editResolver <$> editQueue st).

(** A provider whose queue is not empty while nothing is suspended and only
    continuations of [setPreference] are scheduled: the flush transaction
    of the queue waits for a gate that no pending operation will resolve. *)
Record stranded (st : State) : Prop := {
  stranded_queue : editQueue st <> [];
  stranded_suspended : suspended st = [];
  stranded_jobs : Forall (fun j => is_Some (call_id j)) (microtasks st);
  stranded_ids : NoDup (in_flight st);
  stranded_pending :
    forall i, i ∈ in_flight st -> i < next_id st /\ outcomes st !! i = None;
  stranded_fresh : forall i, next_id st <= i -> outcomes st !! i = None
}.

(** ** A settings file with a language section

    A schema provider that takes a name in square brackets holding an
    object for an override identifier and knows two preferences, one of
    which cannot be defined in a folder. *)
Module Settings.

Definition is_override (name : string) (v : JSON) : bool :=
  match name, v with
  | String "[" _, JObj _ => true
  | _, _ => false
  end.

Definition doc : string :=
  "{" +:+ Demo.member "[json]" ("{" +:+ Demo.member "editor.tabSize" "2" +:+ "}") +:+ ", "
      +:+ Demo.member "editor.tabSize" "4" +:+ ", "
      +:+ Demo.member "window.zoomLevel" "1" +:+ "}".

Definition parsed : JSON :=
  JObj [("[json]", JObj [("editor.tabSize", JNum 2)]);
        ("editor.tabSize", JNum 4);
        ("window.zoomLevel", JNum 1)].

Definition parser (content : string) : option JSON :=
  if String.eqb content doc then Some parsed else Demo.parser content.

Definition env : Env :=
  {| getScope := Folder;
     getDomain := Some ["file:///project"];
     relativity := fun uri resource => if String.prefix uri resource then 0%Z else (-1)%Z;
     getPath := getPath_default;
     modify := Demo.differ;
     parse_jsonc := parser;
     applyBackgroundEdit := Demo.applyEdits;
     testOverrideValue := is_override;
     hasSchema := fun k => String.eqb k "editor.tabSize" || String.eqb k "window.zoomLevel";
     isValidInScope := fun k s =>
       negb (String.eqb k "window.zoomLevel") ||
       match s with User => true | _ => false end;
     deepEqual := Demo.scalar_eqb |}.

End Settings.

(** ** A provider of one section of a settings file

    Its [getPath] override addresses the section itself by the empty path,
    a preference of the section by its name within the section, and knows
    no path for any other preference. *)
Module Launch.

Definition section : string := "launch".

Definition path_in_section (preferenceName : string) : option (list string) :=
  if String.eqb preferenceName section then Some []
  else if String.prefix (section +:+ ".") preferenceName
  then Some [substring (S (String.length section))
               (String.length preferenceName - S (String.length section)) preferenceName]
  else None.

Definition env : Env :=
  {| getScope := Folder;
     getDomain := None;
     relativity := fun _ _ => 0%Z;
     getPath := path_in_section;
     modify := Demo.differ;
     parse_jsonc := Demo.parser;
     applyBackgroundEdit := Demo.applyEdits;
     testOverrideValue := fun _ _ => false;
     hasSchema := fun _ => false;
     isValidInScope := fun _ _ => true;
     deepEqual := Demo.scalar_eqb |}.

End Launch.

(** ** Loading and disposal ([init], lines 108-133)

    Until [createModelReference] is fulfilled the provider has no model and
    [loading] is pending; disposal rejects a pending [loading] (line 111)
    and makes [init] drop the reference when it arrives (lines 116-119). *)
Module Init.

(** The [loading] deferred; while it is pending it holds the continuations
    of the [setPreference] calls that await it (line 168). *)
Inductive Loading : Type :=
  | Pending (waiting : list Job)
  | Resolved
  | Failed.

(** [core] is the provider as above; [disposed] is [toDispose.disposed];
    [referenced] says that [init] has resumed after its [await];
    [rejecting] holds the calls whose [await this.loading.promise] throws in
    a coming microtask; [released] counts the [reference.dispose()]
    calls. *)
Record Provider : Type := {
  core : State;
  loading : Loading;
  disposed : bool;
  referenced : bool;
  rejecting : list nat;
  released : nat
}.

Inductive Input : Type :=
  | Referenced (m : MonacoEditorModel)
      (* [createModelReference(uri)] is fulfilled and [init] resumes *)
  | Occurs (e : Event).
      (* an event of the provider *)

(** The provider before [init] has resumed: [_ready] and the first
    [dirtyEditorHandled] are resolved (lines 112-113), there is no model. *)
Definition unloaded : State :=
  {| snapshot := {| preferences := ∅; emitted := []; warned := [] |};
     model := None; editQueue := [];
     dirtyEditorHandled := 0; fileEditLock := LockQueue.init;
     gates := ∅; transactions := ∅; outcomes := ∅; next_id := 1;
     microtasks := []; suspended := [];
     saves := 0; prompts := 0; errors := []; logged := []; opened := 0 |}.

Definition start : Provider :=
  {| core := unloaded; loading := Pending []; disposed := false;
     referenced := false; rejecting := []; released := 0 |}.

Definition with_core (c : State) (p : Provider) : Provider :=
  {| core := c; loading := loading p; disposed := disposed p;
     referenced := referenced p; rejecting := rejecting p; released := released p |}.

(** A call of [setPreference] at its [await this.loading.promise]. *)
Definition await_loading (k : string) (v : option JSON) (resourceUri : option string)
    (p : Provider) : Provider :=
  let id := next_id (core p) in
  match loading p with
  | Pending waiting =>
      {| core := set_next_id (S id) (core p);
         loading := Pending (waiting ++ [SP_loaded id k v resourceUri]);
         disposed := disposed p; referenced := referenced p;
         rejecting := rejecting p; released := released p |}
  | Resolved => with_core (setPreference k v resourceUri (core p)) p
  | Failed =>
      {| core := set_next_id (S id) (core p);
         loading := Failed;
         disposed := disposed p; referenced := referenced p;
         rejecting := rejecting p ++ [id]; released := released p |}
  end.

(** [init] from line 116 on. *)
Definition resume (env : Env) (m : MonacoEditorModel) (p : Provider) : Provider :=
  if referenced p then p
  else if disposed p then
    {| core := core p; loading := loading p; disposed := true;
       referenced := true; rejecting := rejecting p; released := S (released p) |}
  else
    match loading p with
    | Pending waiting =>
        {| core := read env (set_model (Some m) (enqueue waiting (core p)));
           loading := Resolved; disposed := false;
           referenced := true; rejecting := rejecting p; released := released p |}
    | _ => p
    end.

(** [dispose()] runs the disposables that [init] has pushed so far: the
    rejection of [loading] (line 111), which a resolved [loading] ignores,
    and after the load the reference, the model and the snapshot (lines
    124-132). *)
Definition disposal (env : Env) (p : Provider) : Provider :=
  if disposed p then p
  else
    match loading p with
    | Pending waiting =>
        {| core := core p; loading := Failed; disposed := true;
           referenced := referenced p;
           rejecting := rejecting p ++ omap call_id waiting;
           released := released p |}
    | Resolved =>
        {| core := dispose env (core p); loading := Resolved; disposed := true;
           referenced := referenced p; rejecting := rejecting p;
           released := S (released p) |}
    | Failed => p
    end.

(** The microtask at the head of the queue: the rejection of a call that
    awaited a failed [loading], else a continuation of the provider (the
    former exist only when the load was abandoned, the latter only once it
    succeeded). *)
Definition tick (env : Env) (p : Provider) : Provider :=
  match rejecting p with
  | id :: rest =>
      {| core := settle id Rejected (core p); loading := loading p;
         disposed := disposed p; referenced := referenced p;
         rejecting := rest; released := released p |}
  | [] => with_core (step env (core p) Tick) p
  end.

Definition step (env : Env) (p : Provider) (i : Input) : Provider :=
  match i with
  | Referenced m => resume env m p
  | Occurs (Call k v resourceUri) => await_loading k v resourceUri p
  | Occurs Tick => tick env p
  | Occurs Dispose => disposal env p
  | Occurs e => with_core (step env (core p) e) p
  end.

Definition run (env : Env) (p : Provider) (trace : list Input) : Provider :=
  foldl (step env) p trace.

(** A call ([Some]) or a turn of the event loop ([None]). *)
Definition input (x : option Write) : Input :=
  match x with
  | Some x => Occurs (call x)
  | None => Occurs Tick
  end.

(** A provider disposed before its model arrived: it has no model and has
    done nothing, and every call made so far is rejected or about to be. *)
Record abandoned (p : Provider) : Prop := {
  ab_loading : loading p = Failed;
  ab_disposed : disposed p = true;
  ab_core :
    core p = set_outcomes (outcomes (core p)) (set_next_id (next_id (core p)) unloaded);
  ab_ids : NoDup (rejecting p);
  ab_rejecting :
    forall id, id ∈ rejecting p -> id < next_id (core p) /\ outcomes (core p) !! id = None;
  ab_rejected :
    forall id, 1 <= id < next_id (core p) -> id ∉ rejecting p ->
      outcomes (core p) !! id = Some Rejected;
  ab_fresh : forall id, next_id (core p) <= id -> outcomes (core p) !! id = None;
  ab_released : released p = if referenced p then 1 else 0
}.

End Init.

(** ** Bursts in turn *)

(** The model after a flush transaction whose save, if one was needed,
    succeeded. *)
Definition settled (m : MonacoEditorModel) : MonacoEditorModel :=
  if dirty m then saved m else m.

(** Bursts of calls made one after the other, each run to quiescence
    before the next is made. *)
Definition in_turn (env : Env) (w : World) (fuel : nat) (st : State)
    (wss : list (list Write)) : State :=
  foldl (fun st ws => drive env w fuel (run env st (call <$> ws))) st wss.

(** The outcomes after every call of the list has been refused. *)
Definition all_refused (ids : list nat) (ou : gmap nat Outcome) : gmap nat Outcome :=
  foldl (fun (ou : gmap nat Outcome) i => <[i := Settled false]> ou) ou ids.

(** ** Writes that arrive during a save *)

(** The state in which the flush transaction of a burst on a clean document
    at rest awaits its [save()] (line 209): the edits are applied and the
    lock is held. *)
Definition saving (env : Env) (st : State) (ws : list Write) : State :=
  let lpc := next_id st + length ws in
  set_suspended [AwaitSave lpc]
    (set_saves (S (saves st))
       (set_fileEditLock (LockQueue.mk [] true [])
          (flush_edits env lpc (entries (next_id st) ws) (set_next_id (S lpc) st)))).

(** ** A text model that every applied edit marks dirty *)
Module Marking.

Definition applyEdits (m : MonacoEditorModel) (ops : list EditOperation)
    : option MonacoEditorModel :=
  match Demo.applyEdits m ops with
  | Some m' =>
      Some {| text := text m'; dirty := true; valid := valid m';
              options := options m'; stored := stored m' |}
  | None => None
  end.

Definition env : Env :=
  {| getScope := Folder;
     getDomain := None;
     relativity := fun _ _ => 0%Z;
     getPath := getPath_default;
     modify := Demo.differ;
     parse_jsonc := Demo.parser;
     applyBackgroundEdit := applyEdits;
     testOverrideValue := fun _ _ => false;
     hasSchema := fun _ => false;
     isValidInScope := fun _ _ => true;
     deepEqual := Demo.scalar_eqb |}.

End Marking.

(** * Proofs *)

(** Evaluation of the machine on a state given field by field.  The state
    functions are unfolded call-by-value, so that every update meets a
    constructor. *)
Ltac machine :=
  cbv beta iota zeta delta
    [snapshot model editQueue dirtyEditorHandled fileEditLock gates transactions
     outcomes next_id microtasks suspended saves prompts errors logged opened
     set_snapshot set_model set_editQueue set_dirtyEditorHandled set_fileEditLock
     set_gates set_transactions set_outcomes set_next_id set_microtasks
     set_suspended set_saves set_prompts set_errors set_logged set_opened
     enqueue suspend read step run_job setPreference setPreference_loaded
     setPreference_free handleDirtyEditor doSetPreferences arm_gate await_gate
     resolve_gate drain doSetPreference doSetPreference_catch finish
     doSetPreferences_locked handleDirtyEditor_answered
     complete model_saved next_event respond call pick
     LockQueue.acquire LockQueue.release LockQueue.waitUntilFree LockQueue.init
     LockQueue.queue LockQueue.busy LockQueue.onFree
     is_nil negb option_map];
  cbn [app fst snd key value editResolver].

Ltac fields :=
  cbn [snapshot model editQueue dirtyEditorHandled fileEditLock gates transactions
       outcomes next_id microtasks suspended saves prompts errors logged opened
       LockQueue.queue LockQueue.busy LockQueue.onFree] in *.

(** ** The event loop *)

Section Runs.
Context (env : Env) (w : World).

Lemma drive_stop n st : next_event w st = None -> drive env w n st = st.
Proof. destruct n; simpl; [done|]. by intros ->. Qed.

Lemma reach_refl st : reach env w 0 st st.
Proof. exists 0. split; [lia|done]. Qed.

Lemma reach_step b st e st' :
  next_event w st = Some e -> reach env w b (step env st e) st' -> reach env w (S b) st st'.
Proof.
  intros He (n & Hn & H). exists (S n). split; [lia|].
  intros k. simpl. rewrite He. apply H.
Qed.

Lemma reach_trans a b s t u : reach env w a s t -> reach env w b t u -> reach env w (a + b) s u.
Proof.
  intros (n & Hn & H) (m & Hm & H'). exists (n + m). split; [lia|].
  intros k. rewrite <- Nat.add_assoc, H. apply H'.
Qed.

Lemma reach_mono a b s t : a <= b -> reach env w a s t -> reach env w b s t.
Proof. intros Hab (n & Hn & H). exists n. split; [lia|done]. Qed.

Lemma reach_drive b st st' fuel :
  reach env w b st st' -> next_event w st' = None -> b <= fuel -> drive env w fuel st = st'.
Proof.
  intros (n & Hn & H) Hq Hf.
  replace fuel with (n + (fuel - n)) by lia.
  rewrite H. by apply drive_stop.
Qed.

Lemma run_calls ws :
  forall st,
    run env st (call <$> ws) =
    set_microtasks (microtasks st ++ loaded_jobs (next_id st) ws)
      (set_next_id (next_id st + length ws) st).
Proof.
  induction ws as [|x ws IH]; intros st.
  - destruct st. machine. simpl. by rewrite app_nil_r, Nat.add_0_r.
  - unfold run in *. rewrite fmap_cons. cbn [foldl]. rewrite IH. destruct st. machine.
    rewrite <- app_assoc. simpl. do 2 f_equal. lia.
Qed.

Lemma tick_loaded ws :
  forall st id rest,
    microtasks st = loaded_jobs id ws ++ rest ->
    is_Some (model st) ->
    LockQueue.busy (fileEditLock st) = false ->
    Forall (in_domain env) ws ->
    reach env w (length ws) st (set_microtasks (rest ++ free_jobs id ws) st).
Proof.
  induction ws as [|x ws IH]; intros st id rest Hm Hmod Hb Hdom.
  - simpl in *. destruct st. fields. subst. machine. rewrite app_nil_r. apply reach_refl.
  - inversion Hdom as [|? ? Hx Hws]; subst. destruct Hmod as [m Hmod].
    destruct st as [sn mo eq g [lq lb lf] ga tx ou nx mt su sa pr er lo op].
    fields. subst. cbn [loaded_jobs app]. eapply reach_step.
    { reflexivity. }
    machine. unfold in_domain in Hx. rewrite Hx. machine.
    eapply (reach_mono _ _ _ _ (Nat.le_refl _)).
    specialize (IH (Build_State sn (Some m) eq g (LockQueue.mk lq false lf) ga tx ou nx
                      ((loaded_jobs (S id) ws ++ rest) ++ [SP_free id x.1.1 x.1.2])
                      su sa pr er lo op) (S id) (rest ++ [SP_free id x.1.1 x.1.2])).
    fields. cbn [free_jobs]. rewrite <- (app_assoc rest) in IH.
    apply IH; auto. by rewrite <- app_assoc.
Qed.

Lemma tick_free ws :
  forall st id rest,
    microtasks st = free_jobs id ws ++ rest ->
    editQueue st <> [] ->
    reach env w (length ws) st
      (set_microtasks rest (set_editQueue (editQueue st ++ entries id ws) st)).
Proof.
  induction ws as [|x ws IH]; intros st id rest Hm Hq.
  - simpl in *. destruct st. fields. subst. machine. rewrite app_nil_r. apply reach_refl.
  - destruct st as [sn mo eq g lk ga tx ou nx mt su sa pr er lo op].
    fields. subst. destruct eq as [|e0 eq]; [done|]. cbn [free_jobs app].
    eapply reach_step; [reflexivity|]. machine.
    specialize (IH (Build_State sn mo
                      ((e0 :: eq) ++ [{| key := x.1.1; value := x.1.2; editResolver := id |}])
                      g lk ga tx ou nx (free_jobs (S id) ws ++ rest)
                      su sa pr er lo op) (S id) rest).
    fields. cbn [entries]. rewrite <- app_assoc in IH. apply IH; auto.
Qed.

Lemma drain_one lpc e rest st :
  editQueue st = e :: rest -> microtasks st = [] -> suspended st = [] ->
  reach env w 3 (drain env lpc st) (drain env lpc (flush_edit env lpc (set_editQueue rest st) e)).
Proof.
  intros Hq Hm Hs. destruct st as [sn mo eq g lk ga tx ou nx mt su sa pr er lo op].
  fields. subst. unfold flush_edit, apply_edit. machine.
  destruct (doSetPreference_start _ _ _ _) as [r| |m ops]; machine.
  - eapply reach_mono; [|eapply reach_step; [reflexivity|apply reach_refl]]. lia.
  - eapply reach_mono; [|eapply reach_step; [reflexivity|apply reach_refl]]. lia.
  - destruct (applyBackgroundEdit _ _ _) as [m'|]; machine.
    + do 3 (eapply reach_step; [reflexivity|]; machine). apply reach_refl.
    + do 3 (eapply reach_step; [reflexivity|]; machine). apply reach_refl.
Qed.

Lemma flush_edit_editQueue lpc e st q :
  flush_edit env lpc (set_editQueue q st) e = set_editQueue q (flush_edit env lpc st e).
Proof.
  destruct st. unfold flush_edit, apply_edit, settle. machine.
  destruct (doSetPreference_start _ _ _ _) as [r| |m ops]; machine;
    [| |destruct (applyBackgroundEdit _ _ _); machine];
    destruct (_ !! _); reflexivity.
Qed.

Lemma flush_edit_frame lpc e st :
  editQueue (flush_edit env lpc st e) = editQueue st /\
  microtasks (flush_edit env lpc st e) = microtasks st /\
  suspended (flush_edit env lpc st e) = suspended st /\
  fileEditLock (flush_edit env lpc st e) = fileEditLock st /\
  saves (flush_edit env lpc st e) = saves st /\
  prompts (flush_edit env lpc st e) = prompts st /\
  next_id (flush_edit env lpc st e) = next_id st /\
  transactions (flush_edit env lpc st e) = transactions st /\
  gates (flush_edit env lpc st e) = gates st /\
  dirtyEditorHandled (flush_edit env lpc st e) = dirtyEditorHandled st /\
  opened (flush_edit env lpc st e) = opened st.
Proof.
  destruct st. unfold flush_edit, apply_edit, settle. machine.
  destruct (doSetPreference_start _ _ _ _) as [r| |m ops]; machine;
    [| |destruct (applyBackgroundEdit _ _ _); machine];
    destruct (_ !! _); repeat split; reflexivity.
Qed.

Lemma flush_edits_frame lpc es :
  forall st,
  editQueue (flush_edits env lpc es st) = editQueue st /\
  microtasks (flush_edits env lpc es st) = microtasks st /\
  suspended (flush_edits env lpc es st) = suspended st /\
  fileEditLock (flush_edits env lpc es st) = fileEditLock st /\
  saves (flush_edits env lpc es st) = saves st /\
  prompts (flush_edits env lpc es st) = prompts st /\
  next_id (flush_edits env lpc es st) = next_id st /\
  transactions (flush_edits env lpc es st) = transactions st /\
  gates (flush_edits env lpc es st) = gates st /\
  dirtyEditorHandled (flush_edits env lpc es st) = dirtyEditorHandled st /\
  opened (flush_edits env lpc es st) = opened st.
Proof.
  induction es as [|e es IH]; intros st; [by repeat split|].
  unfold flush_edits in *. cbn [foldl].
  destruct (IH (flush_edit env lpc st e)) as (-> & -> & -> & -> & -> & -> & -> & -> & -> & -> & ->).
  apply flush_edit_frame.
Qed.

Lemma drain_edits lpc es :
  forall st,
    editQueue st = es -> microtasks st = [] -> suspended st = [] ->
    reach env w (3 * length es) (drain env lpc st)
      (drain env lpc (flush_edits env lpc es (set_editQueue [] st))).
Proof.
  induction es as [|e es IH]; intros st Hq Hm Hs.
  - destruct st. fields. subst. machine. apply reach_refl.
  - replace (3 * length (e :: es)) with (3 + 3 * length es) by (simpl; lia).
    eapply reach_trans; [by apply drain_one|].
    pose proof (flush_edit_frame lpc e (set_editQueue es st)) as (Fq & Fm & Fs & _).
    specialize (IH (flush_edit env lpc (set_editQueue es st) e)).
    rewrite <- flush_edit_editQueue in IH.
    replace (set_editQueue [] (set_editQueue es st)) with (set_editQueue [] st) in IH
      by (by destruct st).
    apply IH.
    + rewrite flush_edit_editQueue. by destruct st.
    + rewrite flush_edit_editQueue. destruct (flush_edit env lpc st e) eqn:E.
      pose proof (flush_edit_frame lpc e st) as (_ & Fm' & _). rewrite E in Fm'.
      fields. machine. congruence.
    + rewrite flush_edit_editQueue. destruct (flush_edit env lpc st e) eqn:E.
      pose proof (flush_edit_frame lpc e st) as (_ & _ & Fs' & _). rewrite E in Fs'.
      fields. machine. congruence.
Qed.

Lemma drain_commit lpc st :
  editQueue st = [] -> microtasks st = [] -> suspended st = [] ->
  fileEditLock st = LockQueue.init ->
  reach env w 6 (drain env lpc st) (commit env w lpc st).
Proof.
  intros Hq Hm Hs Hl. destruct st as [sn mo eq g lk ga tx ou nx mt su sa pr er lo op].
  unfold commit, saved. fields. subst. machine.
  eapply reach_step; [reflexivity|]. machine.
  destruct mo as [m|]; machine; [destruct (dirty m) eqn:Hd; machine|].
  - eapply reach_step; [reflexivity|]. machine.
    destruct (save_succeeds w); machine.
    + do 3 (eapply reach_step; [reflexivity|]; machine).
      eapply reach_mono; [|apply reach_refl]. lia.
    + eapply reach_step; [reflexivity|]; machine.
      eapply reach_mono; [|apply reach_refl]. lia.
  - eapply reach_mono; [|apply reach_refl]. lia.
  - eapply reach_mono; [|apply reach_refl]. lia.
Qed.

Lemma commit_frame lpc st :
  editQueue (commit env w lpc st) = editQueue st /\
  microtasks (commit env w lpc st) = microtasks st /\
  suspended (commit env w lpc st) = suspended st /\
  fileEditLock (commit env w lpc st) = fileEditLock st /\
  outcomes (commit env w lpc st) = outcomes st /\
  prompts (commit env w lpc st) = prompts st /\
  next_id (commit env w lpc st) = next_id st /\
  errors (commit env w lpc st) = errors st /\
  logged (commit env w lpc st) = logged st /\
  gates (commit env w lpc st) = gates st /\
  dirtyEditorHandled (commit env w lpc st) = dirtyEditorHandled st /\
  opened (commit env w lpc st) = opened st.
Proof.
  destruct st as [sn mo eq g lk ga tx ou nx mt su sa pr er lo op].
  unfold commit. machine. destruct mo as [m|]; [destruct (dirty m)|];
    [destruct (save_succeeds w)| |]; machine; repeat split; reflexivity.
Qed.

(** A flush transaction from the moment its continuation is scheduled. *)
Lemma flush_runs lpc st :
  microtasks st = [DSP_gate lpc] -> suspended st = [] ->
  fileEditLock st = LockQueue.init ->
  reach env w (3 * length (editQueue st) + 7) st
    (commit env w lpc (flush_edits env lpc (editQueue st) (set_microtasks [] (set_editQueue [] st)))).
Proof.
  intros Hm Hs Hl.
  replace (3 * length (editQueue st) + 7) with (S (3 * length (editQueue st) + 6)) by lia.
  eapply reach_step; [by unfold next_event; rewrite Hm|].
  eapply reach_trans.
  { replace (step env st Tick) with (drain env lpc (set_microtasks [] st)).
    - apply (drain_edits lpc (editQueue st)); by destruct st.
    - destruct st. fields. subst. reflexivity. }
  replace (set_editQueue [] (set_microtasks [] st))
    with (set_microtasks [] (set_editQueue [] st)) by (by destruct st).
  pose proof (flush_edits_frame lpc (editQueue st) (set_microtasks [] (set_editQueue [] st)))
    as (Fq & Fm & Fs & Fl & _).
  apply drain_commit.
  - rewrite Fq. by destruct st.
  - rewrite Fm. by destruct st.
  - rewrite Fs. by destruct st.
  - rewrite Fl. by destruct st.
Qed.

Lemma entries_length id ws : length (entries id ws) = length ws.
Proof. revert id. induction ws; intros; simpl; auto. Qed.

(** A burst of calls on a clean document. *)
Lemma burst_clean ws st m :
  idle st -> model st = Some m -> dirty m = false -> ws <> [] -> Forall (in_domain env) ws ->
  reach env w (5 * length ws + 8) (run env st (call <$> ws))
    (commit env w (next_id st + length ws)
       (flush_edits env (next_id st + length ws) (entries (next_id st) ws)
          (set_next_id (S (next_id st + length ws)) st))).
Proof.
  intros [Hq Hm Hs Hl Hg _] Hmod Hd Hne Hdom.
  rewrite run_calls.
  destruct st as [sn mo eq g lk ga tx ou nx mt su sa pr er lo op].
  fields. subst. destruct ws as [|x ws]; [done|]. clear Hne.
  machine.
  eapply (reach_mono (length (x :: ws) + (1 + (length ws + (3 * length (x :: ws) + 7)))));
    [simpl; lia|].
  eapply reach_trans.
  { eapply (tick_loaded (x :: ws) _ nx []); fields;
      [by rewrite app_nil_r|by eexists|reflexivity|done]. }
  machine. cbn [free_jobs]. eapply reach_step; [reflexivity|]. machine. rewrite Hd, Hg. machine.
  eapply reach_trans.
  { eapply (tick_free ws _ (S nx) [DSP_gate (nx + S (length ws))]); fields;
      [reflexivity|done]. }
  machine. cbn [length entries].
  match goal with
  | |- reach env w _ ?s _ => pose proof (flush_runs (nx + S (length ws)) s eq_refl eq_refl eq_refl) as F
  end.
  revert F. machine. cbn [length]. rewrite entries_length. intros F. exact F.
Qed.

End Runs.

(** ** Draining the queue *)

Section Edits.
Context (env : Env).

Lemma flush_edit_spec lpc e st m :
  model st = Some m ->
  model (flush_edit env lpc st e) = Some (edit_model env m e).1 /\
  errors (flush_edit env lpc st e) = errors st ++ thrown1 env m e /\
  logged (flush_edit env lpc st e) = logged st ++ thrown1 env m e /\
  outcomes (flush_edit env lpc st e) =
    match outcomes st !! editResolver e with
    | Some _ => outcomes st
    | None => <[editResolver e := verdict lpc (edit_model env m e).2]> (outcomes st)
    end.
Proof.
  intros Hm. destruct st as [sn mo eq g lk ga tx ou nx mt su sa pr er lo op].
  fields. subst. unfold flush_edit, apply_edit, settle, edit_model, thrown1, edit_model.
  machine.
  destruct (doSetPreference_start env (Some m) (key e) (value e)) as [[|]| |m0 ops] eqn:E;
    machine.
  - destruct (ou !! _); machine; rewrite ?app_nil_r; done.
  - destruct (ou !! _); machine; rewrite ?app_nil_r; done.
  - destruct (ou !! _); machine; done.
  - assert (m0 = m) as ->.
    { unfold doSetPreference_start in E. destruct (getPath env (key e)); [|done].
      repeat (case_match; try done); congruence. }
    destruct (applyBackgroundEdit env m ops); machine;
      destruct (ou !! _); machine; rewrite ?app_nil_r; done.
Qed.

Lemma flush_edits_cons lpc e es st :
  flush_edits env lpc (e :: es) st = flush_edits env lpc es (flush_edit env lpc st e).
Proof. reflexivity. Qed.

Lemma flush_edits_model lpc es :
  forall st m, model st = Some m -> model (flush_edits env lpc es st) = Some (edited env m es).
Proof.
  induction es as [|e es IH]; intros st m Hm; [done|].
  rewrite flush_edits_cons. unfold edited. cbn [foldl].
  apply IH. by apply flush_edit_spec.
Qed.

Lemma flush_edits_errors lpc es :
  forall st m, model st = Some m ->
    errors (flush_edits env lpc es st) = errors st ++ thrown env m es /\
    logged (flush_edits env lpc es st) = logged st ++ thrown env m es.
Proof.
  induction es as [|e es IH]; intros st m Hm.
  - simpl. by rewrite !app_nil_r.
  - rewrite flush_edits_cons. cbn [thrown].
    destruct (flush_edit_spec lpc e st m Hm) as (Hm' & He & Hl & _).
    destruct (IH _ _ Hm') as [-> ->]. rewrite He, Hl. unfold thrown1.
    destruct (edit_model env m e).2; rewrite <- ?app_assoc; simpl; rewrite ?app_nil_r; done.
Qed.

Lemma flush_edits_outcomes_other lpc es :
  forall st m j, model st = Some m ->
    j ∉ editResolver <$> es ->
    outcomes (flush_edits env lpc es st) !! j = outcomes st !! j.
Proof.
  induction es as [|e es IH]; intros st m j Hm Hj; [done|].
  rewrite flush_edits_cons.
  rewrite fmap_cons in Hj. apply not_elem_of_cons in Hj as [Hne Hj].
  destruct (flush_edit_spec lpc e st m Hm) as (Hm' & _ & _ & Ho).
  rewrite (IH _ _ _ Hm' Hj), Ho.
  destruct (outcomes st !! editResolver e); [done|]. by rewrite lookup_insert_ne.
Qed.

Lemma flush_edits_outcomes lpc es :
  forall st m i e a, model st = Some m ->
    NoDup (editResolver <$> es) ->
    (forall e, e ∈ es -> outcomes st !! editResolver e = None) ->
    es !! i = Some e -> statuses env m es !! i = Some a ->
    outcomes (flush_edits env lpc es st) !! editResolver e = Some (verdict lpc a).
Proof.
  induction es as [|e0 es IH]; intros st m i e a Hm Hnd Hp Hi Ha; [done|].
  rewrite fmap_cons in Hnd. apply NoDup_cons in Hnd as [Hnin Hnd].
  rewrite flush_edits_cons.
  destruct (flush_edit_spec lpc e0 st m Hm) as (Hm' & _ & _ & Ho).
  rewrite (Hp e0) in Ho by left.
  destruct i as [|i]; simpl in Hi, Ha.
  - inversion Hi; inversion Ha; subst.
    rewrite (flush_edits_outcomes_other lpc es _ _ _ Hm' Hnin), Ho.
    by rewrite lookup_insert_eq.
  - eapply IH; eauto.
    intros e' He'. rewrite Ho. rewrite lookup_insert_ne.
    + apply Hp. by right.
    + intros Heq. apply Hnin. rewrite Heq. by apply list_elem_of_fmap_2.
Qed.

End Edits.

(** ** A flush transaction from start to end *)

Section Results.
Context (env : Env) (w : World).

Lemma commit_spec lpc st m :
  model st = Some m ->
  transactions (commit env w lpc st) !! lpc = Some (success w m) /\
  saves (commit env w lpc st) = saves st + (if dirty m then 1 else 0) /\
  model (commit env w lpc st) = Some (if dirty m && save_succeeds w then saved m else m).
Proof.
  intros Hm. destruct st as [sn mo eq g lk ga tx ou nx mt su sa pr er lo op].
  fields. subst. unfold commit, success. machine.
  destruct (dirty m); [destruct (save_succeeds w)|]; machine;
    rewrite lookup_insert_eq; repeat split; try done; lia.
Qed.

Lemma tracks_parsed es :
  forall m, tracks env m es ->
    getParsedContent env (text (edited env m es)) =
    foldl (fun p e => assign (key e) (value e) p) (getParsedContent env (text m)) es.
Proof.
  induction es as [|e es IH]; intros m H; [done|].
  destruct H as (_ & Hp & Ht). unfold edited in *. cbn [foldl].
  rewrite (IH _ Ht). by rewrite Hp.
Qed.

Lemma assign_last es :
  forall (p : gmap string JSON) k,
    foldl (fun p e => assign (key e) (value e) p) p es !! k =
    match last_value k es with
    | Some v => v
    | None => p !! k
    end.
Proof.
  induction es as [|e es IH]; intros p k; [done|].
  cbn [foldl]. rewrite IH. unfold last_value.
  destruct (decide (key e = k)) as [Hk|Hk].
  - rewrite filter_cons_True by done. rewrite fmap_cons, last_cons.
    destruct (last _); [done|]. subst k.
    unfold assign. destruct (value e); [by rewrite lookup_insert_eq|by rewrite lookup_delete_eq].
  - rewrite filter_cons_False by done.
    destruct (last _); [done|].
    unfold assign. destruct (value e); [by rewrite lookup_insert_ne|by rewrite lookup_delete_ne].
Qed.

(** A flush transaction, from its scheduled continuation to the end. *)
Lemma flush_results st lpc m fuel :
  microtasks st = [DSP_gate lpc] -> suspended st = [] ->
  fileEditLock st = LockQueue.init -> model st = Some m ->
  3 * length (editQueue st) + 7 <= fuel ->
  let es := editQueue st in
  let final := drive env w fuel st in
  let m' := edited env m es in
  next_event w final = None /\
  editQueue final = [] /\
  fileEditLock final = LockQueue.init /\
  transactions final !! lpc = Some (success w m') /\
  model final = Some (if dirty m' && save_succeeds w then saved m' else m') /\
  saves final = saves st + (if dirty m' then 1 else 0) /\
  prompts final = prompts st /\
  next_id final = next_id st /\
  gates final = gates st /\
  dirtyEditorHandled final = dirtyEditorHandled st /\
  errors final = errors st ++ thrown env m es /\
  logged final = logged st ++ thrown env m es /\
  (forall j, j ∉ editResolver <$> es -> outcomes final !! j = outcomes st !! j) /\
  (NoDup (editResolver <$> es) ->
   (forall e, e ∈ es -> outcomes st !! editResolver e = None) ->
   forall i e a, es !! i = Some e -> statuses env m es !! i = Some a ->
     outcomes final !! editResolver e = Some (verdict lpc a)).
Proof.
  intros Hmt Hsu Hl Hm Hf es final m'.
  set (st0 := set_microtasks [] (set_editQueue [] st)).
  assert (Hm0 : model st0 = Some m) by exact Hm.
  pose proof (flush_runs env w lpc st Hmt Hsu Hl) as R. fold es st0 in R.
  pose proof (flush_edits_frame env lpc es st0)
    as (Fq & Fm & Fs & Fl & Fsa & Fp & Fn & _ & Fg & Fd & _).
  pose proof (commit_frame env w lpc (flush_edits env lpc es st0))
    as (Cq & Cm & Cs & Cl & Co & Cp & Cn & Ce & Clg & Cg & Cd & _).
  pose proof (flush_edits_model env lpc es st0 m Hm0) as Hmod.
  pose proof (commit_spec lpc _ _ Hmod) as (Htx & Hsa & Hmo).
  assert (final = commit env w lpc (flush_edits env lpc es st0)) as ->.
  { unfold final. eapply reach_drive; [exact R| |exact Hf].
    unfold next_event. rewrite Cm, Cs, Fm, Fs. unfold st0. simpl. by rewrite Hsu. }
  split; [unfold next_event; rewrite Cm, Cs, Fm, Fs; unfold st0; simpl; by rewrite Hsu|].
  split; [rewrite Cq, Fq; reflexivity|].
  split; [rewrite Cl, Fl; exact Hl|].
  split; [exact Htx|]. split; [exact Hmo|].
  split; [rewrite Hsa, Fsa; reflexivity|].
  split; [rewrite Cp, Fp; reflexivity|].
  split; [rewrite Cn, Fn; reflexivity|].
  split; [rewrite Cg, Fg; reflexivity|].
  split; [rewrite Cd, Fd; reflexivity|].
  destruct (flush_edits_errors env lpc es st0 m Hm0) as [He Hlg].
  split; [rewrite Ce, He; reflexivity|].
  split; [rewrite Clg, Hlg; reflexivity|].
  split.
  - intros j Hj. by rewrite Co, (flush_edits_outcomes_other env lpc es st0 m j Hm0 Hj).
  - intros Hnd Hp i e a Hi Ha. rewrite Co.
    eapply flush_edits_outcomes; eauto.
Qed.

End Results.

(** ** Writes behind the dirty-editor prompt *)

Section Blocked.
Context (env : Env).

Lemma blocked_init st m : idle st -> model st = Some m -> blocked st m st.
Proof.
  intros [Hq Hm Hs Hl Hg Hf] Hmod. split; auto.
  - rewrite Hm. constructor.
  - rewrite Hq. constructor.
Qed.

Lemma blocked_step st0 m st e :
  dirty m = true -> is_call_or_tick e ->
  blocked st0 m st -> blocked st0 m (step env st e).
Proof.
  intros Hd He [Hmod Hl Hj Hen Hn Hf Ho Hph].
  destruct st as [sn mo eq g lk ga tx ou nx mt su sa pr er lo op].
  fields. subst. destruct e as [k v uri| | | |]; try done.
  - (* a call *)
    machine. split; fields; auto.
    + apply Forall_app. split.
      * eapply Forall_impl; [exact Hj|]. intros j (id & ? & ?). exists id. split; [done|lia].
      * constructor; [|constructor]. exists nx. split; [done|lia].
    + eapply Forall_impl; [exact Hen|]. intros e ?. simpl in *. lia.
    + intros i Hi. apply Hf. lia.
    + destruct Hph as [?|(? & ? & ? & lpc & ? & ?)]; [by left|right].
      repeat split; auto. exists lpc. split; [lia|done].
  - (* a microtask *)
    destruct mt as [|j mt]; [machine; by split|].
    apply Forall_cons in Hj as [(id & Hid & Hlt) Hj].
    destruct j as [id' k v uri|id' k v| | | | | | | |]; try done.
    + (* after [await this.loading.promise] *)
      simpl in Hid. inversion Hid; subst id'. machine.
      destruct (contains env uri); machine.
      * split; fields; auto.
        apply Forall_app. split; [done|].
        constructor; [|constructor]. by exists id.
      * unfold settle. machine. destruct (ou !! id) eqn:E; machine; [by split|].
        split; fields; auto.
        -- intros i Hi. rewrite lookup_insert_ne by lia. by apply Hf.
        -- intros i o. rewrite lookup_insert. case_decide; [|by apply Ho].
           intros [= <-]. by right.
    + (* after [await this.fileEditLock.waitUntilFree()] *)
      simpl in Hid. inversion Hid; subst id'.
      destruct eq as [|e0 eq].
      * destruct Hph as [(_ & -> & -> & Hg)|(? & _)]; [|done].
        machine. rewrite Hd. machine. rewrite lookup_insert_eq. machine.
        split; fields; auto.
        -- eapply Forall_impl; [exact Hj|]. intros j (i & ? & ?). exists i. split; [done|lia].
        -- constructor; [|constructor]. simpl. lia.
        -- intros i Hi. apply Hf. lia.
        -- right. repeat split; auto. exists (S nx). split; [lia|].
           by rewrite lookup_insert_eq.
      * machine. split; fields; auto.
        -- apply (Forall_app _ (e0 :: eq) [_]). split; [done|].
           constructor; [|constructor]. simpl. lia.
        -- destruct Hph as [(? & _)|(_ & ? & ? & ?)]; [done|right]. repeat split; auto.
Qed.

Lemma blocked_run st0 m trace :
  forall st, dirty m = true -> Forall is_call_or_tick trace ->
    blocked st0 m st -> blocked st0 m (run env st trace).
Proof.
  induction trace as [|e trace IH]; intros st Hd Ht Hb; [done|].
  apply Forall_cons in Ht as [He Ht]. unfold run in *. cbn [foldl].
  apply IH; auto. by apply blocked_step.
Qed.
End Blocked.

Section Dismissal.
Context (env : Env) (w : World).

Lemma settle_all es :
  forall st,
    foldl (fun st e => settle (editResolver e) (Settled false) st) st es =
    set_outcomes (refused es (outcomes st)) st.
Proof.
  induction es as [|e es IH]; intros st; [by destruct st|].
  cbn [foldl]. rewrite IH. unfold refused. cbn [foldl]. unfold settle.
  destruct st. machine. by destruct (_ !! _).
Qed.

Lemma handleDirtyEditor_end_retry st :
  handleDirtyEditor_end SaveAndRetry st = resolve_gate st.
Proof. reflexivity. Qed.

Lemma handleDirtyEditor_end_refuse msg st :
  msg <> SaveAndRetry ->
  handleDirtyEditor_end msg st =
  resolve_gate (set_editQueue [] (set_outcomes (refused (editQueue st) (outcomes st)) st)).
Proof.
  intros Hm. unfold handleDirtyEditor_end.
  destruct msg; [done| |]; by rewrite settle_all.
Qed.

Lemma refused_keeps es :
  forall (ou : gmap nat Outcome) i o, ou !! i = Some o -> refused es ou !! i = Some o.
Proof.
  induction es as [|e es IH]; intros ou i o H; [done|].
  unfold refused in *. cbn [foldl]. apply IH.
  destruct (ou !! editResolver e) eqn:E; [done|].
  rewrite lookup_insert_ne; [done|]. congruence.
Qed.


Lemma refused_false es :
  forall (ou : gmap nat Outcome) e,
    e ∈ es ->
    (forall o, ou !! editResolver e = Some o -> o = Settled false) ->
    refused es ou !! editResolver e = Some (Settled false).
Proof.
  induction es as [|e0 es IH]; intros ou e He H; [by apply elem_of_nil in He|].
  unfold refused in *. cbn [foldl].
  destruct (decide (editResolver e = editResolver e0)) as [Heq|Hne].
  - fold (refused es (match ou !! editResolver e0 with
                      | Some _ => ou
                      | None => <[editResolver e0:=Settled false]> ou
                      end)).
    apply refused_keeps. rewrite <- Heq.
    destruct (ou !! editResolver e) as [o|] eqn:E.
    + by rewrite E, (H o).
    + by rewrite lookup_insert_eq.
  - apply elem_of_cons in He as [->|He]; [done|].
    apply IH; [done|]. intros o.
    destruct (ou !! editResolver e0); [apply H|].
    rewrite lookup_insert_ne by done. apply H.
Qed.

Lemma next_event_None st :
  next_event w st = None -> microtasks st = [] /\ suspended st = [].
Proof.
  unfold next_event. destruct (microtasks st); [|done]. by destruct (suspended st).
Qed.




End Dismissal.

(** ** The lock queue *)

Section LockQueueFacts.
Context {W L : Type}.
Implicit Types (q : LockQueue.t W L) (ops : list (LockQueue.op W L)).

Lemma exec_wf q o : lock_wf q -> lock_wf (LockQueue.exec q o).
Proof.
  unfold lock_wf. destruct q as [qu b l], o as [d| |l']; simpl.
  - destruct b; simpl; congruence.
  - destruct qu as [|d' r]; simpl; [done|]. intros H Hb. specialize (H Hb). done.
  - destruct b; simpl; auto.
Qed.

Lemma run_wf ops : lock_wf (LockQueue.run ops).
Proof.
  unfold LockQueue.run. induction ops as [|o ops IH] using rev_ind.
  - done.
  - rewrite foldl_app. simpl. by apply exec_wf.
Qed.
End LockQueueFacts.

(** ** The snapshot *)

Section SnapshotFacts.
Context (env : Env).

Lemma handlePreferenceChanges_preferences newPrefs s :
  preferences (handlePreferenceChanges env newPrefs s) = newPrefs.
Proof. unfold handlePreferenceChanges. by destruct (foldl _ _ _). Qed.

Lemma onModelEvent_preferences st m :
  is_Some (model st) ->
  preferences (snapshot (onModelEvent env m st)) =
  if dirty m then preferences (snapshot st)
  else if valid m then getParsedContent env (text m) else ∅.
Proof.
  intros [m0 Hm]. unfold onModelEvent, read, readPreferences. rewrite Hm.
  destruct st. simpl. destruct (dirty m); [done|].
  by rewrite handlePreferenceChanges_preferences.
Qed.

Lemma onModelEvent_model st m :
  is_Some (model st) -> is_Some (model (onModelEvent env m st)).
Proof.
  intros [m0 Hm]. unfold onModelEvent. rewrite Hm. destruct st. simpl. by eexists.
Qed.

Lemma model_events_preferences ms :
  forall st, is_Some (model st) ->
    preferences (snapshot (run env st (ModelEvent <$> ms))) =
    match last_clean ms with
    | Some c => if valid c then getParsedContent env (text c) else ∅
    | None => preferences (snapshot st)
    end.
Proof.
  induction ms as [|m ms IH]; intros st Hm; [done|].
  unfold run in *. rewrite fmap_cons. cbn [foldl step].
  rewrite IH by (by apply onModelEvent_model).
  unfold last_clean. rewrite filter_cons. case_decide as Hd.
  - rewrite last_cons. destruct (last _); [done|].
    rewrite onModelEvent_preferences by done. by rewrite Hd.
  - destruct (last _); [done|].
    rewrite onModelEvent_preferences by done. by destruct (dirty m).
Qed.

Lemma reset_changes (prefs : gmap string JSON) (l : list (string * JSON)) :
  (forall x, x ∈ l -> prefs !! x.1 = Some x.2) ->
  omap
    (fun prefName =>
       match prefs !! prefName with
       | Some value =>
           Some {| preferenceName := prefName; newValue := None;
                   oldValue := Some value; scope := getScope env;
                   domain := getDomain env |}
       | None => None
       end) l.*1 =
  (fun x => {| preferenceName := x.1; newValue := None; oldValue := Some x.2;
               scope := getScope env; domain := getDomain env |}) <$> l.
Proof.
  induction l as [|x l IH]; intros H; [done|].
  rewrite fmap_cons. cbn [omap list_omap]. simpl.
  rewrite (H x) by left. simpl. f_equal. apply IH. intros y Hy. apply H. by right.
Qed.

End SnapshotFacts.

(** ** Bursts of calls *)

Section Batches.
Context (env : Env) (w : World).

Lemma entries_ids ws : forall id, editResolver <$> entries id ws = seq id (length ws).
Proof. induction ws as [|x ws IH]; intros id; [done|]. simpl. by rewrite IH. Qed.

Lemma statuses_length es : forall m, length (statuses env m es) = length es.
Proof. induction es as [|e es IH]; intros m; [done|]. simpl. by rewrite IH. Qed.

Lemma thrown_count es :
  forall m, length (thrown env m es) =
            length (filter (fun a => a = Thrown) (statuses env m es)).
Proof.
  induction es as [|e es IH]; intros m; [done|].
  cbn [thrown statuses]. rewrite length_app, IH, filter_cons. unfold thrown1.
  destruct (edit_model env m e).2; by case_decide.
Qed.

Lemma thrown_elem es :
  forall m i e, es !! i = Some e -> statuses env m es !! i = Some Thrown ->
    key e ∈ thrown env m es.
Proof.
  induction es as [|e0 es IH]; intros m i e Hi Hs; [done|].
  cbn [thrown]. apply elem_of_app. destruct i as [|i]; simpl in Hi, Hs.
  - left. inversion Hi; inversion Hs as [Hs']; subst. unfold thrown1. rewrite Hs'. by left.
  - right. eauto.
Qed.

Lemma drain_outcomes lpc st : outcomes (drain env lpc st) = outcomes st.
Proof.
  destruct st as [sn mo eq g [lq lb lf] ga tx ou nx mt su sa pr er lo op].
  destruct eq as [|e eq]; machine.
  - by destruct lb.
  - destruct (doSetPreference_start _ _ _ _); machine; try done.
    by destruct (applyBackgroundEdit _ _ _).
Qed.

(** A burst of calls on a clean document at rest, run to quiescence. *)
Lemma burst_results st m ws fuel :
  idle st -> model st = Some m -> dirty m = false -> ws <> [] ->
  Forall (in_domain env) ws -> 5 * length ws + 8 <= fuel ->
  let lpc := next_id st + length ws in
  let es := entries (next_id st) ws in
  let m' := edited env m es in
  let final := drive env w fuel (run env st (call <$> ws)) in
  idle final /\
  transactions final !! lpc = Some (success w m') /\
  model final = Some (if dirty m' && save_succeeds w then saved m' else m') /\
  saves final = saves st + (if dirty m' then 1 else 0) /\
  prompts final = prompts st /\
  errors final = errors st ++ thrown env m es /\
  (forall i e a, es !! i = Some e -> statuses env m es !! i = Some a ->
     outcomes final !! editResolver e = Some (verdict lpc a)).
Proof.
  intros I Hm Hd Hne Hdom Hf lpc es m' final.
  pose proof (burst_clean env w ws st m I Hm Hd Hne Hdom) as R.
  fold lpc es in R. destruct I as [Iq Im Is Il Ig If].
  set (st0 := set_next_id (S lpc) st) in *.
  assert (Hm0 : model st0 = Some m) by exact Hm.
  pose proof (flush_edits_frame env lpc es st0)
    as (Fq & Fm & Fs & Fl & Fsa & Fp & Fn & _ & Fg & Fd & _).
  pose proof (commit_frame env w lpc (flush_edits env lpc es st0))
    as (Cq & Cm & Cs & Cl & Co & Cp & Cn & Ce & _ & Cg & Cd & _).
  pose proof (flush_edits_model env lpc es st0 m Hm0) as Hmod.
  pose proof (commit_spec env w lpc _ _ Hmod) as (Htx & Hsa & Hmo).
  assert (Hq : next_event w (commit env w lpc (flush_edits env lpc es st0)) = None).
  { unfold next_event. rewrite Cm, Cs, Fm, Fs. unfold st0. simpl. by rewrite Im, Is. }
  assert (final = commit env w lpc (flush_edits env lpc es st0)) as ->.
  { unfold final. eapply reach_drive; [exact R|exact Hq|exact Hf]. }
  clear R.
  assert (Hids : forall e, e ∈ es -> next_id st <= editResolver e < lpc).
  { intros e He. apply (list_elem_of_fmap_2 editResolver) in He.
    unfold es in He. rewrite entries_ids in He. apply elem_of_seq in He.
    unfold lpc. lia. }
  split; [|split; [exact Htx|split; [exact Hmo|split; [|split; [|split]]]]].
  - split.
    + rewrite Cq, Fq. exact Iq.
    + rewrite Cm, Fm. exact Im.
    + rewrite Cs, Fs. exact Is.
    + rewrite Cl, Fl. exact Il.
    + rewrite Cg, Cd, Fg, Fd. exact Ig.
    + intros i Hi. rewrite Cn, Fn in Hi. change (next_id st0) with (S lpc) in Hi.
      rewrite Co, (flush_edits_outcomes_other env lpc es st0 m i Hm0).
      * apply If. unfold lpc in Hi. lia.
      * intros (e & -> & He)%list_elem_of_fmap. specialize (Hids e He). lia.
  - rewrite Hsa, Fsa. reflexivity.
  - rewrite Cp, Fp. reflexivity.
  - rewrite Ce. by destruct (flush_edits_errors env lpc es st0 m Hm0) as [-> _].
  - intros i e a Hi Ha. rewrite Co.
    eapply flush_edits_outcomes; eauto.
    + unfold es. rewrite entries_ids. apply NoDup_seq.
    + intros e' He'. apply If. specialize (Hids e' He'). lia.
Qed.

End Batches.

(** * The claims *)

(** C1, as stated, fails: a single call that unsets a key of an empty, clean
    document is a batch of one, it resolves to [true], and no save is
    triggered for it. *)
Lemma one_save_per_batch_fails :
  let st := initial (Demo.document EmptyString false) ∅ in
  let final :=
    drive Demo.env (Demo.world Dismissed) 13 (run Demo.env st [Call "a" None None]) in
  next_event (Demo.world Dismissed) final = None /\
  result final 1 = Some true /\
  saves final = 0 /\
  saves final <> S (saves st).
Proof. vm_compute. repeat split; discriminate. Qed.

(** C1, amended: a burst of [N >= 1] calls on a clean document at rest is
    drained by one flush transaction, which calls [save()] at most once:
    once when the edits left the model dirty, not at all otherwise; no
    prompt is shown.  The text of the model is then the result of the [N]
    edits in call order and, after a successful save, so is the stored
    text; whenever every edit applies cleanly and realises its assignment
    on the parsed content, the value of a key is the one of the last call
    that wrote it. *)
Theorem batch_saves_at_most_once (env : Env) (w : World) (st : State)
    (m : MonacoEditorModel) (ws : list Write) (fuel : nat) :
  idle st -> model st = Some m -> dirty m = false -> ws <> [] ->
  Forall (in_domain env) ws -> 5 * length ws + 8 <= fuel ->
  let es := entries (next_id st) ws in
  let m' := edited env m es in
  let final := drive env w fuel (run env st (call <$> ws)) in
  idle final /\
  length es = length ws /\
  saves final = saves st + (if dirty m' then 1 else 0) /\
  prompts final = prompts st /\
  text <$> model final = Some (text m') /\
  (dirty m' = true -> save_succeeds w = true ->
     stored <$> model final = Some (text m') /\ dirty <$> model final = Some false) /\
  (tracks env m es ->
     forall k v, last_value k es = Some v -> getParsedContent env (text m') !! k = v).
Proof.
  intros I Hm Hd Hne Hdom Hf es m' final.
  destruct (burst_results env w st m ws fuel I Hm Hd Hne Hdom Hf)
    as (If & _ & Hmo & Hsa & Hpr & _).
  fold es m' final in Hmo, Hsa, Hpr, If.
  split; [exact If|]. split; [apply entries_length|]. split; [exact Hsa|].
  split; [exact Hpr|]. split; [|split].
  - rewrite Hmo. by destruct (dirty m' && save_succeeds w).
  - intros Hd' Hs. rewrite Hmo, Hd', Hs. by split.
  - intros Ht k v Hk. unfold m'. rewrite (tracks_parsed env es m Ht), assign_last.
    by rewrite Hk.
Qed.

Lemma batch_saves_at_most_once_witness :
  let st := initial (Demo.document Demo.empty_object false) ∅ in
  let ws : list Write := [("a", Some (JNum 1), None); ("b", Some (JNum 2), None)] in
  let final := drive Demo.env (Demo.world Dismissed) 18 (run Demo.env st (call <$> ws)) in
  idle st /\
  tracks Demo.env (Demo.document Demo.empty_object false) (entries 1 ws) /\
  saves final = 1 /\
  stored <$> model final = Some Demo.doc_ab /\
  getParsedContent Demo.env Demo.doc_ab !! "b" = Some (JNum 2).
Proof.
  intros st ws final.
  assert (I : idle st) by (split; try reflexivity; intros; apply lookup_empty).
  assert (T : tracks Demo.env (Demo.document Demo.empty_object false) (entries 1 ws)).
  { vm_compute. repeat split; reflexivity. }
  assert (D : Forall (in_domain Demo.env) ws) by (repeat constructor).
  destruct (batch_saves_at_most_once Demo.env (Demo.world Dismissed) st
              (Demo.document Demo.empty_object false) ws 18 I eq_refl eq_refl
              ltac:(discriminate) D ltac:(simpl; lia))
    as (_ & _ & Hsaves & _ & _ & Hstored & Hlast).
  split; [exact I|]. split; [exact T|]. split; [exact Hsaves|].
  split; [exact (proj1 (Hstored eq_refl eq_refl))|].
  exact (Hlast T "b" (Some (JNum 2)) eq_refl).
Defined.

(** A write that arrives while the flush transaction awaits its last edit
    is outside the bursts of C1: it finds the queue empty and the model
    dirty from the transaction's own edit, so the prompt is shown and a
    second transaction is started. *)
Example late_write_meets_running_flush :
  let st :=
    run Demo.env (initial (Demo.document Demo.empty_object false) ∅)
      [Call "a" (Some (JNum 1)) None; Tick; Tick; Tick;
       Call "b" (Some (JNum 2)) None; Tick; Tick] in
  suspended st = [AwaitApply 2 1 "a" true; AwaitAnswer] /\
  prompts st = 1 /\
  gates st !! dirtyEditorHandled st = Some [DSP_gate 5].
Proof. vm_compute. repeat split. Qed.

(** C2: when the continuation of a flush transaction is scheduled with the
    writes [es] in the queue, the transaction drains them all, and every
    write whose edit applied cleanly is resolved with the promise of that
    transaction: all their results are the one boolean the transaction
    resolves to, the save outcome. *)
Theorem batch_shares_outcome (env : Env) (w : World) (st : State) (lpc : nat)
    (m : MonacoEditorModel) (fuel : nat) :
  microtasks st = [DSP_gate lpc] -> suspended st = [] ->
  fileEditLock st = LockQueue.init -> model st = Some m ->
  NoDup (editResolver <$> editQueue st) ->
  (forall e, e ∈ editQueue st -> outcomes st !! editResolver e = None) ->
  3 * length (editQueue st) + 7 <= fuel ->
  let es := editQueue st in
  let final := drive env w fuel st in
  let shared := success w (edited env m es) in
  next_event w final = None /\
  editQueue final = [] /\
  transactions final !! lpc = Some shared /\
  (forall i e, es !! i = Some e -> statuses env m es !! i = Some Clean ->
     outcomes final !! editResolver e = Some (Follows lpc) /\
     result final (editResolver e) = Some shared).
Proof.
  intros Hmt Hsu Hl Hm Hnd Hp Hf es final shared.
  destruct (flush_results env w st lpc m fuel Hmt Hsu Hl Hm Hf)
    as (Hq & He & _ & Htx & _ & _ & _ & _ & _ & _ & _ & _ & _ & Ho).
  fold es final in Hq, He, Htx, Ho.
  split; [exact Hq|]. split; [exact He|]. split; [exact Htx|].
  intros i e Hi Hc. specialize (Ho Hnd Hp i e Clean Hi Hc). simpl in Ho.
  split; [exact Ho|]. unfold result. by rewrite Ho.
Qed.

Lemma batch_shares_outcome_witness :
  let st := run Demo.env (initial (Demo.document Demo.empty_object false) ∅)
              [Call "a" (Some (JNum 1)) None; Call "b" (Some (JNum 2)) None;
               Tick; Tick; Tick; Tick] in
  let final := drive Demo.env (Demo.world Dismissed) 13 st in
  microtasks st = [DSP_gate 3] /\
  result final 1 = Some true /\ result final 2 = Some true /\
  saves final = 1 /\ text <$> model final = Some Demo.doc_ab.
Proof.
  intros st final.
  assert (Hp : forall e, e ∈ editQueue st -> outcomes st !! editResolver e = None).
  { intros e He. vm_compute in He.
    repeat (apply elem_of_cons in He as [->|He]; [reflexivity|]).
    by apply elem_of_nil in He. }
  destruct (batch_shares_outcome Demo.env (Demo.world Dismissed) st 3
              (Demo.document Demo.empty_object false) 13 eq_refl eq_refl eq_refl eq_refl
              ltac:(refine (bool_decide_unpack _ _); vm_compute; exact I) Hp ltac:(vm_compute; lia))
    as (_ & _ & _ & Hr).
  split; [reflexivity|].
  split; [exact (proj2 (Hr 0 _ eq_refl eq_refl))|].
  split; [exact (proj2 (Hr 1 _ eq_refl eq_refl))|].
  split; reflexivity.
Defined.









(** C6: in a flush transaction every queued write gets its edit attempted,
    whatever happened to the writes before it.  An edit that throws is
    caught: it costs one error notification and one console entry naming
    its key, and its write is resolved with [false] in the very microtask
    that resumes the loop, before the next entry is taken; the writes after
    it are applied to the model and resolved on their own merits. *)
Theorem thrown_edit_fails_alone (env : Env) (w : World) (st : State) (lpc : nat)
    (m : MonacoEditorModel) (fuel : nat) :
  microtasks st = [DSP_gate lpc] -> suspended st = [] ->
  fileEditLock st = LockQueue.init -> model st = Some m ->
  NoDup (editResolver <$> editQueue st) ->
  (forall e, e ∈ editQueue st -> outcomes st !! editResolver e = None) ->
  3 * length (editQueue st) + 7 <= fuel ->
  let es := editQueue st in
  let final := drive env w fuel st in
  length (statuses env m es) = length es /\
  text <$> model final = Some (text (edited env m es)) /\
  errors final = errors st ++ thrown env m es /\
  logged final = logged st ++ thrown env m es /\
  length (thrown env m es) = length (filter (fun a => a = Thrown) (statuses env m es)) /\
  (forall i e a, es !! i = Some e -> statuses env m es !! i = Some a ->
     outcomes final !! editResolver e = Some (verdict lpc a)) /\
  (forall i e, es !! i = Some e -> statuses env m es !! i = Some Thrown ->
     key e ∈ thrown env m es /\ result final (editResolver e) = Some false) /\
  (forall st' r k,
     errors (run_job env (DSet_applied lpc r k false) st') = errors st' ++ [k] /\
     logged (run_job env (DSet_applied lpc r k false) st') = logged st' ++ [k] /\
     microtasks (run_job env (DSet_applied lpc r k false) st') =
       microtasks st' ++ [DSP_edited lpc r false]) /\
  (forall st' r, outcomes st' !! r = None ->
     outcomes (run_job env (DSP_edited lpc r false) st') !! r = Some (Settled false)).
Proof.
  intros Hmt Hsu Hl Hm Hnd Hp Hf es final.
  destruct (flush_results env w st lpc m fuel Hmt Hsu Hl Hm Hf)
    as (_ & _ & _ & _ & Hmo & _ & _ & _ & _ & _ & Her & Hlg & _ & Ho).
  fold es final in Hmo, Her, Hlg, Ho. specialize (Ho Hnd Hp).
  split; [apply statuses_length|]. split.
  { rewrite Hmo. by destruct (dirty _ && save_succeeds w). }
  split; [exact Her|]. split; [exact Hlg|]. split; [apply thrown_count|].
  split; [exact Ho|]. split; [|split].
  - intros i e Hi Ht. split; [by eapply thrown_elem|].
    unfold result. by rewrite (Ho i e Thrown Hi Ht).
  - intros st' r k. by destruct st'.
  - intros st' r Hr. cbn [run_job]. rewrite drain_outcomes.
    unfold settle. rewrite Hr. destruct st'. simpl. apply lookup_insert_eq.
Qed.

Lemma thrown_edit_fails_alone_witness :
  let st := run Demo.env (initial (Demo.document Demo.empty_object false) ∅)
              [Call "x" (Some (JBool true)) None; Call "a" (Some (JNum 1)) None;
               Tick; Tick; Tick; Tick] in
  let final := drive Demo.env (Demo.world Dismissed) 13 st in
  microtasks st = [DSP_gate 3] /\
  statuses Demo.env (Demo.document Demo.empty_object false) (editQueue st) = [Thrown; Clean] /\
  errors final = ["x"] /\
  result final 1 = Some false /\ result final 2 = Some true /\
  text <$> model final = Some Demo.doc_a.
Proof.
  intros st final.
  assert (Hp : forall e, e ∈ editQueue st -> outcomes st !! editResolver e = None).
  { intros e He. vm_compute in He.
    repeat (apply elem_of_cons in He as [->|He]; [reflexivity|]).
    by apply elem_of_nil in He. }
  destruct (thrown_edit_fails_alone Demo.env (Demo.world Dismissed) st 3
              (Demo.document Demo.empty_object false) 13 eq_refl eq_refl eq_refl eq_refl
              ltac:(refine (bool_decide_unpack _ _); vm_compute; exact I) Hp ltac:(vm_compute; lia))
    as (_ & Htext & Herr & _ & _ & _ & Hthrown & _).
  split; [reflexivity|]. split; [reflexivity|]. split; [exact Herr|].
  split; [exact (proj2 (Hthrown 0 _ eq_refl eq_refl))|].
  split; [reflexivity|]. exact Htext.
Defined.

(** C7: a content, dirty-state or validity event of a dirty model leaves the
    snapshot as it is (preferences, emitted events and warnings alike); an
    event of a clean model replaces the preferences by the parse of its text
    (by the empty map when the model is invalid).  Hence after any sequence
    of model events the preferences are those of the last clean model
    seen, or the initial ones when there was none. *)
Theorem dirty_reparse_keeps_snapshot (env : Env) (st : State) :
  is_Some (model st) ->
  (forall m, dirty m = true ->
     snapshot (step env st (ModelEvent m)) = snapshot st /\
     readPreferences env (Some m) (snapshot st) = snapshot st) /\
  (forall m, dirty m = false ->
     preferences (snapshot (step env st (ModelEvent m))) =
     if valid m then getParsedContent env (text m) else ∅) /\
  (forall ms,
     preferences (snapshot (run env st (ModelEvent <$> ms))) =
     match last_clean ms with
     | Some c => if valid c then getParsedContent env (text c) else ∅
     | None => preferences (snapshot st)
     end).
Proof.
  intros Hm. split; [|split].
  - intros m Hd. destruct Hm as [m0 Hm]. cbn [step].
    unfold onModelEvent, read, readPreferences. rewrite Hm. destruct st. simpl.
    by rewrite Hd.
  - intros m Hd. cbn [step]. rewrite onModelEvent_preferences by done. by rewrite Hd.
  - intros ms. by apply model_events_preferences.
Qed.

Lemma dirty_reparse_keeps_snapshot_witness :
  let st := initial (Demo.document Demo.empty_object false) ∅ in
  is_Some (model st) /\
  preferences
    (snapshot
       (run Demo.env st
          (ModelEvent <$> [Demo.document Demo.doc_a false;
                           Demo.document Demo.doc_ab true]))) =
  {[ "a" := JNum 1 ]}.
Proof.
  intros st. split; [by eexists|].
  rewrite (proj2 (proj2 (dirty_reparse_keeps_snapshot Demo.env st
                           (ex_intro _ _ eq_refl)))).
  reflexivity.
Defined.

(** C8, as stated, fails: in a document whose only content is the key [a],
    unsetting [a] goes through the differ, whose edit leaves an empty object,
    not an empty text. *)
Lemma unset_only_key_not_cleared :
  let st := initial (Demo.document Demo.doc_a false) {[ "a" := JNum 1 ]} in
  let final :=
    drive Demo.env (Demo.world Dismissed) 13 (run Demo.env st [Call "a" None None]) in
  getPath Demo.env "a" = Some ["a"] /\
  result final 1 = Some true /\
  text <$> model final = Some Demo.empty_object /\
  text <$> model final <> Some EmptyString.
Proof. vm_compute. repeat split; discriminate. Qed.

(** C8, amended: with the [getPath] of this class the path of a key is the
    key itself, never empty, and unsetting it is left to the differ (unless
    the document is blank already).  Where an override of [getPath] yields
    the empty path, unsetting the key in a non-blank document issues one
    edit operation deleting the full range of the model; when the text
    model then holds the empty text, so does the document at the end, and
    the call resolves to the outcome of its transaction, [true] on a save
    that succeeds and reports the change. *)
Theorem unset_whole_document_clears :
  (forall env m k v,
     getPath env k = getPath_default k ->
     doSetPreference_start env (Some m) k v =
     if is_empty (trim (text m)) && is_undefined v then Returned true
     else match modify env (trim (text m)) [k] v (formattingOptions (options m)) with
          | Some edits => Applying m (toEditOperation m <$> edits)
          | None => Caught
          end) /\
  (forall env w st m m' k uri fuel,
     idle st -> model st = Some m -> dirty m = false -> contains env uri = true ->
     getPath env k = Some [] -> is_empty (trim (text m)) = false ->
     applyBackgroundEdit env m
       [{| range := getFullModelRange m; op_text := None; forceMoveMarkers := false |}] =
       Some m' ->
     text m' = EmptyString -> 13 <= fuel ->
     let final := drive env w fuel (run env st [Call k None uri]) in
     doSetPreference_start env (Some m) k None =
       Applying m [{| range := getFullModelRange m; op_text := None;
                      forceMoveMarkers := false |}] /\
     text <$> model final = Some EmptyString /\
     result final (next_id st) = Some (success w m') /\
     (save_succeeds w = true -> changes_reported w = true ->
        result final (next_id st) = Some true)).
Proof.
  split.
  - intros env m k v Hp. unfold doSetPreference_start. rewrite Hp. unfold getPath_default.
    destruct (is_empty _ && is_undefined v); [done|]. simpl. reflexivity.
  - intros env w st m m' k uri fuel I Hm Hd Hc Hp Hb Ha Ht Hf final.
    assert (Hs : doSetPreference_start env (Some m) k None =
                 Applying m [{| range := getFullModelRange m; op_text := None;
                                forceMoveMarkers := false |}]).
    { unfold doSetPreference_start. by rewrite Hp, Hb. }
    assert (He : edit_model env m {| key := k; value := None; editResolver := next_id st |}
                 = (m', Clean)).
    { unfold edit_model. cbn [key value]. by rewrite Hs, Ha. }
    destruct (burst_results env w st m [(k, None, uri)] fuel I Hm Hd ltac:(discriminate)
                ltac:(by repeat constructor) ltac:(simpl; lia))
      as (_ & Htx & Hmo & _ & _ & _ & Ho).
    change (call <$> [(k, None, uri)]) with [Call k None uri] in *.
    fold final in Htx, Hmo, Ho.
    unfold edited in Htx, Hmo. cbn [entries foldl] in Htx, Hmo, Ho.
    change (edit_model env m {| key := (k, @None JSON, uri).1.1; value := (k, @None JSON, uri).1.2;
                               editResolver := next_id st |})
      with (edit_model env m {| key := k; value := None; editResolver := next_id st |})
      in *.
    rewrite He in Htx, Hmo. cbn [fst] in Htx, Hmo.
    specialize (Ho 0 _ Clean eq_refl). cbn [statuses lookup list_lookup] in Ho.
    change (edit_model env m {| key := (k, @None JSON, uri).1.1; value := (k, @None JSON, uri).1.2;
                               editResolver := next_id st |})
      with (edit_model env m {| key := k; value := None; editResolver := next_id st |})
      in Ho.
    rewrite He in Ho. specialize (Ho eq_refl). cbn [editResolver verdict] in Ho.
    assert (Hr : result final (next_id st) = Some (success w m')).
    { unfold result. rewrite Ho. replace (next_id st + length [(k, @None JSON, uri)])
        with (next_id st + 1) in Htx by done. exact Htx. }
    split; [exact Hs|]. split.
    { rewrite Hmo. destruct (dirty m' && save_succeeds w); simpl; by rewrite Ht. }
    split; [exact Hr|].
    intros Hsv Hcr. rewrite Hr. unfold success. rewrite Hsv, Hcr. by destruct (dirty m').
Qed.

Lemma unset_whole_document_clears_witness :
  let st := initial (Demo.document Demo.doc_a false) {[ "a" := JNum 1 ]} in
  let final :=
    drive Demo.section_env (Demo.world Dismissed) 13
      (run Demo.section_env st [Call "a" None None]) in
  idle st /\ getPath Demo.section_env "a" = Some [] /\
  text <$> model final = Some EmptyString /\ result final 1 = Some true.
Proof.
  intros st final.
  assert (I : idle st) by (split; try reflexivity; intros; apply lookup_empty).
  destruct (proj2 unset_whole_document_clears Demo.section_env (Demo.world Dismissed) st
              (Demo.document Demo.doc_a false)
              {| text := EmptyString; dirty := true; valid := true;
                 options := {| insertSpaces := true; tabSize := 4; defaultEOL := LF |};
                 stored := Demo.doc_a |}
              "a" None 13 I eq_refl eq_refl eq_refl eq_refl eq_refl eq_refl eq_refl
              ltac:(lia))
    as (_ & Htext & _ & Hres).
  split; [exact I|]. split; [reflexivity|]. split; [exact Htext|].
  exact (Hres eq_refl eq_refl).
Defined.

(** C9: [reset] (run by disposal before the model is dropped) empties the
    snapshot and, when it held anything, emits one change event with a
    removal record, old value to [undefined], for every key it held. *)
Theorem reset_clears_and_reports (env : Env) (st : State) :
  let s := snapshot st in
  snapshot (dispose env st) = reset env s /\
  model (dispose env st) = None /\
  preferences (reset env s) = ∅ /\
  (preferences s = ∅ -> emitted (reset env s) = emitted s) /\
  (preferences s <> ∅ ->
   emitted (reset env s) =
   emitted s ++
     [(fun x => {| preferenceName := x.1; newValue := None; oldValue := Some x.2;
                   scope := getScope env; domain := getDomain env |})
        <$> map_to_list (preferences s)]) /\
  (forall k v, preferences s !! k = Some v ->
     exists changes,
       last (emitted (reset env s)) = Some changes /\
       {| preferenceName := k; newValue := None; oldValue := Some v;
          scope := getScope env; domain := getDomain env |} ∈ changes).
Proof.
  intros s.
  assert (E : forall x, x ∈ map_to_list (preferences s) ->
                preferences s !! x.1 = Some x.2).
  { intros [k v] H. by apply elem_of_map_to_list. }
  assert (Hne : preferences s <> ∅ ->
    emitted (reset env s) =
    emitted s ++
      [(fun x => {| preferenceName := x.1; newValue := None; oldValue := Some x.2;
                    scope := getScope env; domain := getDomain env |})
         <$> map_to_list (preferences s)]).
  { intros H. unfold reset. cbn [emitted]. rewrite (reset_changes env _ _ E).
    destruct (map_to_list (preferences s)) as [|x l] eqn:El; [|done].
    by apply map_to_list_empty_iff in El. }
  split; [by destruct st|]. split; [by destruct st|]. split; [done|].
  split; [|split; [exact Hne|]].
  - intros H. unfold reset. cbn [emitted]. rewrite H, map_to_list_empty. done.
  - intros k v Hk. eexists. split.
    + rewrite Hne; [apply last_snoc|]. intros H. by rewrite H in Hk.
    + apply list_elem_of_fmap. exists (k, v). split; [done|].
      by apply elem_of_map_to_list.
Qed.

Lemma reset_clears_and_reports_witness :
  let st := initial (Demo.document Demo.doc_a false) {[ "a" := JNum 1 ]} in
  preferences (snapshot st) !! "a" = Some (JNum 1) /\
  exists changes,
    last (emitted (reset Demo.env (snapshot st))) = Some changes /\
    {| preferenceName := "a"; newValue := None; oldValue := Some (JNum 1);
       scope := Folder; domain := None |} ∈ changes.
Proof.
  intros st. split; [reflexivity|].
  apply (proj2 (proj2 (proj2 (proj2 (proj2 (reset_clears_and_reports Demo.env st)))))
           "a" (JNum 1)).
  reflexivity.
Defined.

(** C10: whatever sequence of [acquire()], [release()] and
    [waitUntilFree()] calls the lock queue has served, it is free only when
    nobody waits; a [release()] that finds waiters resolves the handle of the
    first one, keeps the lock busy and fires no free notification; an
    [acquire()] on a busy lock joins the end of the wait list. *)
Theorem lock_never_free_with_waiters {W L : Type} (ops : list (LockQueue.op W L)) :
  let q := LockQueue.run ops in
  (LockQueue.busy q = false -> LockQueue.queue q = []) /\
  (forall d rest, LockQueue.queue q = d :: rest ->
     LockQueue.busy q = true /\
     LockQueue.release q =
       (LockQueue.mk rest true (LockQueue.onFree q), LockQueue.Transferred d)) /\
  (forall d, LockQueue.busy q = true ->
     LockQueue.acquire d q =
       (LockQueue.mk (LockQueue.queue q ++ [d]) true (LockQueue.onFree q), Some d)).
Proof.
  intros q. pose proof (run_wf ops) as Hwf. fold q in Hwf. unfold lock_wf in Hwf.
  split; [exact Hwf|]. split.
  - intros d rest Hq.
    assert (Hb : LockQueue.busy q = true).
    { destruct (LockQueue.busy q) eqn:E; [done|]. rewrite Hwf in Hq; done. }
    split; [done|]. unfold LockQueue.release. by rewrite Hq, Hb.
  - intros d Hb. unfold LockQueue.acquire. by rewrite Hb.
Qed.

Lemma lock_never_free_with_waiters_witness :
  let q := LockQueue.run
             [LockQueue.Acquire 1; LockQueue.Acquire 2; LockQueue.WaitUntilFree 7;
              LockQueue.Acquire 3] in
  LockQueue.queue q = [2; 3] /\
  LockQueue.release q = (LockQueue.mk [3] true [7], LockQueue.Transferred 2).
Proof.
  split; [reflexivity|].
  apply (proj1 (proj2 (lock_never_free_with_waiters
                         [LockQueue.Acquire 1; LockQueue.Acquire 2;
                          LockQueue.WaitUntilFree 7; LockQueue.Acquire 3])) 2 [3]).
  reflexivity.
Defined.

(** * Further properties of the code *)

(** ** Auxiliary facts *)

Section LockTraceFacts.
Context {W L : Type}.
Implicit Types (q : LockQueue.t W L) (ops : list (LockQueue.op W L)).

Lemma holders_inv ops :
  forall q h h',
    (LockQueue.busy q = true /\ h = 1 \/
     LockQueue.busy q = false /\ h = 0 /\ LockQueue.queue q = []) ->
    holders q h ops = Some h' ->
    let q' := foldl LockQueue.exec q ops in
    LockQueue.busy q' = true /\ h' = 1 \/
    LockQueue.busy q' = false /\ h' = 0 /\ LockQueue.queue q' = [].
Proof.
  induction ops as [|o ops IH]; intros q h h' I H; simpl in *.
  - by inversion H; subst.
  - destruct q as [qu b l]. destruct o as [d| |l'].
    + assert (H' : holders (LockQueue.exec (LockQueue.mk qu b l) (LockQueue.Acquire d))
                     (h + granted_by (LockQueue.mk qu b l) (LockQueue.Acquire d)) ops = Some h')
        by (by destruct h).
      eapply IH; [|exact H'].
      destruct I as [[Hb ->]|(Hb & -> & Hq)]; simpl in *; subst; simpl; by left.
    + destruct I as [[Hb ->]|(Hb & -> & Hq)]; [|done].
      eapply IH; [|exact H]. simpl in *. subst.
      destruct qu as [|d r]; simpl; [by right|by left].
    + assert (H' : holders (LockQueue.exec (LockQueue.mk qu b l) (LockQueue.WaitUntilFree l'))
                     (h + 0) ops = Some h') by (by destruct h).
      eapply IH; [|exact H'].
      destruct I as [[Hb ->]|(Hb & -> & Hq)]; simpl in *; subst; simpl; [by left|by right].
Qed.

Lemma holders_app ops1 :
  forall q h ops2 h',
    holders q h (ops1 ++ ops2) = Some h' ->
    exists h1, holders q h ops1 = Some h1 /\
               holders (foldl LockQueue.exec q ops1) h1 ops2 = Some h'.
Proof.
  induction ops1 as [|o ops1 IH]; intros q h ops2 h' H; simpl in *.
  - by exists h.
  - destruct o as [d| |l]; [|destruct h as [|h0]; [done|]|]; by apply IH.
Qed.

End LockTraceFacts.

Section ParseFacts.
Context (env : Env).

Lemma trimStart_white s :
  Forall (fun c => is_white c = true) (list_ascii_of_string s) -> trimStart s = EmptyString.
Proof.
  induction s as [|c s IH]; intros H; [done|].
  simpl in *. apply Forall_cons in H as [-> H]. auto.
Qed.

Lemma trim_white s :
  Forall (fun c => is_white c = true) (list_ascii_of_string s) -> trim s = EmptyString.
Proof. intros H. unfold trim. by rewrite trimStart_white. Qed.

(** The nested loops of [getParsedContent] as one loop over the bindings. *)
Lemma getParsedContent_fold (fields : list (string * JSON)) :
  forall acc : gmap string JSON,
    foldl
      (fun (preferences : gmap string JSON) '(preferenceName, preferenceValue) =>
         if testOverrideValue env preferenceName preferenceValue
         then
           foldl
             (fun (preferences : gmap string JSON) '(overriddenPreferenceName, overriddenValue) =>
                <[preferenceName +:+ "." +:+ overriddenPreferenceName := overriddenValue]>
                  preferences)
             preferences (for_in preferenceValue)
         else <[preferenceName := preferenceValue]> preferences)
      acc fields =
    foldl (fun (p : gmap string JSON) b => <[b.1 := b.2]> p) acc
      ('(preferenceName, preferenceValue) ← fields;
       if testOverrideValue env preferenceName preferenceValue
       then (fun '(overriddenPreferenceName, overriddenValue) =>
               (preferenceName +:+ "." +:+ overriddenPreferenceName, overriddenValue))
              <$> for_in preferenceValue
       else [(preferenceName, preferenceValue)]).
Proof.
  induction fields as [|[n v] fields IH]; intros acc; [done|].
  cbn [foldl]. rewrite IH. rewrite bind_cons, foldl_app. f_equal.
  destruct (testOverrideValue env n v); [|done].
  generalize (for_in v). intros l. revert acc.
  induction l as [|[n' v'] l IHl]; intros acc; [done|].
  rewrite fmap_cons. cbn [foldl]. by rewrite IHl.
Qed.

Lemma foldl_insert_lookup (l : list (string * JSON)) :
  forall (acc : gmap string JSON) k,
    foldl (fun (p : gmap string JSON) b => <[b.1 := b.2]> p) acc l !! k =
    match last (filter (fun b => b.1 = k) l) with
    | Some b => Some b.2
    | None => acc !! k
    end.
Proof.
  induction l as [|b l IH]; intros acc k; [done|].
  cbn [foldl]. rewrite IH. destruct (decide (b.1 = k)) as [Hk|Hk].
  - rewrite filter_cons_True by done. rewrite last_cons.
    destruct (last _); [done|]. subst. by rewrite lookup_insert_eq.
  - rewrite filter_cons_False by done. destruct (last _); [done|].
    by rewrite lookup_insert_ne.
Qed.

Lemma getParsedContent_bindings content d :
  parse env content = Some d -> typeof_object (Some d) = true ->
  getParsedContent env content =
  foldl (fun (p : gmap string JSON) b => <[b.1 := b.2]> p) ∅ (bindings env d).
Proof.
  intros Hp Ht. unfold getParsedContent. rewrite Hp, Ht. cbn [negb from_option].
  apply getParsedContent_fold.
Qed.

End ParseFacts.

Section ChangeFacts.
Context (env : Env).

Lemma handlePreferenceChanges_fold (oldPrefs newPrefs : gmap string JSON) (l : list string) :
  forall prefChanges warnings,
    foldl
      (fun '(prefChanges, warnings) prefName =>
         let oldValue := oldPrefs !! prefName in
         let newValue := newPrefs !! prefName in
         if hasSchema env prefName && negb (isValidInScope env prefName (getScope env))
         then (prefChanges, warnings ++ [prefName])
         else if differs env oldValue newValue
         then (prefChanges ++
                 [{| preferenceName := prefName; newValue := newValue;
                     oldValue := oldValue; scope := getScope env;
                     domain := getDomain env |}], warnings)
         else (prefChanges, warnings))
      (prefChanges, warnings) l =
    (prefChanges ++ (change_record env oldPrefs newPrefs <$> filter (reportable env oldPrefs newPrefs) l),
     warnings ++ filter (fun k => out_of_scope env k = true) l).
Proof.
  induction l as [|k l IH]; intros pc wn.
  - simpl. by rewrite !app_nil_r.
  - cbn [foldl]. 
    change (hasSchema env k && negb (isValidInScope env k (getScope env)))
      with (out_of_scope env k).
    destruct (out_of_scope env k) eqn:Eo.
    + rewrite IH. rewrite (filter_cons_True (fun k => out_of_scope env k = true)) by done.
      rewrite filter_cons_False; [by rewrite <- app_assoc|].
      unfold reportable. rewrite Eo. by intros [? _].
    + rewrite (filter_cons_False (fun k => out_of_scope env k = true)) by (by rewrite Eo).
      destruct (differs env (oldPrefs !! k) (newPrefs !! k)) eqn:Ed.
      * rewrite IH. rewrite filter_cons_True by (by unfold reportable; rewrite Eo, Ed).
        rewrite fmap_cons, <- app_assoc. reflexivity.
      * rewrite IH. rewrite filter_cons_False; [done|].
        unfold reportable. rewrite Ed. by intros [_ ?].
Qed.

Lemma handlePreferenceChanges_spec newPrefs s :
  handlePreferenceChanges env newPrefs s =
  let names := visited (preferences s) newPrefs in
  let changes := change_record env (preferences s) newPrefs <$>
                   filter (reportable env (preferences s) newPrefs) names in
  {| preferences := newPrefs;
     emitted := match changes with [] => emitted s | _ => emitted s ++ [changes] end;
     warned := warned s ++ filter (fun k => out_of_scope env k = true) names |}.
Proof.
  unfold handlePreferenceChanges. fold (visited (preferences s) newPrefs).
  rewrite handlePreferenceChanges_fold. reflexivity.
Qed.

Lemma visited_elem (oldPrefs newPrefs : gmap string JSON) k :
  k ∈ visited oldPrefs newPrefs <-> is_Some (oldPrefs !! k) \/ is_Some (newPrefs !! k).
Proof.
  unfold visited. rewrite elem_of_remove_dups, elem_of_app.
  assert (E : forall p : gmap string JSON, k ∈ (map_to_list p).*1 <-> is_Some (p !! k)).
  { intros p. rewrite list_elem_of_fmap. split.
    - intros ([k' v] & -> & H). apply elem_of_map_to_list in H. by eexists.
    - intros [v H]. exists (k, v). split; [done|]. by apply elem_of_map_to_list. }
  by rewrite !E.
Qed.

Lemma reportable_visited oldPrefs newPrefs k :
  reportable env oldPrefs newPrefs k -> k ∈ visited oldPrefs newPrefs.
Proof.
  intros [_ Hd]. apply visited_elem. unfold differs in Hd.
  destruct (oldPrefs !! k); [left; by eexists|].
  destruct (newPrefs !! k); [right; by eexists|done].
Qed.

End ChangeFacts.

Section DirtyBursts.
Context (env : Env) (w : World).

(** The end of a flush transaction as a state. *)
Lemma flush_drive lpc st fuel :
  microtasks st = [DSP_gate lpc] -> suspended st = [] ->
  fileEditLock st = LockQueue.init ->
  3 * length (editQueue st) + 7 <= fuel ->
  drive env w fuel st =
  commit env w lpc
    (flush_edits env lpc (editQueue st) (set_microtasks [] (set_editQueue [] st))).
Proof.
  intros Hmt Hsu Hl Hf.
  pose proof (flush_runs env w lpc st Hmt Hsu Hl) as R.
  pose proof (flush_edits_frame env lpc (editQueue st) (set_microtasks [] (set_editQueue [] st)))
    as (_ & Fm & Fs & _).
  pose proof (commit_frame env w lpc
                (flush_edits env lpc (editQueue st) (set_microtasks [] (set_editQueue [] st))))
    as (_ & Cm & Cs & _).
  eapply reach_drive; [exact R| |exact Hf].
  unfold next_event. rewrite Cm, Cs, Fm, Fs. destruct st. simpl in *. by subst.
Qed.

Lemma burst_dirty ws st m :
  idle st -> model st = Some m -> dirty m = true -> ws <> [] -> Forall (in_domain env) ws ->
  reach env w (2 * length ws) (run env st (call <$> ws)) (prompting st ws).
Proof.
  intros [Hq Hm Hs Hl Hg _] Hmod Hd Hne Hdom.
  rewrite run_calls. unfold prompting.
  destruct st as [sn mo eq g lk ga tx ou nx mt su sa pr er lo op].
  fields. subst. destruct ws as [|x ws]; [done|]. clear Hne.
  machine.
  eapply (reach_mono env w (length (x :: ws) + (1 + length ws))); [simpl; lia|].
  eapply reach_trans.
  { eapply (tick_loaded env w (x :: ws) _ nx []); fields;
      [by rewrite app_nil_r|by eexists|reflexivity|done]. }
  machine. cbn [free_jobs]. eapply reach_step; [reflexivity|]. machine. rewrite Hd. machine.
  rewrite lookup_insert_eq. machine.
  match goal with
  | |- reach env w _ ?s _ =>
      pose proof (tick_free env w ws s (S nx) [] ltac:(by rewrite app_nil_r) ltac:(done)) as F
  end.
  revert F. machine. cbn [length entries].
  replace (nx + S (length ws)) with (S (nx + length ws)) by lia.
  intros F. exact F.
Qed.

Lemma reach_then b st st' fuel :
  reach env w b st st' -> b <= fuel ->
  exists n, n <= b /\ drive env w fuel st = drive env w (fuel - n) st'.
Proof.
  intros (n & Hn & H) Hf. exists n. split; [done|].
  replace fuel with (n + (fuel - n)) at 1 by lia. apply H.
Qed.

(** The prompt is answered with 'Save and Retry' and the save succeeds. *)
Lemma prompt_retry_saved st m ws :
  model st = Some m -> answer w = SaveAndRetry -> save_succeeds w = true ->
  fileEditLock st = LockQueue.init -> microtasks st = [] ->
  let p := prompting st ws in
  reach env w 4 p
    (set_microtasks [DSP_gate (S (dirtyEditorHandled p))]
       (set_suspended []
          (set_saves (S (saves st))
             (set_gates (delete (dirtyEditorHandled p) (gates p))
                (set_snapshot (readPreferences env (Some (saved m)) (snapshot st))
                   (set_model (Some (saved m)) p)))))).
Proof.
  intros Hm Ha Hs Hl Hmt p. subst p. unfold prompting.
  destruct st as [sn mo eq g lk ga tx ou nx mt su sa pr er lo op].
  fields. subst. machine.
  eapply reach_step; [reflexivity|]. machine. rewrite Ha.
  eapply reach_step; [reflexivity|]. machine.
  eapply reach_step; [reflexivity|]. machine. rewrite Hs. machine.
  eapply reach_step; [reflexivity|]. machine.
  rewrite handleDirtyEditor_end_retry. machine. rewrite lookup_insert_eq. machine.
  apply reach_refl.
Qed.

(** The prompt is answered with 'Save and Retry' and the save throws. *)
Lemma prompt_retry_failed st m ws :
  model st = Some m -> answer w = SaveAndRetry -> save_succeeds w = false ->
  microtasks st = [] ->
  let p := prompting st ws in
  reach env w 4 p (set_suspended [] (set_saves (S (saves st)) p)).
Proof.
  intros Hm Ha Hs Hmt p. subst p. unfold prompting.
  destruct st as [sn mo eq g lk ga tx ou nx mt su sa pr er lo op].
  fields. subst. machine.
  eapply reach_step; [reflexivity|]. machine. rewrite Ha.
  eapply reach_step; [reflexivity|]. machine.
  eapply reach_step; [reflexivity|]. machine. rewrite Hs. machine.
  eapply reach_step; [reflexivity|]. machine.
  apply reach_refl.
Qed.

(** The prompt is answered otherwise. *)
Lemma prompt_refused st m ws :
  model st = Some m -> answer w <> SaveAndRetry -> microtasks st = [] ->
  let p := prompting st ws in
  reach env w 2 p
    (set_microtasks [DSP_gate (S (dirtyEditorHandled p))]
       (set_suspended []
          (set_opened (match answer w with OpenFile => S (opened st) | _ => opened st end)
             (set_gates (delete (dirtyEditorHandled p) (gates p))
                (set_outcomes (refused (editQueue p) (outcomes st))
                   (set_editQueue [] p)))))).
Proof.
  intros Hm Ha Hmt p. subst p. unfold prompting.
  destruct st as [sn mo eq g lk ga tx ou nx mt su sa pr er lo op].
  fields. subst. machine.
  eapply reach_step; [reflexivity|]. machine.
  eapply reach_step; [reflexivity|]. machine.
  destruct (answer w) eqn:E; [done| |];
    rewrite handleDirtyEditor_end_refuse by done; machine; rewrite lookup_insert_eq; machine;
    apply reach_refl.
Qed.

End DirtyBursts.

Section Stranded.
Context (env : Env).

Lemma perm_mid {A} (a b : list A) x : (a ++ [x]) ++ b ≡ₚ x :: a ++ b.
Proof. rewrite <- app_assoc. simpl. symmetry. apply Permutation_middle. Qed.

Lemma perm_end {A} (a b : list A) x : a ++ (b ++ [x]) ≡ₚ x :: a ++ b.
Proof. rewrite app_assoc, <- Permutation_cons_append. reflexivity. Qed.

Lemma stranded_step st e :
  stranded st ->
  stranded (step env st e) /\
  editQueue st `prefix_of` editQueue (step env st e) /\
  prompts (step env st e) = prompts st /\
  saves (step env st e) = saves st /\
  opened (step env st e) = opened st /\
  errors (step env st e) = errors st /\
  transactions (step env st e) = transactions st.
Proof.
  intros [Hq Hsu Hj Hnd Hp Hf]. unfold in_flight in *.
  destruct st as [sn mo eq g [lq lb lf] ga tx ou nx mt su sa pr er lo op].
  fields. subst. destruct e as [k v uri| |i sig|m|].
  - (* a call *)
    machine. split; [|by repeat split].
    split; unfold in_flight; fields; auto.
    + apply Forall_app. split; [done|]. constructor; [by eexists|constructor].
    + rewrite omap_app. simpl. rewrite perm_mid.
      apply NoDup_cons. split; [|exact Hnd].
      intros Hin. apply Hp in Hin. lia.
    + intros i. rewrite omap_app. simpl. rewrite perm_mid.
      intros [->|Hin]%elem_of_cons.
      * split; [lia|]. apply Hf. lia.
      * destruct (Hp i Hin). split; [lia|done].
    + intros i Hi. apply Hf. lia.
  - (* a microtask *)
    destruct mt as [|j mt];
      [machine; split; [|by repeat split]; split; unfold in_flight; fields; auto|].
    apply Forall_cons in Hj as [[id Hid] Hj].
    destruct j as [id' k v uri|id' k v| | | | | | | |]; try done.
    + simpl in Hid. inversion Hid; subst id'. simpl in Hnd, Hp.
      apply NoDup_cons in Hnd as [Hnin Hnd].
      assert (Hsettle :
        let st' := settle id (Settled false)
                     (Build_State sn mo eq g (LockQueue.mk lq lb lf) ga tx ou nx mt [] sa pr er lo op) in
        stranded st' /\ editQueue st' = eq /\ prompts st' = pr /\ saves st' = sa /\
        opened st' = op /\ errors st' = er /\ transactions st' = tx).
      { unfold settle. machine. rewrite (proj2 (Hp id ltac:(left))). machine.
        split; [|by repeat split]. split; unfold in_flight; fields; auto.
        - intros i Hin. destruct (Hp i ltac:(by right)) as [? ?].
          split; [done|]. rewrite lookup_insert_ne; [done|]. by intros ->.
        - intros i Hi. rewrite lookup_insert_ne; [by apply Hf|].
          destruct (Hp id ltac:(left)). lia. }
      cbv zeta in Hsettle. destruct Hsettle as (S1 & S2 & S3 & S4 & S5 & S6 & S7).
      change (step env ?s Tick)
        with (setPreference_loaded env id k v uri
                (Build_State sn mo eq g (LockQueue.mk lq lb lf) ga tx ou nx mt [] sa pr er lo op)).
      unfold setPreference_loaded. cbn [model]. destruct mo as [m0|].
      * destruct (contains env uri); cbn [negb].
        -- machine. destruct lb; machine.
           ++ split; [|by repeat split]. split; unfold in_flight; fields; auto.
              intros i Hin. apply Hp. by right.
           ++ split; [|by repeat split]. split; unfold in_flight; fields; auto.
              ** apply Forall_app. split; [done|]. constructor; [by eexists|constructor].
              ** rewrite omap_app. simpl. rewrite perm_mid.
                 apply NoDup_cons. by split.
              ** intros i. rewrite omap_app. simpl. rewrite perm_mid. apply Hp.
        -- split; [exact S1|]. rewrite S2, S3, S4, S5, S6, S7. by repeat split.
      * split; [exact S1|]. rewrite S2, S3, S4, S5, S6, S7. by repeat split.
    + simpl in Hid. inversion Hid; subst id'. simpl in Hnd, Hp.
      destruct eq as [|e0 eq]; [done|]. machine.
      split; [|split; [by eexists|by repeat split]].
      split; unfold in_flight; fields; auto.
      * change (e0 :: eq ++ [{| key := k; value := v; editResolver := id |}])
          with ((e0 :: eq) ++ [{| key := k; value := v; editResolver := id |}]).
        rewrite fmap_app. change (editResolver <$> [?x]) with [editResolver x].
        cbn [editResolver]. rewrite perm_end. exact Hnd.
      * intros i.
        change (e0 :: eq ++ [{| key := k; value := v; editResolver := id |}])
          with ((e0 :: eq) ++ [{| key := k; value := v; editResolver := id |}]).
        rewrite fmap_app. change (editResolver <$> [?x]) with [editResolver x].
        cbn [editResolver]. rewrite perm_end. apply Hp.
  - (* nothing is suspended *)
    cbn [step]. unfold complete. cbn [suspended].
    assert (pick i (@nil Suspended) = None) as -> by (by destruct i).
    split; [|by repeat split]. split; unfold in_flight; fields; auto.
  - (* a model event *)
    cbn [step]. unfold onModelEvent. machine. destruct mo; machine;
      (split; [|by repeat split]); split; unfold in_flight; fields; auto.
  - (* disposal *)
    cbn [step]. unfold dispose. machine.
    split; [|by repeat split]. split; unfold in_flight; fields; auto.
Qed.

Lemma stranded_run trace :
  forall st, stranded st ->
    let st' := run env st trace in
    stranded st' /\
    editQueue st `prefix_of` editQueue st' /\
    prompts st' = prompts st /\ saves st' = saves st /\
    opened st' = opened st /\ errors st' = errors st /\
    transactions st' = transactions st.
Proof.
  induction trace as [|e trace IH]; intros st H.
  { simpl. split; [exact H|]. split; [reflexivity|]. by repeat split. }
  unfold run in *. cbn [foldl].
  destruct (stranded_step st e H) as (H' & Hq & Hp & Hs & Ho & He & Ht).
  destruct (IH _ H') as (H'' & Hq' & -> & -> & -> & -> & ->).
  split; [done|]. split; [by etrans|]. by repeat split.
Qed.

End Stranded.

Section Disposed.
Context (env : Env) (w : World).

(** Without a model every edit is refused at line 221. *)
Lemma flush_edits_gone lpc es :
  forall st, model st = None ->
    flush_edits env lpc es st = set_outcomes (refused es (outcomes st)) st.
Proof.
  induction es as [|e es IH]; intros st Hm; [by destruct st|].
  rewrite flush_edits_cons.
  assert (flush_edit env lpc st e = settle (editResolver e) (Settled false) st) as ->.
  { unfold flush_edit, apply_edit. by rewrite Hm. }
  destruct st as [sn mo eq g lk ga tx ou nx mt su sa pr er lo op]. fields. subst.
  unfold settle, refused. cbn [outcomes foldl].
  destruct (ou !! editResolver e) eqn:E.
  - rewrite IH by done. reflexivity.
  - rewrite IH by done. reflexivity.
Qed.

Lemma commit_gone lpc st :
  model st = None ->
  commit env w lpc st = set_transactions (<[lpc := true]> (transactions st)) st.
Proof. intros Hm. unfold commit. by rewrite Hm. Qed.

Lemma refused_nil (ou : gmap nat Outcome) : refused [] ou = ou.
Proof. reflexivity. Qed.

End Disposed.

Section EditStatuses.
Context (env : Env).

Lemma edit_model_no_path m e :
  getPath env (key e) = None -> edit_model env m e = (m, Refused).
Proof. intros H. unfold edit_model, doSetPreference_start. by rewrite H. Qed.

Lemma statuses_no_path es :
  forall m i e, es !! i = Some e -> getPath env (key e) = None ->
    statuses env m es !! i = Some Refused.
Proof.
  induction es as [|e0 es IH]; intros m i e Hi Hp; [done|].
  destruct i as [|i]; simpl in *.
  - inversion Hi; subst. by rewrite edit_model_no_path.
  - eauto.
Qed.

Lemma thrown_has_path es :
  forall m k, k ∈ thrown env m es -> getPath env k <> None.
Proof.
  induction es as [|e es IH]; intros m k Hk; [by apply elem_of_nil in Hk|].
  cbn [thrown] in Hk. apply elem_of_app in Hk as [Hk|Hk]; [|eauto].
  unfold thrown1 in Hk. intros Hp.
  destruct (decide (k = key e)) as [->|Hne].
  - rewrite edit_model_no_path in Hk by done. by apply elem_of_nil in Hk.
  - destruct (edit_model env m e).2; try (by apply elem_of_nil in Hk).
    by apply list_elem_of_singleton in Hk.
Qed.

Lemma statuses_lookup es :
  forall m i e, es !! i = Some e -> exists a, statuses env m es !! i = Some a.
Proof.
  intros m i e Hi. apply lookup_lt_is_Some. rewrite statuses_length.
  by apply lookup_lt_Some in Hi.
Qed.

(** Unsetting keys of a blank document. *)
Lemma blank_unset ws :
  forall m id,
    is_empty (trim (text m)) = true ->
    Forall (fun x : Write => is_Some (getPath env x.1.1) /\ x.1.2 = None) ws ->
    edited env m (entries id ws) = m /\
    thrown env m (entries id ws) = [] /\
    forall i e, entries id ws !! i = Some e ->
      statuses env m (entries id ws) !! i = Some Clean.
Proof.
  induction ws as [|x ws IH]; intros m id Hb Hws; [done|].
  apply Forall_cons in Hws as [[[p Hp] Hv] Hws].
  assert (E : edit_model env m {| key := x.1.1; value := x.1.2; editResolver := id |}
              = (m, Clean)).
  { unfold edit_model, doSetPreference_start. cbn [key value]. by rewrite Hp, Hb, Hv. }
  destruct (IH m (S id) Hb Hws) as (He & Ht & Hs).
  unfold edited in *. cbn [entries foldl thrown statuses]. unfold thrown1.
  rewrite E. cbn [fst snd]. split; [exact He|]. split; [exact Ht|].
  intros [|i] e Hi; simpl in *; [done|]. eauto.
Qed.

End EditStatuses.

Section Served.
Context (env : Env) (w : World).

(** The end of a burst on a clean document as a state. *)
Lemma burst_final st m ws fuel :
  idle st -> model st = Some m -> dirty m = false -> ws <> [] ->
  Forall (in_domain env) ws -> 5 * length ws + 8 <= fuel ->
  drive env w fuel (run env st (call <$> ws)) =
  commit env w (next_id st + length ws)
    (flush_edits env (next_id st + length ws) (entries (next_id st) ws)
       (set_next_id (S (next_id st + length ws)) st)).
Proof.
  intros I Hm Hd Hne Hdom Hf.
  pose proof (burst_clean env w ws st m I Hm Hd Hne Hdom) as R.
  match type of R with reach _ _ _ _ (commit _ _ ?l (flush_edits _ _ ?es ?s0)) =>
    pose proof (commit_frame env w l (flush_edits env l es s0)) as (_ & Cm & Cs & _);
    pose proof (flush_edits_frame env l es s0) as (_ & Fm & Fs & _)
  end.
  eapply reach_drive; [exact R| |exact Hf].
  unfold next_event. rewrite Cm, Cs, Fm, Fs. simpl.
  by rewrite (idle_microtasks _ I), (idle_suspended _ I).
Qed.

Lemma commit_snapshot lpc st m :
  model st = Some m -> dirty m = true -> save_succeeds w = true ->
  snapshot (commit env w lpc st) = readPreferences env (Some (saved m)) (snapshot st).
Proof.
  intros Hm Hd Hs. unfold commit. rewrite Hm, Hd, Hs. by destruct st.
Qed.

End Served.

Section InitFacts.
Context (env : Env).

Lemma loaded_jobs_app ws :
  forall id x,
    loaded_jobs id (ws ++ [x]) =
    loaded_jobs id ws ++ [SP_loaded (id + length ws) x.1.1 x.1.2 x.2].
Proof.
  induction ws as [|y ws IH]; intros id x; simpl.
  - by rewrite Nat.add_0_r.
  - rewrite IH. replace (id + S (length ws)) with (S id + length ws) by lia. reflexivity.
Qed.

(** Before the reference arrives the calls wait and the event loop has
    nothing to run. *)
Lemma waiting_calls trace :
  Init.run env Init.start (Init.input <$> trace) =
  {| Init.core := set_next_id (1 + length (omap id trace)) Init.unloaded;
     Init.loading := Init.Pending (loaded_jobs 1 (omap id trace));
     Init.disposed := false; Init.referenced := false;
     Init.rejecting := []; Init.released := 0 |}.
Proof.
  induction trace as [|x trace IH] using rev_ind; [reflexivity|].
  unfold Init.run in *. rewrite fmap_app, foldl_app, IH. clear IH.
  rewrite omap_app. destruct x as [x|]; simpl.
  - unfold Init.await_loading. cbn [Init.loading Init.core next_id set_next_id].
    rewrite length_app, loaded_jobs_app. simpl.
    replace (length (omap id trace) + 1) with (S (length (omap id trace))) by lia.
    reflexivity.
  - rewrite !app_nil_r. reflexivity.
Qed.

Lemma loaded_jobs_ids ws : forall id, omap call_id (loaded_jobs id ws) = seq id (length ws).
Proof. induction ws as [|x ws IH]; intros id; [done|]. simpl. by rewrite IH. Qed.

Lemma abandoned_step p i :
  Init.abandoned p ->
  Init.abandoned (Init.step env p i) /\
  next_id (Init.core p) <= next_id (Init.core (Init.step env p i)).
Proof.
  intros [Hl Hd Hc Hnd Hr Hj Hf Hrel].
  destruct p as [c lo di re rj rl]. simpl in *. subst lo di.
  destruct c as [sn mo eq g lk ga tx ou nx mt su sa pr er lg op].
  unfold Init.unloaded in Hc. simpl in *.
  injection Hc as -> -> -> -> -> -> -> -> -> -> -> -> -> ->.
  destruct i as [m|[k v uri| |n sig|m|]]; simpl.
  - unfold Init.resume. simpl. destruct re; (split; [|done]); [by split|].
    split; simpl; auto.
  - unfold Init.await_loading. simpl. split; [|lia].
    split; simpl; auto.
    + apply NoDup_app. split; [done|]. split; [|apply NoDup_singleton].
      intros id Hin ->%list_elem_of_singleton. apply Hr in Hin. lia.
    + intros id [Hin| ->%list_elem_of_singleton]%elem_of_app.
      * destruct (Hr id Hin). split; [lia|done].
      * split; [lia|]. apply Hf. lia.
    + intros id Hid Hn. apply not_elem_of_app in Hn as [Hn1 Hn2].
      apply Hj; [|done]. rewrite list_elem_of_singleton in Hn2. lia.
    + intros id Hid. apply Hf. lia.
  - unfold Init.tick. simpl. destruct rj as [|id rest].
    + split; [|simpl; lia]. split; simpl; auto.
    + apply NoDup_cons in Hnd as [Hnin Hnd].
      destruct (Hr id ltac:(left)) as [Hlt Hnone].
      unfold settle. simpl. rewrite Hnone. split; [|simpl; lia].
      split; simpl; auto.
      * intros i Hin. destruct (Hr i ltac:(by right)) as [? ?]. split; [done|].
        rewrite lookup_insert_ne; [done|]. by intros ->.
      * intros i Hi Hn. destruct (decide (i = id)) as [->|Hne].
        -- by rewrite lookup_insert_eq.
        -- rewrite lookup_insert_ne by done. apply Hj; [done|].
           intros [->|?]%elem_of_cons; done.
      * intros i Hi. rewrite lookup_insert_ne; [by apply Hf|]. lia.
  - unfold Init.with_core. simpl. unfold complete. simpl.
    assert (pick n (@nil Suspended) = None) as -> by (by destruct n).
    split; [by split|done].
  - unfold Init.with_core. simpl. split; [by split|done].
  - split; [by split|done].
Qed.

Lemma abandoned_run trace :
  forall p, Init.abandoned p ->
    Init.abandoned (Init.run env p trace) /\
    next_id (Init.core p) <= next_id (Init.core (Init.run env p trace)).
Proof.
  induction trace as [|i trace IH]; intros p H; [done|].
  unfold Init.run in *. cbn [foldl].
  destruct (abandoned_step p i H) as [H' Hn]. destruct (IH _ H') as [H'' Hn'].
  split; [done|lia].
Qed.

Lemma abandoned_ticks n :
  forall p, Init.abandoned p -> length (Init.rejecting p) <= n ->
    Init.rejecting (Init.run env p (replicate n (Init.Occurs Tick))) = [].
Proof.
  induction n as [|n IH]; intros p H Hn.
  - simpl. destruct (Init.rejecting p); [done|simpl in Hn; lia].
  - cbn [replicate]. unfold Init.run in *. cbn [foldl]. apply IH.
    + by apply abandoned_step.
    + simpl. unfold Init.tick. destruct (Init.rejecting p) as [|id rest] eqn:E; simpl.
      * rewrite E. simpl. lia.
      * simpl in Hn. lia.
Qed.

End InitFacts.

Section ResetFacts.
Context (env : Env).

Lemma remove_dups_NoDup {A} `{EqDecision A} (l : list A) : NoDup l -> remove_dups l = l.
Proof.
  induction 1 as [|x l Hx Hl IH]; [done|].
  simpl. destruct (decide_rel _ _ _) as [?|?]; [done|]. by rewrite IH.
Qed.

Lemma filter_all {A} (P : A -> Prop) `{forall x, Decision (P x)} (l : list A) :
  Forall P l -> filter P l = l.
Proof.
  induction 1 as [|x l Hx Hl IH]; [done|]. by rewrite filter_cons_True, IH.
Qed.

Lemma filter_none {A} (P : A -> Prop) `{forall x, Decision (P x)} (l : list A) :
  Forall (fun x => ~ P x) l -> filter P l = [].
Proof.
  induction 1 as [|x l Hx Hl IH]; [done|]. by rewrite filter_cons_False.
Qed.

Lemma fmap_ext_elem {A B} (f g : A -> B) (l : list A) :
  (forall x, x ∈ l -> f x = g x) -> f <$> l = g <$> l.
Proof.
  induction l as [|x l IH]; intros H; [done|].
  rewrite !fmap_cons, (H x) by left. f_equal. apply IH. intros y Hy. apply H. by right.
Qed.

Lemma visited_empty (prefs : gmap string JSON) : visited prefs ∅ = (map_to_list prefs).*1.
Proof.
  unfold visited. rewrite map_to_list_empty, app_nil_r.
  apply remove_dups_NoDup, NoDup_fst_map_to_list.
Qed.

End ResetFacts.

Section Turns.
Context (env : Env) (w : World).

Lemma edited_entries ws :
  forall m id id', edited env m (entries id ws) = edited env m (entries id' ws).
Proof.
  induction ws as [|x ws IH]; intros m id id'; [done|].
  unfold edited in *. cbn [entries foldl].
  assert (E : forall i, (edit_model env m {| key := x.1.1; value := x.1.2; editResolver := i |}).1 =
                        (edit_model env m {| key := x.1.1; value := x.1.2; editResolver := 0 |}).1).
  { intros i. unfold edit_model. cbn [key value]. reflexivity. }
  rewrite (E id), (E id'). apply IH.
Qed.

(** Calls on a provider without a model. *)
Lemma ticks_gone ws :
  forall st id,
    model st = None -> microtasks st = loaded_jobs id ws ->
    (forall i, id <= i -> outcomes st !! i = None) ->
    run env st (replicate (length ws) Tick) =
    set_microtasks [] (set_outcomes (all_refused (seq id (length ws)) (outcomes st)) st).
Proof.
  induction ws as [|x ws IH]; intros st id Hm Hmt Hf.
  - destruct st. simpl in *. by subst.
  - destruct st as [sn mo eq g lk ga tx ou nx mt su sa pr er lo op].
    simpl in Hm, Hmt, Hf. subst.
    cbn [length replicate]. unfold run in *. cbn [foldl].
    assert (E : step env (Build_State sn None eq g lk ga tx ou nx
                            (SP_loaded id x.1.1 x.1.2 x.2 :: loaded_jobs (S id) ws)
                            su sa pr er lo op) Tick =
                Build_State sn None eq g lk ga tx (<[id := Settled false]> ou) nx
                  (loaded_jobs (S id) ws) su sa pr er lo op).
    { machine. unfold settle. machine. by rewrite Hf. }
    rewrite E, (IH _ (S id)); [reflexivity|reflexivity|reflexivity|].
    intros i Hi. cbn [outcomes]. rewrite lookup_insert_ne by lia. apply Hf. lia.
Qed.

Lemma all_refused_lookup ids :
  forall (ou : gmap nat Outcome) i, i ∈ ids -> all_refused ids ou !! i = Some (Settled false).
Proof.
  induction ids as [|j ids IH] using rev_ind; intros ou i Hi; [by apply elem_of_nil in Hi|].
  unfold all_refused in *. rewrite foldl_app. cbn [foldl].
  destruct (decide (i = j)) as [->|Hne]; [by rewrite lookup_insert_eq|].
  rewrite lookup_insert_ne by done. apply IH.
  apply elem_of_app in Hi as [Hi|Hi%list_elem_of_singleton]; done.
Qed.

End Turns.

Section AfterDisposal.
Context (env : Env).

Lemma loaded_calls ws :
  forall p, Init.loading p = Init.Resolved ->
    Init.run env p ((fun x => Init.Occurs (call x)) <$> ws) =
    Init.with_core (run env (Init.core p) (call <$> ws)) p.
Proof.
  induction ws as [|x ws IH]; intros p Hl; [by destruct p|].
  unfold Init.run, run in *. rewrite !fmap_cons. cbn [foldl].
  rewrite IH.
  - cbn [Init.step call]. unfold Init.await_loading. rewrite Hl. by destruct p.
  - cbn [Init.step call]. unfold Init.await_loading. by rewrite Hl.
Qed.

Lemma loaded_ticks n :
  forall p, Init.rejecting p = [] ->
    Init.run env p (replicate n (Init.Occurs Tick)) =
    Init.with_core (run env (Init.core p) (replicate n Tick)) p.
Proof.
  induction n as [|n IH]; intros p Hr; [by destruct p|].
  unfold Init.run, run in *. cbn [replicate foldl].
  rewrite IH.
  - cbn [Init.step]. unfold Init.tick. rewrite Hr. by destruct p.
  - cbn [Init.step]. unfold Init.tick. by rewrite Hr.
Qed.

End AfterDisposal.

Section DuringSave.
Context (env : Env) (w : World).

(** While the lock is held, the calls register on it. *)
Lemma tick_loaded_busy ws :
  forall st id rest,
    microtasks st = loaded_jobs id ws ++ rest ->
    is_Some (model st) ->
    LockQueue.busy (fileEditLock st) = true ->
    Forall (in_domain env) ws ->
    reach env w (length ws) st
      (set_microtasks rest
         (set_fileEditLock
            (LockQueue.mk (LockQueue.queue (fileEditLock st)) true
               (LockQueue.onFree (fileEditLock st) ++ free_jobs id ws)) st)).
Proof.
  induction ws as [|x ws IH]; intros st id rest Hm Hmod Hb Hdom.
  - simpl in *. destruct st as [sn mo eq g [lq lb lf] ga tx ou nx mt su sa pr er lo op].
    fields. subst. machine. rewrite app_nil_r. apply reach_refl.
  - inversion Hdom as [|? ? Hx Hws]; subst. destruct Hmod as [m Hmod].
    destruct st as [sn mo eq g [lq lb lf] ga tx ou nx mt su sa pr er lo op].
    fields. subst. cbn [loaded_jobs app]. eapply reach_step.
    { reflexivity. }
    machine. unfold in_domain in Hx. rewrite Hx. machine.
    eapply (reach_mono env w _ _ _ _ (Nat.le_refl _)).
    specialize (IH (Build_State sn (Some m) eq g
                      (LockQueue.mk lq true (lf ++ [SP_free id x.1.1 x.1.2])) ga tx ou nx
                      (loaded_jobs (S id) ws ++ rest)
                      su sa pr er lo op) (S id) rest).
    fields. cbn [free_jobs]. rewrite <- (app_assoc lf) in IH.
    apply IH; auto; by eexists.
Qed.

(** The calls resumed by the release of the lock, on a clean document. *)
Lemma free_burst ws st m id :
  microtasks st = free_jobs id ws -> ws <> [] ->
  editQueue st = [] -> suspended st = [] -> fileEditLock st = LockQueue.init ->
  model st = Some m -> dirty m = false ->
  gates st !! dirtyEditorHandled st = None ->
  reach env w (4 * length ws + 7) st
    (commit env w (next_id st)
       (flush_edits env (next_id st) (entries id ws)
          (set_microtasks [] (set_next_id (S (next_id st)) st)))).
Proof.
  intros Hmt Hne Hq Hs Hl Hm Hd Hg.
  destruct st as [sn mo eq g lk ga tx ou nx mt su sa pr er lo op].
  fields. subst. destruct ws as [|x ws]; [done|]. clear Hne.
  cbn [free_jobs].
  eapply (reach_mono env w (1 + (length ws + (3 * length (x :: ws) + 7)))); [simpl; lia|].
  eapply reach_step; [reflexivity|]. machine. rewrite Hd, Hg. machine.
  eapply reach_trans.
  { eapply (tick_free env w ws _ (S id) [DSP_gate nx]); fields; [reflexivity|done]. }
  machine. cbn [length entries].
  match goal with
  | |- reach env w _ ?s _ => pose proof (flush_runs env w nx s eq_refl eq_refl eq_refl) as F
  end.
  revert F. machine. cbn [length]. rewrite entries_length. intros F. exact F.
Qed.

(** From the flushed state of a first transaction: its save, the calls that
    arrive meanwhile, and the second transaction. *)
Lemma save_cycle F lpc m1 ws :
  editQueue F = [] -> microtasks F = [] -> suspended F = [] ->
  fileEditLock F = LockQueue.init -> model F = Some m1 -> dirty m1 = true ->
  gates F !! dirtyEditorHandled F = None ->
  save_succeeds w = true -> ws <> [] -> Forall (in_domain env) ws ->
  let lpc' := next_id F + length ws in
  reach env w (5 * length ws + 11)
    (run env
       (set_suspended [AwaitSave lpc]
          (set_saves (S (saves F)) (set_fileEditLock (LockQueue.mk [] true []) F)))
       (call <$> ws))
    (commit env w lpc'
       (flush_edits env lpc' (entries (next_id F) ws)
          (set_next_id (S lpc')
             (set_transactions (<[lpc := changes_reported w]> (transactions F))
                (set_saves (S (saves F))
                   (set_snapshot (readPreferences env (Some (saved m1)) (snapshot F))
                      (set_model (Some (saved m1)) F))))))).
Proof.
  intros Hq Hmt Hs Hl Hm Hd Hg Hsv Hne Hdom lpc'. subst lpc'.
  rewrite run_calls.
  destruct F as [sn mo eq g lk ga tx ou nx mt su sa pr er lo op].
  fields. subst. machine.
  eapply (reach_mono env w (length ws + (4 + (4 * length ws + 7)))); [lia|].
  eapply reach_trans.
  { eapply (tick_loaded_busy ws _ nx []); fields;
      [by rewrite app_nil_r|by eexists|reflexivity|done]. }
  machine.
  eapply reach_trans.
  { eapply reach_step; [reflexivity|]. machine. rewrite Hsv. machine.
    eapply reach_step; [reflexivity|]. machine.
    eapply reach_step; [reflexivity|]. machine.
    eapply reach_step; [reflexivity|]. machine.
    apply reach_refl. }
  match goal with
  | |- reach env w _ ?s _ =>
      pose proof (free_burst ws s (saved m1) nx eq_refl Hne eq_refl eq_refl eq_refl eq_refl
                    eq_refl Hg) as R
  end.
  revert R. machine. intros R. exact R.
Qed.

(** From the continuation of a flush transaction to its [save()]. *)
Lemma flush_to_save lpc st m :
  microtasks st = [DSP_gate lpc] -> suspended st = [] ->
  fileEditLock st = LockQueue.init -> model st = Some m ->
  dirty (edited env m (editQueue st)) = true ->
  reach env w (3 * length (editQueue st) + 2) st
    (set_suspended [AwaitSave lpc]
       (set_saves (S (saves st))
          (set_fileEditLock (LockQueue.mk [] true [])
             (flush_edits env lpc (editQueue st) (set_microtasks [] (set_editQueue [] st)))))).
Proof.
  intros Hmt Hs Hl Hm Hd.
  replace (3 * length (editQueue st) + 2) with (S (3 * length (editQueue st) + 1)) by lia.
  eapply reach_step; [by unfold next_event; rewrite Hmt|].
  eapply reach_trans.
  { replace (step env st Tick) with (drain env lpc (set_microtasks [] st)).
    - apply (drain_edits env w lpc (editQueue st)); by destruct st.
    - destruct st. fields. subst. reflexivity. }
  replace (set_editQueue [] (set_microtasks [] st))
    with (set_microtasks [] (set_editQueue [] st)) by (by destruct st).
  set (st0 := set_microtasks [] (set_editQueue [] st)).
  assert (Hm0 : model st0 = Some m) by exact Hm.
  pose proof (flush_edits_frame env lpc (editQueue st) st0)
    as (Fq & Fm & Fs & Fl & Fsa & _).
  pose proof (flush_edits_model env lpc (editQueue st) st0 m Hm0) as Fmo.
  change (saves st) with (saves st0). rewrite <- Fsa.
  set (m' := edited env m (editQueue st)) in *. clearbody m'.
  destruct (flush_edits env lpc (editQueue st) st0)
    as [sn mo eq g lk ga tx ou nx mt su sa pr er lo op].
  fields.
  assert (eq = []) as -> by (rewrite Fq; by destruct st).
  assert (mt = []) as -> by (rewrite Fm; by destruct st).
  assert (su = []) as -> by (rewrite Fs; unfold st0; destruct st; simpl in *; by subst).
  assert (lk = LockQueue.init) as ->
    by (rewrite Fl; unfold st0; destruct st; simpl in *; by subst).
  subst mo. machine.
  eapply reach_step; [reflexivity|]. machine. rewrite Hd. machine.
  apply reach_refl.
Qed.

(** A burst on a clean document whose edits dirty it comes to its save. *)
Lemma burst_saving ws st m :
  idle st -> model st = Some m -> dirty m = false -> ws <> [] -> Forall (in_domain env) ws ->
  dirty (edited env m (entries (next_id st) ws)) = true ->
  reach env w (5 * length ws + 2) (run env st (call <$> ws)) (saving env st ws).
Proof.
  intros [Hq Hm Hs Hl Hg _] Hmod Hd Hne Hdom Hd'.
  rewrite run_calls. unfold saving.
  destruct st as [sn mo eq g lk ga tx ou nx mt su sa pr er lo op].
  fields. subst. destruct ws as [|x ws]; [done|]. clear Hne.
  machine.
  eapply (reach_mono env w (length (x :: ws) + (1 + (length ws + (3 * length (x :: ws) + 2)))));
    [simpl; lia|].
  eapply reach_trans.
  { eapply (tick_loaded env w (x :: ws) _ nx []); fields;
      [by rewrite app_nil_r|by eexists|reflexivity|done]. }
  machine. cbn [free_jobs]. eapply reach_step; [reflexivity|]. machine. rewrite Hd, Hg. machine.
  eapply reach_trans.
  { eapply (tick_free env w ws _ (S nx) [DSP_gate (nx + S (length ws))]); fields;
      [reflexivity|done]. }
  machine. cbn [length entries].
  match goal with
  | |- reach env w _ ?s _ =>
      pose proof (flush_to_save (nx + S (length ws)) s m eq_refl eq_refl eq_refl eq_refl) as F
  end.
  revert F. machine. cbn [length entries]. rewrite entries_length. intros F.
  apply F. exact Hd'.
Qed.

End DuringSave.

Section CommitFacts.
Context (env : Env) (w : World).

Lemma commit_transactions lpc st m :
  model st = Some m ->
  transactions (commit env w lpc st) = <[lpc := success w m]> (transactions st).
Proof.
  intros Hm. destruct st as [sn mo eq g lk ga tx ou nx mt su sa pr er lo op].
  fields. subst. unfold commit, success. machine.
  destruct (dirty m); [destruct (save_succeeds w)|]; reflexivity.
Qed.

End CommitFacts.

Section OneEvent.
Context (env : Env) (w : World).
Hypothesis marks :
  forall m0 ops m1, applyBackgroundEdit env m0 ops = Some m1 -> dirty m1 = true.

Lemma flush_edit_snapshot lpc st e :
  snapshot (flush_edit env lpc st e) = snapshot st.
Proof.
  destruct st as [sn mo eq g lk ga tx ou nx mt su sa pr er lo op].
  unfold flush_edit, apply_edit, settle. machine.
  destruct (doSetPreference_start _ _ _ _) as [r| |m ops]; machine.
  - by destruct (ou !! _).
  - by destruct (ou !! _).
  - destruct (applyBackgroundEdit env m ops) as [m'|] eqn:E; machine.
    + destruct (ou !! _); machine; unfold readPreferences; by rewrite (marks _ _ _ E).
    + by destruct (ou !! _).
Qed.

Lemma flush_edits_snapshot lpc es :
  forall st, snapshot (flush_edits env lpc es st) = snapshot st.
Proof.
  induction es as [|e es IH]; intros st; [done|].
  rewrite flush_edits_cons, IH. apply flush_edit_snapshot.
Qed.

Lemma commit_snapshot_unsaved lpc st m :
  model st = Some m -> dirty m = false \/ save_succeeds w = false ->
  snapshot (commit env w lpc st) = snapshot st.
Proof.
  intros Hm H. unfold commit. rewrite Hm. destruct st. simpl.
  destruct (dirty m); [|done]. destruct H as [?| ->]; done.
Qed.

End OneEvent.

(** The checks of lines 169-174, for a call whose wait for [loading] is
    over at once. *)
Lemma refused_at_the_guards (env : Env) (st : State)
    (k : string) (v : option JSON) (uri : option string) :
  model st = None \/ contains env uri = false ->
  microtasks st = [] -> outcomes st !! next_id st = None ->
  run env st [Call k v uri; Tick] =
    set_outcomes (<[next_id st := Settled false]> (outcomes st))
      (set_next_id (S (next_id st)) st).
Proof.
  intros Hc Hmt Ho.
  destruct st as [sn mo eq g lk ga tx ou nx mt su sa pr er lo op].
  fields. subst. unfold run. cbn [foldl].
  change (step env (step env ?s (Call k v uri)) Tick)
    with (setPreference_loaded env nx k v uri
            (Build_State sn mo eq g lk ga tx ou (S nx) [] su sa pr er lo op)).
  unfold setPreference_loaded, settle. cbn [model outcomes].
  rewrite Ho. destruct Hc as [->|Hc].
  - by machine.
  - rewrite Hc. by destruct mo; machine.
Qed.

(** ** The properties *)

(** X1: along any sequence of [acquire()], [release()] and [waitUntilFree()]
    calls, from any lock, the waiters resolved by the releases are the
    deferreds the acquires queued, in the order they were queued: the wait
    list at the start followed by the deferreds queued since is the list of
    the waiters resolved so far followed by those still waiting.  No waiter
    is skipped, lost or resolved twice. *)
Theorem waiters_served_in_order {W L : Type} (q : LockQueue.t W L)
    (ops : list (LockQueue.op W L)) :
  LockQueue.queue q ++ along queued_by q ops =
  along resolved_by q ops ++ LockQueue.queue (foldl LockQueue.exec q ops).
Proof.
  revert q. induction ops as [|o ops IH]; intros q.
  - simpl. by rewrite app_nil_r.
  - cbn [along foldl]. rewrite <- app_assoc, <- IH, !app_assoc. f_equal.
    destruct q as [qu b l], o as [d| |l']; simpl.
    + destruct b; simpl; by rewrite ?app_nil_r.
    + destruct qu; simpl; by rewrite ?app_nil_r.
    + destruct b; simpl; by rewrite ?app_nil_r.
Qed.

Lemma waiters_served_in_order_witness :
  let ops : list (LockQueue.op nat nat) :=
    [LockQueue.Acquire 1; LockQueue.Acquire 2; LockQueue.Acquire 3;
     LockQueue.Release; LockQueue.WaitUntilFree 7; LockQueue.Release] in
  along queued_by LockQueue.init ops = [2; 3] /\
  along resolved_by LockQueue.init ops = [2; 3] /\
  LockQueue.queue (LockQueue.run ops) = [].
Proof.
  intros ops.
  pose proof (waiters_served_in_order LockQueue.init ops) as H.
  split; [reflexivity|]. split; [reflexivity|].
  apply (f_equal (drop 2)) in H. exact (eq_sym H).
Defined.

(** X2: along any sequence of calls on the lock, the listeners run by the
    releases are the listeners [waitUntilFree()] registered, in registration
    order, the rest being still registered: a listener is run at most once,
    none is lost, and a [release()] that hands the lock to a waiter runs
    none. *)
Theorem listeners_run_once_when_freed {W L : Type} (q : LockQueue.t W L)
    (ops : list (LockQueue.op W L)) :
  LockQueue.onFree q ++ along registered_by q ops =
  along fired_by q ops ++ LockQueue.onFree (foldl LockQueue.exec q ops).
Proof.
  revert q. induction ops as [|o ops IH]; intros q.
  - simpl. by rewrite app_nil_r.
  - cbn [along foldl]. rewrite <- app_assoc, <- IH, !app_assoc. f_equal.
    destruct q as [qu b l], o as [d| |l']; simpl.
    + destruct b; simpl; by rewrite ?app_nil_r.
    + destruct qu; simpl; by rewrite ?app_nil_r.
    + destruct b; simpl; by rewrite ?app_nil_r.
Qed.

Lemma listeners_run_once_when_freed_witness :
  let ops : list (LockQueue.op nat nat) :=
    [LockQueue.Acquire 1; LockQueue.WaitUntilFree 7; LockQueue.Acquire 2;
     LockQueue.WaitUntilFree 8; LockQueue.Release; LockQueue.Release;
     LockQueue.WaitUntilFree 9; LockQueue.Acquire 3; LockQueue.Release] in
  along registered_by LockQueue.init ops = [7; 8] /\
  along fired_by LockQueue.init ops = [7; 8] /\
  LockQueue.onFree (LockQueue.run ops) = [].
Proof.
  intros ops.
  pose proof (listeners_run_once_when_freed LockQueue.init ops) as H.
  split; [reflexivity|]. split; [reflexivity|].
  apply (f_equal (drop 2)) in H. exact (eq_sym H).
Defined.

(** X3: when [release()] is only called by a caller that is inside (one whose
    [acquire()] promise has been resolved), then at every moment of the
    sequence at most one caller is inside, the lock is busy exactly when one
    is, and nobody waits when none is. *)
Theorem lock_holds_one_at_a_time {W L : Type} (ops ops' : list (LockQueue.op W L))
    (h' : nat) :
  holders (@LockQueue.init W L) 0 (ops ++ ops') = Some h' ->
  exists h,
    holders (@LockQueue.init W L) 0 ops = Some h /\
    h <= 1 /\
    (h = 1 <-> LockQueue.busy (LockQueue.run ops) = true) /\
    (h = 0 -> LockQueue.queue (LockQueue.run ops) = []).
Proof.
  intros H. apply holders_app in H as (h & H & _). exists h. split; [exact H|].
  destruct (holders_inv ops LockQueue.init 0 h) as [[Hb ->]|(Hb & -> & Hq)]; auto.
  - split; [lia|]. split; [by split|done].
  - fold (LockQueue.run ops) in *. split; [lia|]. split; [|done].
    split; [done|]. by rewrite Hb.
Qed.

Lemma lock_holds_one_at_a_time_witness :
  let ops : list (LockQueue.op nat nat) :=
    [LockQueue.Acquire 1; LockQueue.Acquire 2; LockQueue.WaitUntilFree 7;
     LockQueue.Release; LockQueue.Acquire 3] in
  exists h,
    holders (@LockQueue.init nat nat) 0 ops = Some h /\ h <= 1 /\
    (h = 1 <-> LockQueue.busy (LockQueue.run ops) = true).
Proof.
  intros ops.
  destruct (lock_holds_one_at_a_time ops [LockQueue.Release; LockQueue.Release] 0 eq_refl)
    as (h & H1 & H2 & H3 & _).
  exists h. split; [exact H1|]. split; [exact H2|exact H3].
Defined.

(** X4: a document of white space only is not handed to the JSON parser,
    [parse] returns [undefined] for it; and whenever the parsed value is
    [undefined], [null], a boolean, a number or a string, [getParsedContent]
    is the empty object. *)
Theorem document_without_object_has_no_preferences (env : Env) (content : string) :
  (Forall (fun c => is_white c = true) (list_ascii_of_string content) ->
     parse env content = None) /\
  (match parse env content with
   | Some (JObj _) | Some (JArr _) => False
   | _ => True
   end -> getParsedContent env content = ∅).
Proof.
  split.
  - intros H. unfold parse. by rewrite trim_white.
  - intros H. unfold getParsedContent.
    destruct (parse env content) as [[]|]; try done.
Qed.

Lemma document_without_object_has_no_preferences_witness :
  let content := String "009" (String "010" " ") in
  parse Demo.env content = None /\ getParsedContent Demo.env content = ∅.
Proof.
  intros content.
  destruct (document_without_object_has_no_preferences Demo.env content) as [H1 H2].
  assert (H : parse Demo.env content = None).
  { apply H1. repeat constructor. }
  split; [exact H|]. apply H2. by rewrite H.
Defined.

(** X5: for a document that parses to an object (or an array, or [null]), the
    value [getParsedContent] holds for a name is the one of the last
    assignment of its loops to that name: a top-level member under its own
    name, the members of an override section under [section.member], the
    section name itself getting no assignment; a name that no assignment
    writes is absent. *)
Theorem parsed_content_is_last_binding (env : Env) (content : string) (d : JSON)
    (k : string) :
  parse env content = Some d -> typeof_object (Some d) = true ->
  getParsedContent env content !! k =
  snd <$> last (filter (fun b => b.1 = k) (bindings env d)).
Proof.
  intros Hp Ht. rewrite (getParsedContent_bindings env content d Hp Ht).
  rewrite foldl_insert_lookup. by destruct (last _).
Qed.

Lemma parsed_content_is_last_binding_witness :
  parse Settings.env Settings.doc = Some Settings.parsed /\
  getParsedContent Settings.env Settings.doc !! "[json].editor.tabSize" = Some (JNum 2) /\
  getParsedContent Settings.env Settings.doc !! "[json]" = None /\
  getParsedContent Settings.env Settings.doc !! "editor.tabSize" = Some (JNum 4).
Proof.
  split; [reflexivity|]. split; [|split].
  - rewrite (parsed_content_is_last_binding Settings.env Settings.doc Settings.parsed
               "[json].editor.tabSize" eq_refl eq_refl).
    reflexivity.
  - rewrite (parsed_content_is_last_binding Settings.env Settings.doc Settings.parsed
               "[json]" eq_refl eq_refl).
    reflexivity.
  - rewrite (parsed_content_is_last_binding Settings.env Settings.doc Settings.parsed
               "editor.tabSize" eq_refl eq_refl).
    reflexivity.
Defined.

(** X6: [handlePreferenceChanges] emits nothing when no preference both passes
    the scope check and differs between the old and the new snapshot;
    otherwise it emits exactly one event, in which no preference is named
    twice and whose records are exactly those of the preferences that pass
    the scope check and differ, each with its old and new value, the scope
    and the domain of the provider. *)
Theorem change_event_lists_what_changed (env : Env) (newPrefs : gmap string JSON)
    (s : Snapshot) :
  let s' := handlePreferenceChanges env newPrefs s in
  let changed k :=
    out_of_scope env k = false /\
    differs env (preferences s !! k) (newPrefs !! k) = true in
  ((forall k, ~ changed k) -> emitted s' = emitted s) /\
  (forall k, changed k ->
     exists changes,
       emitted s' = emitted s ++ [changes] /\
       NoDup (preferenceName <$> changes) /\
       forall c, c ∈ changes <->
         exists k', changed k' /\ c = change_record env (preferences s) newPrefs k').
Proof.
  intros s' changed. subst s'. rewrite handlePreferenceChanges_spec. cbv zeta.
  cbn [emitted].
  set (names := visited (preferences s) newPrefs).
  set (l := filter (reportable env (preferences s) newPrefs) names).
  assert (Hl : forall k, k ∈ l <-> changed k).
  { intros k. unfold l. rewrite list_elem_of_filter. split; [by intros [? _]|].
    intros H. split; [exact H|]. by apply (reportable_visited env). }
  split.
  - intros Hn. destruct l as [|k l']; [done|].
    destruct (Hn k). apply Hl. left.
  - intros k Hk. apply Hl in Hk.
    exists (change_record env (preferences s) newPrefs <$> l). split; [|split].
    + destruct l; [by apply elem_of_nil in Hk|done].
    + rewrite <- list_fmap_compose.
      replace (preferenceName ∘ change_record env (preferences s) newPrefs) with (@id string)
        by done.
      rewrite list_fmap_id. apply NoDup_filter, NoDup_remove_dups.
    + intros c. rewrite list_elem_of_fmap. split.
      * intros (k' & -> & Hk'). exists k'. split; [by apply Hl|done].
      * intros (k' & Hk' & ->). exists k'. split; [done|]. by apply Hl.
Qed.

Lemma change_event_lists_what_changed_witness :
  let s := {| preferences := {[ "a" := JNum 1 ]}; emitted := []; warned := [] |} in
  let newPrefs : gmap string JSON := {[ "a" := JNum 1; "b" := JNum 2 ]} in
  exists changes,
    emitted (handlePreferenceChanges Demo.env newPrefs s) = [changes] /\
    forall c, c ∈ changes <->
      exists k',
        (out_of_scope Demo.env k' = false /\
         differs Demo.env (preferences s !! k') (newPrefs !! k') = true) /\
        c = change_record Demo.env (preferences s) newPrefs k'.
Proof.
  intros s newPrefs.
  destruct (proj2 (change_event_lists_what_changed Demo.env newPrefs s) "b")
    as (changes & He & _ & Hc).
  - split; reflexivity.
  - exists changes. split; [exact He|exact Hc].
Defined.

(** X7: a preference that the schema knows and that cannot be defined in the scope
    of the provider is reported by one console warning per
    [handlePreferenceChanges] and never named in the change event, but it is
    not filtered out of the snapshot: the new preferences hold it as the
    document gives it. *)
Theorem out_of_scope_preference_is_kept_silently (env : Env)
    (newPrefs : gmap string JSON) (s : Snapshot) (k : string) :
  out_of_scope env k = true ->
  is_Some (preferences s !! k) \/ is_Some (newPrefs !! k) ->
  let s' := handlePreferenceChanges env newPrefs s in
  preferences s' !! k = newPrefs !! k /\
  (exists names, warned s' = warned s ++ names /\ k ∈ names /\ NoDup names) /\
  (emitted s' = emitted s \/
   exists changes, emitted s' = emitted s ++ [changes] /\
     k ∉ preferenceName <$> changes).
Proof.
  intros Ho Hk s'. subst s'. rewrite handlePreferenceChanges_spec. cbv zeta.
  cbn [preferences emitted warned]. split; [done|]. split.
  - eexists. split; [reflexivity|]. split.
    + apply list_elem_of_filter. split; [done|]. by apply visited_elem.
    + apply NoDup_filter, NoDup_remove_dups.
  - set (l := filter _ _). destruct l as [|k0 l'] eqn:El; [by left|right].
    eexists. split; [reflexivity|]. rewrite <- El.
    rewrite <- list_fmap_compose.
    replace (preferenceName ∘ change_record env (preferences s) newPrefs) with (@id string)
      by done.
    rewrite list_fmap_id. unfold l. rewrite list_elem_of_filter.
    intros [[Hf _] _]. congruence.
Qed.

Lemma out_of_scope_preference_is_kept_silently_witness :
  let s := {| preferences := ∅; emitted := []; warned := [] |} in
  let s' := handlePreferenceChanges Settings.env (getParsedContent Settings.env Settings.doc) s in
  out_of_scope Settings.env "window.zoomLevel" = true /\
  preferences s' !! "window.zoomLevel" = Some (JNum 1) /\
  exists names, warned s' = names /\ "window.zoomLevel" ∈ names.
Proof.
  intros s s'.
  destruct (out_of_scope_preference_is_kept_silently Settings.env
              (getParsedContent Settings.env Settings.doc) s "window.zoomLevel" eq_refl
              (or_intror (ex_intro _ (JNum 1) eq_refl)))
    as (Hp & (names & Hw & Hk & _) & _).
  split; [reflexivity|]. split; [exact Hp|].
  exists names. split; [exact Hw|exact Hk].
Defined.

(** X8: reading the same model a second time changes neither the preferences nor
    the emitted events, provided [deepEqual] finds every value of the
    snapshot equal to itself. *)
Theorem rereading_unchanged_document_is_silent (env : Env) (m : MonacoEditorModel)
    (s : Snapshot) :
  let s1 := readPreferences env (Some m) s in
  (forall k v, preferences s1 !! k = Some v -> deepEqual env v v = true) ->
  let s2 := readPreferences env (Some m) s1 in
  preferences s2 = preferences s1 /\ emitted s2 = emitted s1.
Proof.
  intros s1 Hr s2. subst s2. unfold readPreferences in *. destruct (dirty m); [done|].
  set (p := if valid m then getParsedContent env (text m) else ∅) in *.
  assert (Hp : preferences s1 = p) by (subst s1; by rewrite handlePreferenceChanges_spec).
  rewrite (handlePreferenceChanges_spec env p s1). cbv zeta. cbn [preferences emitted].
  split; [done|].
  set (l := filter _ _). destruct l as [|k l'] eqn:El; [done|].
  assert (Hk : k ∈ l) by (rewrite El; left).
  unfold l in Hk. apply list_elem_of_filter in Hk as [[_ Hd] _].
  rewrite Hp in Hd. unfold differs in Hd.
  destruct (p !! k) as [v|] eqn:Ek; [|done].
  rewrite (Hr k v) in Hd; [done|]. by rewrite Hp.
Qed.

Lemma rereading_unchanged_document_is_silent_witness :
  let m := Demo.document Demo.doc_ab false in
  let s := {| preferences := ∅; emitted := []; warned := [] |} in
  let s1 := readPreferences Demo.env (Some m) s in
  length (emitted s1) = 1 /\
  emitted (readPreferences Demo.env (Some m) s1) = emitted s1.
Proof.
  intros m s s1. split; [reflexivity|].
  apply (rereading_unchanged_document_is_silent Demo.env m s).
  apply (bool_decide_unpack
           (map_Forall (fun _ v => deepEqual Demo.env v v = true) (preferences s1))).
  vm_compute. exact I.
Defined.

(** X9: [getPreferences] is empty whenever the model is missing or invalid or the
    resource is outside the domain, and in the latter case [getConfigUri] is
    [undefined]; whenever [getPreferences] is not empty it is the whole
    snapshot and [getConfigUri] is the URI of the provider.  For an
    [undefined] or empty resource URI, [contains] holds and [getConfigUri]
    is the URI of the provider whatever the domain and even when the model
    is invalid.  After disposal [getPreferences] is empty for every
    resource. *)
Theorem lookup_is_guarded_by_validity_and_domain (env : Env) (getUri : string)
    (st : State) (resourceUri : option string) :
  (is_valid st = false -> getPreferences env st resourceUri = ∅) /\
  (contains env resourceUri = false ->
     getPreferences env st resourceUri = ∅ /\
     getConfigUri env getUri st resourceUri = None) /\
  (getPreferences env st resourceUri <> ∅ ->
     getConfigUri env getUri st resourceUri = Some getUri /\
     getPreferences env st resourceUri = preferences (snapshot st)) /\
  (resourceUri = None \/ resourceUri = Some EmptyString ->
     contains env resourceUri = true /\
     getConfigUri env getUri st resourceUri = Some getUri /\
     getPreferences env st resourceUri =
       if is_valid st then preferences (snapshot st) else ∅) /\
  (forall r, getPreferences env (dispose env st) r = ∅).
Proof.
  unfold getPreferences, getConfigUri. split; [|split; [|split; [|split]]].
  - by intros ->.
  - intros Hc. rewrite Hc, andb_false_r. split; [done|].
    destruct resourceUri as [[|c r]|]; try done.
  - intros H. destruct (is_valid st && contains env resourceUri) eqn:E; [|done].
    split; [|done]. by destruct resourceUri as [[|c r]|].
  - intros [->| ->]; simpl; rewrite andb_true_r; done.
  - intros r. by destruct st.
Qed.

Lemma lookup_is_guarded_by_validity_and_domain_witness :
  let st := initial (Demo.document Settings.doc false) (getParsedContent Settings.env Settings.doc) in
  getConfigUri Settings.env "file:///project/.theia/settings.json" st
    (Some "file:///elsewhere/a.ts") = None /\
  getConfigUri Settings.env "file:///project/.theia/settings.json" st
    (Some "file:///project/a.ts") = Some "file:///project/.theia/settings.json" /\
  getPreferences Settings.env st (Some "file:///project/a.ts") !! "editor.tabSize" = Some (JNum 4).
Proof.
  intros st.
  pose proof (lookup_is_guarded_by_validity_and_domain Settings.env
                "file:///project/.theia/settings.json" st (Some "file:///elsewhere/a.ts"))
    as (_ & H1 & _).
  pose proof (lookup_is_guarded_by_validity_and_domain Settings.env
                "file:///project/.theia/settings.json" st (Some "file:///project/a.ts"))
    as (_ & _ & H2 & _).
  split; [exact (proj2 (H1 eq_refl))|].
  assert (Hne : getPreferences Settings.env st (Some "file:///project/a.ts") <> ∅).
  { intros E. apply (f_equal (fun p : gmap string JSON => p !! "editor.tabSize")) in E.
    vm_compute in E. discriminate. }
  destruct (H2 Hne) as [Hu Hp].
  split; [exact Hu|]. rewrite Hp. reflexivity.
Defined.

(** X10: once the model has been loaded ([loading] is resolved), a
    [setPreference] call on a provider whose model is gone, as it is after
    disposal, or for a resource outside the domain, resolves to [false] in
    its first microtask (lines 169-174), and nothing else changes: no write
    is queued, nothing is scheduled or suspended, no prompt, no save. *)
Theorem call_without_model_or_domain_resolves_false (env : Env) (p : Init.Provider)
    (k : string) (v : option JSON) (uri : option string) :
  Init.loading p = Init.Resolved -> Init.rejecting p = [] ->
  model (Init.core p) = None \/ contains env uri = false ->
  microtasks (Init.core p) = [] ->
  outcomes (Init.core p) !! next_id (Init.core p) = None ->
  let id := next_id (Init.core p) in
  let p' := Init.run env p [Init.Occurs (Call k v uri); Init.Occurs Tick] in
  result (Init.core p') id = Some false /\
  p' = Init.with_core
         (set_outcomes (<[id := Settled false]> (outcomes (Init.core p)))
            (set_next_id (S id) (Init.core p))) p.
Proof.
  intros Hl Hr Hc Hmt Ho id p'. subst id p'.
  pose proof (refused_at_the_guards env (Init.core p) k v uri Hc Hmt Ho) as E.
  destruct p as [c lo di re rj rl]. cbn [Init.core Init.loading Init.rejecting] in *.
  subst lo rj.
  unfold Init.run. cbn [foldl Init.step]. unfold Init.await_loading.
  cbn [Init.loading]. unfold Init.tick, Init.with_core.
  cbn [Init.rejecting Init.core Init.loading Init.disposed Init.referenced Init.released].
  unfold run in E. cbn [foldl] in E. cbn [step] in E. cbn [step]. rewrite E.
  split; [|reflexivity].
  unfold result. destruct c. cbn. by rewrite lookup_insert_eq.
Qed.

Lemma call_without_model_or_domain_resolves_false_witness :
  let p := Init.run Settings.env Init.start
             [Init.Referenced (Demo.document Settings.doc false)] in
  let p' := Init.run Settings.env p
              [Init.Occurs (Call "editor.tabSize" (Some (JNum 8))
                              (Some "file:///elsewhere/a.ts"));
               Init.Occurs Tick] in
  Init.loading p = Init.Resolved /\
  result (Init.core p') 1 = Some false /\
  editQueue (Init.core p') = [] /\ saves (Init.core p') = 0.
Proof.
  intros p p'.
  pose proof (call_without_model_or_domain_resolves_false Settings.env p
                "editor.tabSize" (Some (JNum 8)) (Some "file:///elsewhere/a.ts")
                eq_refl eq_refl (or_intror eq_refl) eq_refl eq_refl) as [Hr Hp].
  split; [reflexivity|]. split; [exact Hr|].
  fold p' in Hp. rewrite Hp. split; reflexivity.
Defined.

(** X11: when the provider is disposed after a call has passed the checks of lines
    169-174 and before it resumes from [waitUntilFree()], the call finds the
    queue empty and reads [this.model.dirty] of a model that is gone: its
    promise is rejected, not resolved to [false]; nothing is queued and no
    prompt is shown. *)
Theorem disposal_overtaking_a_call_rejects_it (env : Env) (st : State)
    (m : MonacoEditorModel) (k : string) (v : option JSON) (uri : option string) :
  idle st -> model st = Some m -> contains env uri = true ->
  let st' := run env st [Call k v uri; Tick; Dispose; Tick] in
  outcomes st' !! next_id st = Some Rejected /\
  result st' (next_id st) = None /\
  editQueue st' = [] /\ microtasks st' = [] /\ suspended st' = [] /\
  prompts st' = prompts st /\ saves st' = saves st /\ errors st' = errors st.
Proof.
  intros [Hq Hmt Hs Hl Hg Hf] Hm Hc st'. subst st'.
  assert (Ho := Hf (next_id st) (Nat.le_refl _)).
  destruct st as [sn mo eq g lk ga tx ou nx mt su sa pr er lo op].
  fields. subst. unfold run. cbn [foldl].
  assert (E1 : step env (Build_State sn (Some m) [] g LockQueue.init ga tx ou nx [] []
                           sa pr er lo op) (Call k v uri) =
               Build_State sn (Some m) [] g LockQueue.init ga tx ou (S nx)
                 [SP_loaded nx k v uri] [] sa pr er lo op) by reflexivity.
  rewrite E1. clear E1.
  assert (E2 : step env (Build_State sn (Some m) [] g LockQueue.init ga tx ou (S nx)
                           [SP_loaded nx k v uri] [] sa pr er lo op) Tick =
               Build_State sn (Some m) [] g LockQueue.init ga tx ou (S nx)
                 [SP_free nx k v] [] sa pr er lo op).
  { machine. rewrite Hc. reflexivity. }
  rewrite E2. clear E2.
  assert (E3 : step env (Build_State sn (Some m) [] g LockQueue.init ga tx ou (S nx)
                           [SP_free nx k v] [] sa pr er lo op) Dispose =
               Build_State (reset env sn) None [] g LockQueue.init ga tx ou (S nx)
                 [SP_free nx k v] [] sa pr er lo op) by reflexivity.
  rewrite E3. clear E3.
  assert (E4 : step env (Build_State (reset env sn) None [] g LockQueue.init ga tx ou (S nx)
                           [SP_free nx k v] [] sa pr er lo op) Tick =
               Build_State (reset env sn) None [] g LockQueue.init ga tx
                 (<[nx := Rejected]> ou) (S nx) [] [] sa pr er lo op).
  { machine. unfold settle. machine. rewrite Ho. reflexivity. }
  rewrite E4. clear E4.
  unfold result. cbn [outcomes editQueue microtasks suspended prompts saves errors].
  rewrite lookup_insert_eq. by repeat split.
Qed.

Lemma disposal_overtaking_a_call_rejects_it_witness :
  let st := initial (Demo.document Demo.empty_object false) ∅ in
  idle st /\
  outcomes (run Demo.env st [Call "a" (Some (JNum 1)) None; Tick; Dispose; Tick]) !! 1 =
    Some Rejected.
Proof.
  intros st.
  assert (I : idle st) by (split; try reflexivity; intros; apply lookup_empty).
  split; [exact I|].
  exact (proj1 (disposal_overtaking_a_call_rejects_it Demo.env st
                  (Demo.document Demo.empty_object false) "a" (Some (JNum 1)) None
                  I eq_refl eq_refl)).
Defined.

(** X12: where [getPath] knows no path for a key, every write of that key in a
    burst on a clean document resolves to [false], without an error
    notification naming it; a burst that consists of one such write leaves
    the model as it is and saves nothing. *)
Theorem key_without_path_is_refused_silently (env : Env) (w : World) (st : State)
    (m : MonacoEditorModel) (ws : list Write) (fuel : nat) (k : string) :
  idle st -> model st = Some m -> dirty m = false -> ws <> [] ->
  Forall (in_domain env) ws -> 5 * length ws + 8 <= fuel ->
  getPath env k = None ->
  let es := entries (next_id st) ws in
  let final := drive env w fuel (run env st (call <$> ws)) in
  (forall e, e ∈ es -> key e = k -> result final (editResolver e) = Some false) /\
  (exists notified, errors final = errors st ++ notified /\ k ∉ notified) /\
  (ws.*1.*1 = [k] -> model final = Some m /\ saves final = saves st).
Proof.
  intros I Hm Hd Hne Hdom Hf Hk es final.
  destruct (burst_results env w st m ws fuel I Hm Hd Hne Hdom Hf)
    as (_ & _ & Hmo & Hsa & _ & Her & Ho).
  fold es final in Hmo, Hsa, Her, Ho. clearbody final.
  split; [|split].
  - intros e He Hke. apply list_elem_of_lookup in He as [i Hi].
    assert (Hs := statuses_no_path env es m i e Hi ltac:(by rewrite Hke)).
    unfold result. by rewrite (Ho i e Refused Hi Hs).
  - exists (thrown env m es). split; [exact Her|].
    intros Hin. by apply thrown_has_path in Hin.
  - intros Hws. destruct ws as [|[[k' v] uri] [|? ?]]; try done.
    simpl in Hws. inversion Hws; subst k'.
    assert (E : edited env m es = m).
    { unfold es, edited. cbn [entries foldl]. by rewrite edit_model_no_path. }
    rewrite E in Hmo, Hsa. rewrite Hd in Hmo, Hsa. simpl in Hmo.
    split; [exact Hmo|lia].
Qed.

Lemma key_without_path_is_refused_silently_witness :
  let st := initial (Demo.document Demo.empty_object false) ∅ in
  let ws : list Write := [("editor.tabSize", Some (JNum 2), None)] in
  let final := drive Launch.env (Demo.world Dismissed) 13 (run Launch.env st (call <$> ws)) in
  idle st /\ getPath Launch.env "editor.tabSize" = None /\
  result final 1 = Some false /\ model final = Some (Demo.document Demo.empty_object false).
Proof.
  intros st ws final.
  assert (I : idle st) by (split; try reflexivity; intros; apply lookup_empty).
  assert (D : Forall (in_domain Launch.env) ws) by (repeat constructor).
  destruct (key_without_path_is_refused_silently Launch.env (Demo.world Dismissed) st
              (Demo.document Demo.empty_object false) ws 13 "editor.tabSize"
              I eq_refl eq_refl ltac:(discriminate) D ltac:(simpl; lia) eq_refl)
    as (Hr & _ & Hmo).
  split; [exact I|]. split; [reflexivity|]. split.
  - exact (Hr {| key := "editor.tabSize"; value := Some (JNum 2); editResolver := 1 |}
              ltac:(apply list_elem_of_here) eq_refl).
  - exact (proj1 (Hmo eq_refl)).
Defined.

(** X13: a burst of calls that unset keys (value [undefined]) of a blank, clean
    document leaves the model exactly as it is: no edit, no save, no error
    notification, and every call resolves to [true]. *)
Theorem unsetting_in_blank_document_succeeds_untouched (env : Env) (w : World)
    (st : State) (m : MonacoEditorModel) (ws : list Write) (fuel : nat) :
  idle st -> model st = Some m -> dirty m = false -> ws <> [] ->
  Forall (in_domain env) ws -> 5 * length ws + 8 <= fuel ->
  is_empty (trim (text m)) = true ->
  Forall (fun x : Write => is_Some (getPath env x.1.1) /\ x.1.2 = None) ws ->
  let final := drive env w fuel (run env st (call <$> ws)) in
  idle final /\
  model final = Some m /\
  saves final = saves st /\
  errors final = errors st /\
  (forall i, i < length ws -> result final (next_id st + i) = Some true).
Proof.
  intros I Hm Hd Hne Hdom Hf Hb Hws final.
  destruct (burst_results env w st m ws fuel I Hm Hd Hne Hdom Hf)
    as (If & Htx & Hmo & Hsa & _ & Her & Ho).
  fold final in If, Htx, Hmo, Hsa, Her, Ho. clearbody final.
  destruct (blank_unset env ws m (next_id st) Hb Hws) as (He & Ht & Hs).
  rewrite He in Htx, Hmo, Hsa. rewrite Ht, app_nil_r in Her.
  unfold success in Htx. rewrite Hd in Htx, Hmo, Hsa. simpl in Hmo.
  split; [exact If|]. split; [exact Hmo|]. split; [lia|]. split; [exact Her|].
  intros i Hi.
  assert (Hlk : exists e, entries (next_id st) ws !! i = Some e /\
                          editResolver e = next_id st + i).
  { assert (Hl : is_Some (entries (next_id st) ws !! i))
      by (apply lookup_lt_is_Some; by rewrite entries_length).
    destruct Hl as [e He']. exists e. split; [done|].
    assert (Hid : (editResolver <$> entries (next_id st) ws) !! i = Some (editResolver e))
      by (by rewrite list_lookup_fmap, He').
    rewrite entries_ids in Hid. apply lookup_seq in Hid. lia. }
  destruct Hlk as (e & He' & Hid).
  specialize (Ho i e Clean He' (Hs i e He')). cbn [verdict] in Ho.
  unfold result. rewrite <- Hid, Ho. exact Htx.
Qed.

Lemma unsetting_in_blank_document_succeeds_untouched_witness :
  let m := Demo.document (String "010" " ") false in
  let st := initial m ∅ in
  let ws : list Write := [("a", None, None); ("b", None, None)] in
  let final := drive Demo.env (Demo.world Dismissed) 18 (run Demo.env st (call <$> ws)) in
  idle st /\ model final = Some m /\ saves final = 0 /\
  result final 1 = Some true /\ result final 2 = Some true.
Proof.
  intros m st ws final.
  assert (I : idle st) by (split; try reflexivity; intros; apply lookup_empty).
  assert (D : Forall (in_domain Demo.env) ws) by (repeat constructor).
  destruct (unsetting_in_blank_document_succeeds_untouched Demo.env (Demo.world Dismissed)
              st m ws 18 I eq_refl eq_refl ltac:(discriminate) D ltac:(simpl; lia) eq_refl
              ltac:(repeat constructor; by eexists))
    as (_ & Hmo & Hsa & _ & Hr).
  split; [exact I|]. split; [exact Hmo|]. split; [exact Hsa|].
  split; [exact (Hr 0 ltac:(simpl; lia))|exact (Hr 1 ltac:(simpl; lia))].
Defined.

(** X14: when the edits of a burst left the model dirty and the save throws, or the
    pending-changes signal that follows it is [false], every call of the
    burst resolves to [false], whether or not its own edit applied; [save()]
    was called once and the provider is at rest.  After a save that threw,
    the edits are not rolled back: the model is the edited one, still
    dirty. *)
Theorem failed_save_fails_the_whole_batch (env : Env) (w : World) (st : State)
    (m : MonacoEditorModel) (ws : list Write) (fuel : nat) :
  idle st -> model st = Some m -> dirty m = false -> ws <> [] ->
  Forall (in_domain env) ws -> 5 * length ws + 8 <= fuel ->
  let es := entries (next_id st) ws in
  let m' := edited env m es in
  let final := drive env w fuel (run env st (call <$> ws)) in
  dirty m' = true -> save_succeeds w && changes_reported w = false ->
  idle final /\
  saves final = S (saves st) /\
  (forall e, e ∈ es -> result final (editResolver e) = Some false) /\
  (save_succeeds w = false -> model final = Some m') /\
  (save_succeeds w = true -> model final = Some (saved m')).
Proof.
  intros I Hm Hd Hne Hdom Hf es m' final Hd' Hw.
  destruct (burst_results env w st m ws fuel I Hm Hd Hne Hdom Hf)
    as (If & Htx & Hmo & Hsa & _ & _ & Ho).
  fold es m' final in If, Htx, Hmo, Hsa, Ho. clearbody final.
  unfold success in Htx. rewrite Hd' in Htx, Hmo, Hsa. rewrite Hw in Htx.
  split; [exact If|]. split; [lia|]. split; [|split].
  - intros e He. apply list_elem_of_lookup in He as [i Hi].
    destruct (statuses_lookup env es m i e Hi) as [a Ha].
    specialize (Ho i e a Hi Ha). unfold result. rewrite Ho.
    destruct a; simpl; [exact Htx|done|done].
  - intros Hs. by rewrite Hmo, Hs.
  - intros Hs. by rewrite Hmo, Hs.
Qed.

Lemma failed_save_fails_the_whole_batch_witness :
  let st := initial (Demo.document Demo.empty_object false) ∅ in
  let ws : list Write := [("a", Some (JNum 1), None); ("b", Some (JNum 2), None)] in
  let w := {| save_succeeds := false; changes_reported := true; answer := Dismissed |} in
  let final := drive Demo.env w 18 (run Demo.env st (call <$> ws)) in
  idle st /\ result final 1 = Some false /\ result final 2 = Some false /\
  text <$> model final = Some Demo.doc_ab /\ dirty <$> model final = Some true.
Proof.
  intros st ws w final.
  assert (I : idle st) by (split; try reflexivity; intros; apply lookup_empty).
  assert (D : Forall (in_domain Demo.env) ws) by (repeat constructor).
  destruct (failed_save_fails_the_whole_batch Demo.env w st
              (Demo.document Demo.empty_object false) ws 18 I eq_refl eq_refl
              ltac:(discriminate) D ltac:(simpl; lia) eq_refl eq_refl)
    as (_ & _ & Hr & Hmo & _).
  split; [exact I|].
  split; [exact (Hr {| key := "a"; value := Some (JNum 1); editResolver := 1 |}
                    ltac:(apply list_elem_of_here))|].
  split; [exact (Hr {| key := "b"; value := Some (JNum 2); editResolver := 2 |}
                    ltac:(apply list_elem_of_further, list_elem_of_here))|].
  unfold final. rewrite (Hmo eq_refl). split; reflexivity.
Defined.

(** X15: after a burst on a clean document whose save succeeded on a valid model,
    the snapshot is the parsed content of the saved text and [getPreferences]
    serves it for every resource of the domain; so, whenever every edit
    realises its assignment on the parsed content, [getPreferences] gives
    for a key the value of the last call that wrote it. *)
Theorem saved_batch_is_served (env : Env) (w : World) (st : State)
    (m : MonacoEditorModel) (ws : list Write) (fuel : nat) :
  idle st -> model st = Some m -> dirty m = false -> ws <> [] ->
  Forall (in_domain env) ws -> 5 * length ws + 8 <= fuel ->
  let es := entries (next_id st) ws in
  let m' := edited env m es in
  let final := drive env w fuel (run env st (call <$> ws)) in
  dirty m' = true -> save_succeeds w = true -> valid m' = true ->
  preferences (snapshot final) = getParsedContent env (text m') /\
  (forall resourceUri, contains env resourceUri = true ->
     getPreferences env final resourceUri = getParsedContent env (text m')) /\
  (tracks env m es ->
     forall k v, last_value k es = Some v -> getPreferences env final None !! k = v).
Proof.
  intros I Hm Hd Hne Hdom Hf es m' final Hd' Hs Hv.
  assert (Hfinal := burst_final env w st m ws fuel I Hm Hd Hne Hdom Hf).
  fold es final in Hfinal.
  set (lpc := next_id st + length ws) in *.
  set (st0 := set_next_id (S lpc) st) in *.
  assert (Hm0 : model st0 = Some m) by exact Hm.
  pose proof (flush_edits_model env lpc es st0 m Hm0) as Hmod. fold m' in Hmod.
  pose proof (commit_snapshot env w lpc _ m' Hmod Hd' Hs) as Hsn.
  pose proof (commit_spec env w lpc _ m' Hmod) as (_ & _ & Hmo).
  rewrite <- Hfinal in Hsn, Hmo. clearbody final.
  rewrite Hd', Hs in Hmo. simpl in Hmo.
  assert (Hp : preferences (snapshot final) = getParsedContent env (text m')).
  { rewrite Hsn. unfold readPreferences. cbn [dirty saved valid text].
    rewrite handlePreferenceChanges_preferences. by rewrite Hv. }
  assert (Hg : forall r, contains env r = true ->
                 getPreferences env final r = getParsedContent env (text m')).
  { intros r Hc. unfold getPreferences, is_valid. rewrite Hmo. cbn [valid saved].
    by rewrite Hv, Hc, Hp. }
  split; [exact Hp|]. split; [exact Hg|].
  intros Ht k v Hk. rewrite (Hg None eq_refl).
  unfold m'. rewrite (tracks_parsed env es m Ht), assign_last. by rewrite Hk.
Qed.

Lemma saved_batch_is_served_witness :
  let st := initial (Demo.document Demo.empty_object false) ∅ in
  let ws : list Write := [("a", Some (JNum 1), None); ("b", Some (JNum 2), None)] in
  let final := drive Demo.env (Demo.world Dismissed) 18 (run Demo.env st (call <$> ws)) in
  idle st /\
  getPreferences Demo.env final None !! "a" = Some (JNum 1) /\
  getPreferences Demo.env final None !! "b" = Some (JNum 2).
Proof.
  intros st ws final.
  assert (I : idle st) by (split; try reflexivity; intros; apply lookup_empty).
  assert (T : tracks Demo.env (Demo.document Demo.empty_object false) (entries 1 ws)).
  { vm_compute. repeat split; reflexivity. }
  assert (D : Forall (in_domain Demo.env) ws) by (repeat constructor).
  destruct (saved_batch_is_served Demo.env (Demo.world Dismissed) st
              (Demo.document Demo.empty_object false) ws 18 I eq_refl eq_refl
              ltac:(discriminate) D ltac:(simpl; lia) eq_refl eq_refl eq_refl)
    as (_ & _ & Hlast).
  split; [exact I|].
  split; [exact (Hlast T "a" (Some (JNum 1)) eq_refl)|
          exact (Hlast T "b" (Some (JNum 2)) eq_refl)].
Defined.

(** X16: a burst of calls on a dirty document at rest, answered with 'Save and
    Retry' while the save succeeds: the prompt was shown once, [save()] is
    called once by the prompt handler and once more by the flush transaction
    when its edits left the model dirty, the edits are applied in call order
    to the saved document, every write whose edit applied resolves to the
    outcome of the transaction and every other one to [false], and the
    provider is at rest. *)
Theorem save_and_retry_applies_the_batch (env : Env) (w : World) (st : State)
    (m : MonacoEditorModel) (ws : list Write) (fuel : nat) :
  idle st -> model st = Some m -> dirty m = true -> ws <> [] ->
  Forall (in_domain env) ws ->
  answer w = SaveAndRetry -> save_succeeds w = true ->
  5 * length ws + 11 <= fuel ->
  let es := entries (next_id st) ws in
  let m' := edited env (saved m) es in
  let lpc := S (next_id st + length ws) in
  let final := drive env w fuel (run env st (call <$> ws)) in
  idle final /\
  prompts final = S (prompts st) /\
  saves final = S (saves st) + (if dirty m' then 1 else 0) /\
  model final = Some (if dirty m' then saved m' else m') /\
  transactions final !! lpc = Some (success w m') /\
  (forall i e a, es !! i = Some e -> statuses env (saved m) es !! i = Some a ->
     outcomes final !! editResolver e = Some (verdict lpc a) /\
     result final (editResolver e) =
       Some (match a with Clean => success w m' | _ => false end)).
Proof.
  intros I Hm Hd Hne Hdom Ha Hs Hf es m' lpc final.
  pose proof (burst_dirty env w ws st m I Hm Hd Hne Hdom) as R1.
  pose proof (prompt_retry_saved env w st m ws Hm Ha Hs (idle_lock _ I) (idle_microtasks _ I))
    as R2.
  cbv zeta in R2.
  pose proof (reach_trans env w _ _ _ _ _ R1 R2) as R. clear R1 R2.
  destruct (reach_then env w _ _ _ fuel R ltac:(lia)) as (n & Hn & Hfinal). clear R.
  fold final in Hfinal.
  match type of Hfinal with _ = drive _ _ _ ?s => set (st2 := s) in * end.
  assert (Hlen : length (editQueue st2) = length ws) by apply entries_length.
  pose proof (flush_results env w st2 lpc (saved m) (fuel - n) eq_refl eq_refl
                (idle_lock _ I) eq_refl ltac:(rewrite Hlen; lia)) as F.
  cbv zeta in F. rewrite <- Hfinal in F.
  change (editQueue st2) with es in F. fold m' in F.
  change (saves st2) with (S (saves st)) in F.
  change (prompts st2) with (S (prompts st)) in F.
  change (next_id st2) with (S lpc) in F.
  change (outcomes st2) with (outcomes st) in F.
  change (dirtyEditorHandled st2) with (next_id st + length ws) in F.
  destruct F as (Hq & He & Hl & Htx & Hmo & Hsa & Hp & Hnx & Hg & Hdh & _ & _ & Hoo & Ho).
  clearbody final. 
  assert (Hids : forall e, e ∈ es -> next_id st <= editResolver e < next_id st + length ws).
  { intros e Hin. apply (list_elem_of_fmap_2 editResolver) in Hin.
    unfold es in Hin. rewrite entries_ids in Hin. apply elem_of_seq in Hin. lia. }
  assert (Hnd : NoDup (editResolver <$> es)).
  { unfold es. rewrite entries_ids. apply NoDup_seq. }
  assert (Hfresh : forall e, e ∈ es -> outcomes st !! editResolver e = None).
  { intros e Hin. apply (idle_fresh _ I). specialize (Hids e Hin). lia. }
  specialize (Ho Hnd Hfresh).
  apply next_event_None in Hq as [Hmt Hsu].
  split; [|split; [exact Hp|split; [exact Hsa|split; [|split; [exact Htx|]]]]].
  - split; [exact He|exact Hmt|exact Hsu|exact Hl| |].
    + rewrite Hg, Hdh. apply lookup_delete_eq.
    + intros i Hi. rewrite Hnx in Hi. rewrite Hoo.
      * apply (idle_fresh _ I). unfold lpc in Hi. lia.
      * intros (e & -> & Hin)%list_elem_of_fmap. specialize (Hids e Hin).
        unfold lpc in Hi. lia.
  - rewrite Hmo, Hs. by destruct (dirty m').
  - intros i e a Hi Hst. specialize (Ho i e a Hi Hst). split; [exact Ho|].
    unfold result. rewrite Ho. destruct a; simpl; [exact Htx|done|done].
Qed.

Lemma save_and_retry_applies_the_batch_witness :
  let st := initial (Demo.document Demo.empty_object true) ∅ in
  let ws : list Write := [("a", Some (JNum 1), None); ("b", Some (JNum 2), None)] in
  let final := drive Demo.env (Demo.world SaveAndRetry) 21 (run Demo.env st (call <$> ws)) in
  idle st /\ prompts final = 1 /\ saves final = 2 /\
  text <$> model final = Some Demo.doc_ab /\
  result final 1 = Some true /\ result final 2 = Some true.
Proof.
  intros st ws final.
  assert (I : idle st) by (split; try reflexivity; intros; apply lookup_empty).
  assert (D : Forall (in_domain Demo.env) ws) by (repeat constructor).
  destruct (save_and_retry_applies_the_batch Demo.env (Demo.world SaveAndRetry) st
              (Demo.document Demo.empty_object true) ws 21 I eq_refl eq_refl
              ltac:(discriminate) D eq_refl eq_refl ltac:(simpl; lia))
    as (_ & Hp & Hsa & Hmo & _ & Hr).
  split; [exact I|]. split; [exact Hp|]. split; [exact Hsa|].
  split; [unfold final; rewrite Hmo; vm_compute; reflexivity|].
  split; [exact (proj2 (Hr 0 _ Clean eq_refl eq_refl))|
          exact (proj2 (Hr 1 _ Clean eq_refl eq_refl))].
Defined.

(** X17: a burst of calls on a dirty document at rest, answered with 'Save and
    Retry' while the save throws: [handleDirtyEditor] never reaches the
    resolution of the gate.  The event loop comes to rest with the writes
    still queued and unresolved, and from then on, whatever events follow
    (calls, microtasks, model events, disposal), no queued write is ever
    resolved, later writes only join the queue, and the provider neither
    prompts nor saves again. *)
Theorem failed_retry_save_strands_the_batch (env : Env) (w : World) (st : State)
    (m : MonacoEditorModel) (ws : list Write) (fuel : nat) :
  idle st -> model st = Some m -> dirty m = true -> ws <> [] ->
  Forall (in_domain env) ws ->
  answer w = SaveAndRetry -> save_succeeds w = false ->
  2 * length ws + 4 <= fuel ->
  let es := entries (next_id st) ws in
  let final := drive env w fuel (run env st (call <$> ws)) in
  next_event w final = None /\
  editQueue final = es /\
  model final = Some m /\
  prompts final = S (prompts st) /\
  saves final = S (saves st) /\
  forall trace,
    let st' := run env final trace in
    es `prefix_of` editQueue st' /\
    (forall e, e ∈ editQueue st' -> result st' (editResolver e) = None) /\
    suspended st' = [] /\
    prompts st' = S (prompts st) /\
    saves st' = S (saves st) /\
    transactions st' = transactions st.
Proof.
  intros I Hm Hd Hne Hdom Ha Hs Hf es final.
  pose proof (burst_dirty env w ws st m I Hm Hd Hne Hdom) as R1.
  pose proof (prompt_retry_failed env w st m ws Hm Ha Hs (idle_microtasks _ I)) as R2.
  cbv zeta in R2.
  pose proof (reach_trans env w _ _ _ _ _ R1 R2) as R. clear R1 R2.
  match type of R with reach _ _ _ _ ?s => set (st2 := s) in * end.
  assert (Hq2 : next_event w st2 = None).
  { unfold next_event. change (microtasks st2) with (microtasks st).
    by rewrite (idle_microtasks _ I). }
  assert (final = st2) as ->.
  { unfold final. eapply reach_drive; [exact R|exact Hq2|lia]. }
  clear R.
  assert (Hst : stranded st2).
  { split.
    - change (editQueue st2) with es. unfold es. destruct ws; [done|discriminate].
    - reflexivity.
    - change (microtasks st2) with (microtasks st). rewrite (idle_microtasks _ I). constructor.
    - unfold in_flight. change (microtasks st2) with (microtasks st).
      rewrite (idle_microtasks _ I). change (editQueue st2) with es. simpl.
      unfold es. rewrite entries_ids. apply NoDup_seq.
    - intros i. unfold in_flight. change (microtasks st2) with (microtasks st).
      rewrite (idle_microtasks _ I). change (editQueue st2) with es. simpl.
      unfold es. rewrite entries_ids. intros Hi%elem_of_seq.
      change (next_id st2) with (S (S (next_id st + length ws))).
      change (outcomes st2) with (outcomes st).
      split; [lia|]. apply (idle_fresh _ I). lia.
    - intros i Hi. change (next_id st2) with (S (S (next_id st + length ws))) in Hi.
      change (outcomes st2) with (outcomes st). apply (idle_fresh _ I). lia. }
  split; [exact Hq2|]. split; [reflexivity|]. split; [exact Hm|].
  split; [reflexivity|]. split; [reflexivity|].
  intros trace st'.
  destruct (stranded_run env trace st2 Hst) as (H' & Hpre & Hp & Hsa & _ & _ & Htx).
  fold st' in H', Hpre, Hp, Hsa, Htx. clearbody st'.
  split; [exact Hpre|]. split.
  { intros e He. unfold result.
    destruct (stranded_pending _ H' (editResolver e)) as [_ ->]; [|done].
    unfold in_flight. apply elem_of_app. right. by apply list_elem_of_fmap_2. }
  split; [apply H'|]. split; [exact Hp|]. split; [exact Hsa|exact Htx].
Qed.

Lemma failed_retry_save_strands_the_batch_witness :
  let st := initial (Demo.document Demo.empty_object true) ∅ in
  let ws : list Write := [("a", Some (JNum 1), None)] in
  let w := {| save_succeeds := false; changes_reported := true; answer := SaveAndRetry |} in
  let final := drive Demo.env w 6 (run Demo.env st (call <$> ws)) in
  idle st /\ next_event w final = None /\
  let st' := run Demo.env final [Call "b" (Some (JNum 2)) None; Tick; Tick; Tick] in
  length (editQueue st') = 2 /\ result st' 1 = None /\ result st' 4 = None.
Proof.
  intros st ws w final.
  assert (I : idle st) by (split; try reflexivity; intros; apply lookup_empty).
  assert (D : Forall (in_domain Demo.env) ws) by (repeat constructor).
  destruct (failed_retry_save_strands_the_batch Demo.env w st
              (Demo.document Demo.empty_object true) ws 6 I eq_refl eq_refl
              ltac:(discriminate) D eq_refl eq_refl ltac:(simpl; lia))
    as (Hq & _ & _ & _ & _ & Hforever).
  split; [exact I|]. split; [exact Hq|]. intros st'.
  destruct (Hforever [Call "b" (Some (JNum 2)) None; Tick; Tick; Tick]) as (_ & Hr & _).
  split; [reflexivity|]. split.
  - apply (Hr {| key := "a"; value := Some (JNum 1); editResolver := 1 |}).
    vm_compute. apply list_elem_of_here.
  - apply (Hr {| key := "b"; value := Some (JNum 2); editResolver := 4 |}).
    vm_compute. apply list_elem_of_further, list_elem_of_here.
Defined.

(** X18: after a burst of calls on a dirty document at rest, run to quiescence: the
    prompt was shown once, and [editorManager.open] was called once when the
    answer is 'Open File' and not at all for any other answer. *)
Theorem editor_opens_only_on_open_file (env : Env) (w : World) (st : State)
    (m : MonacoEditorModel) (ws : list Write) (fuel : nat) :
  idle st -> model st = Some m -> dirty m = true -> ws <> [] ->
  Forall (in_domain env) ws ->
  5 * length ws + 11 <= fuel ->
  let final := drive env w fuel (run env st (call <$> ws)) in
  next_event w final = None /\
  prompts final = S (prompts st) /\
  opened final = match answer w with OpenFile => S (opened st) | _ => opened st end.
Proof.
  intros I Hm Hd Hne Hdom Hf final.
  pose proof (burst_dirty env w ws st m I Hm Hd Hne Hdom) as R1.
  destruct (answer w) eqn:Ha; [destruct (save_succeeds w) eqn:Hs|..].
  - pose proof (prompt_retry_saved env w st m ws Hm Ha Hs (idle_lock _ I) (idle_microtasks _ I))
      as R2.
    cbv zeta in R2.
    pose proof (reach_trans env w _ _ _ _ _ R1 R2) as R. clear R1 R2.
    destruct (reach_then env w _ _ _ fuel R ltac:(lia)) as (n & Hn & Hfinal). clear R.
    fold final in Hfinal.
    match type of Hfinal with _ = drive _ _ _ ?s => set (st2 := s) in * end.
    assert (Hlen : length (editQueue st2) = length ws) by apply entries_length.
    rewrite (flush_drive env w (S (next_id st + length ws)) st2 (fuel - n) eq_refl eq_refl
               (idle_lock _ I) ltac:(rewrite Hlen; lia)) in Hfinal.
    match type of Hfinal with _ = commit _ _ ?l (flush_edits _ _ ?es ?s0) =>
      pose proof (commit_frame env w l (flush_edits env l es s0))
        as (_ & Cm & Cs & _ & _ & Cp & _ & _ & _ & _ & _ & Co);
      pose proof (flush_edits_frame env l es s0)
        as (_ & Fm & Fs & _ & _ & Fp & _ & _ & _ & _ & Fo)
    end.
    rewrite <- Hfinal in Cm, Cs, Cp, Co. clearbody final.
    split; [unfold next_event; by rewrite Cm, Cs, Fm, Fs|].
    split; [by rewrite Cp, Fp|by rewrite Co, Fo].
  - pose proof (prompt_retry_failed env w st m ws Hm Ha Hs (idle_microtasks _ I)) as R2.
    cbv zeta in R2.
    pose proof (reach_trans env w _ _ _ _ _ R1 R2) as R. clear R1 R2.
    match type of R with reach _ _ _ _ ?s => set (st2 := s) in * end.
    assert (Hq2 : next_event w st2 = None).
    { unfold next_event. change (microtasks st2) with (microtasks st).
      by rewrite (idle_microtasks _ I). }
    assert (final = st2) as ->.
    { unfold final. eapply reach_drive; [exact R|exact Hq2|lia]. }
    by repeat split.
  - pose proof (prompt_refused env w st m ws Hm ltac:(by rewrite Ha) (idle_microtasks _ I))
      as R2.
    cbv zeta in R2. rewrite Ha in R2.
    pose proof (reach_trans env w _ _ _ _ _ R1 R2) as R. clear R1 R2.
    destruct (reach_then env w _ _ _ fuel R ltac:(lia)) as (n & Hn & Hfinal). clear R.
    fold final in Hfinal.
    match type of Hfinal with _ = drive _ _ _ ?s => set (st2 := s) in * end.
    rewrite (flush_drive env w (S (next_id st + length ws)) st2 (fuel - n) eq_refl eq_refl
               (idle_lock _ I) ltac:(simpl; lia)) in Hfinal.
    match type of Hfinal with _ = commit _ _ ?l (flush_edits _ _ ?es ?s0) =>
      pose proof (commit_frame env w l (flush_edits env l es s0))
        as (_ & Cm & Cs & _ & _ & Cp & _ & _ & _ & _ & _ & Co);
      pose proof (flush_edits_frame env l es s0)
        as (_ & Fm & Fs & _ & _ & Fp & _ & _ & _ & _ & Fo)
    end.
    rewrite <- Hfinal in Cm, Cs, Cp, Co. clearbody final.
    split; [unfold next_event; by rewrite Cm, Cs, Fm, Fs|].
    split; [by rewrite Cp, Fp|by rewrite Co, Fo].
  - pose proof (prompt_refused env w st m ws Hm ltac:(by rewrite Ha) (idle_microtasks _ I))
      as R2.
    cbv zeta in R2. rewrite Ha in R2.
    pose proof (reach_trans env w _ _ _ _ _ R1 R2) as R. clear R1 R2.
    destruct (reach_then env w _ _ _ fuel R ltac:(lia)) as (n & Hn & Hfinal). clear R.
    fold final in Hfinal.
    match type of Hfinal with _ = drive _ _ _ ?s => set (st2 := s) in * end.
    rewrite (flush_drive env w (S (next_id st + length ws)) st2 (fuel - n) eq_refl eq_refl
               (idle_lock _ I) ltac:(simpl; lia)) in Hfinal.
    match type of Hfinal with _ = commit _ _ ?l (flush_edits _ _ ?es ?s0) =>
      pose proof (commit_frame env w l (flush_edits env l es s0))
        as (_ & Cm & Cs & _ & _ & Cp & _ & _ & _ & _ & _ & Co);
      pose proof (flush_edits_frame env l es s0)
        as (_ & Fm & Fs & _ & _ & Fp & _ & _ & _ & _ & Fo)
    end.
    rewrite <- Hfinal in Cm, Cs, Cp, Co. clearbody final.
    split; [unfold next_event; by rewrite Cm, Cs, Fm, Fs|].
    split; [by rewrite Cp, Fp|by rewrite Co, Fo].
Qed.

Lemma editor_opens_only_on_open_file_witness :
  let st := initial (Demo.document Demo.empty_object true) ∅ in
  let ws : list Write := [("a", Some (JNum 1), None); ("b", Some (JNum 2), None)] in
  idle st /\
  opened (drive Demo.env (Demo.world OpenFile) 21 (run Demo.env st (call <$> ws))) = 1 /\
  opened (drive Demo.env (Demo.world SaveAndRetry) 21 (run Demo.env st (call <$> ws))) = 0.
Proof.
  intros st ws.
  assert (I : idle st) by (split; try reflexivity; intros; apply lookup_empty).
  assert (D : Forall (in_domain Demo.env) ws) by (repeat constructor).
  split; [exact I|]. split.
  - exact (proj2 (proj2 (editor_opens_only_on_open_file Demo.env (Demo.world OpenFile) st
             (Demo.document Demo.empty_object true) ws 21 I eq_refl eq_refl
             ltac:(discriminate) D ltac:(simpl; lia)))).
  - exact (proj2 (proj2 (editor_opens_only_on_open_file Demo.env (Demo.world SaveAndRetry) st
             (Demo.document Demo.empty_object true) ws 21 I eq_refl eq_refl
             ltac:(discriminate) D ltac:(simpl; lia)))).
Defined.

(** X19: the provider is disposed while the prompt is up and writes are queued.
    Whatever the user answers then, every queued write resolves to [false],
    the queue ends empty, and nothing is saved, opened or reported as an
    error; the snapshot is empty and the model gone. *)
Theorem disposal_fails_the_queued_writes (env : Env) (w : World) (st0 : State)
    (m : MonacoEditorModel) (trace : list Event) (fuel : nat) :
  idle st0 -> model st0 = Some m -> dirty m = true ->
  Forall is_call_or_tick trace ->
  let st := run env st0 trace in
  microtasks st = [] -> editQueue st <> [] ->
  3 * length (editQueue st) + 9 <= fuel ->
  let final := drive env w fuel (step env st Dispose) in
  (forall e, e ∈ editQueue st -> result final (editResolver e) = Some false) /\
  next_event w final = None /\
  editQueue final = [] /\
  model final = None /\
  preferences (snapshot final) = ∅ /\
  saves final = saves st /\
  opened final = opened st /\
  errors final = errors st /\
  prompts final = prompts st.
Proof.
  intros I0 Hm Hd Ht st Hmt Hq Hfuel final.
  pose proof (blocked_run env st0 m trace st0 Hd Ht (blocked_init st0 m I0 Hm)) as B.
  fold st in B. clearbody st.
  destruct B as [Hmod Hl Hj Hen Hn Hf Ho Hph].
  destruct Hph as [(? & _)|(_ & Hsu & Hpr & lpc & Hlpc & Hg)]; [done|].
  destruct st as [sn mo eq g lk ga tx ou nx mt su sa pr er lo op].
  fields. subst.
  set (es' := match answer w with SaveAndRetry => eq | _ => [] end).
  set (ou' := match answer w with SaveAndRetry => ou | _ => refused eq ou end).
  set (st2 := Build_State (reset env sn) None es' g LockQueue.init (delete g ga) tx ou' nx
                [DSP_gate lpc] [] sa (S (prompts st0)) er lo op).
  assert (R : reach env w 2
                (step env (Build_State sn (Some m) eq g LockQueue.init ga tx ou nx []
                             [AwaitAnswer] sa (S (prompts st0)) er lo op) Dispose) st2).
  { cbn [step]. unfold dispose. machine.
    eapply reach_step; [reflexivity|]. machine.
    eapply reach_step; [reflexivity|]. machine.
    unfold st2, es', ou'. destruct (answer w) eqn:E.
    - rewrite handleDirtyEditor_end_retry. machine. rewrite Hg. machine. apply reach_refl.
    - rewrite handleDirtyEditor_end_refuse by done. machine. rewrite Hg. machine.
      apply reach_refl.
    - rewrite handleDirtyEditor_end_refuse by done. machine. rewrite Hg. machine.
      apply reach_refl. }
  destruct (reach_then env w _ _ _ fuel R ltac:(lia)) as (n & Hn2 & Hfinal). clear R.
  fold final in Hfinal.
  assert (Hlen : length es' <= length eq) by (unfold es'; destruct (answer w); simpl; lia).
  rewrite (flush_drive env w lpc st2 (fuel - n) eq_refl eq_refl eq_refl
             ltac:(simpl; cbn [length] in *; lia)) in Hfinal.
  rewrite flush_edits_gone in Hfinal by reflexivity.
  rewrite commit_gone in Hfinal by reflexivity.
  assert (Hou : refused es' ou' = refused eq ou).
  { unfold es', ou'. by destruct (answer w). }
  unfold st2 in Hfinal.
  cbn [editQueue outcomes set_microtasks set_editQueue] in Hfinal.
  rewrite Hou in Hfinal. clearbody final. subst final.
  split.
  { intros e He. unfold result. cbn [outcomes set_transactions set_outcomes].
    rewrite (refused_false eq ou e He); [done|].
    intros o Hs. destruct (Ho _ _ Hs) as [H0|]; [|done].
    rewrite Forall_forall in Hen. specialize (Hen e He).
    rewrite (idle_fresh _ I0) in H0; [done|lia]. }
  split; [reflexivity|]. by repeat split.
Qed.

Lemma disposal_fails_the_queued_writes_witness :
  let st0 := initial (Demo.document Demo.empty_object true) ∅ in
  let trace := [Call "a" (Some (JNum 1)) None; Call "b" (Some (JNum 2)) None;
                Tick; Tick; Tick; Tick] in
  let final :=
    drive Demo.env (Demo.world SaveAndRetry) 15 (step Demo.env (run Demo.env st0 trace) Dispose) in
  idle st0 /\
  result final 1 = Some false /\ result final 2 = Some false /\ saves final = 0.
Proof.
  intros st0 trace final.
  assert (I : idle st0) by (split; try reflexivity; intros; apply lookup_empty).
  destruct (disposal_fails_the_queued_writes Demo.env (Demo.world SaveAndRetry) st0
              (Demo.document Demo.empty_object true) trace 15 I eq_refl eq_refl
              ltac:(repeat constructor) ltac:(vm_compute; reflexivity)
              ltac:(vm_compute; discriminate) ltac:(vm_compute; lia))
    as (Hr & _ & _ & _ & _ & Hsa & _).
  split; [exact I|].
  split; [exact (Hr {| key := "a"; value := Some (JNum 1); editResolver := 1 |}
                    ltac:(vm_compute; apply list_elem_of_here))|].
  split; [exact (Hr {| key := "b"; value := Some (JNum 2); editResolver := 2 |}
                    ltac:(vm_compute; apply list_elem_of_further, list_elem_of_here))|].
  exact Hsa.
Defined.

(** X20: calls made before [init] has obtained the model reference settle nothing
    and schedule nothing while the load is pending (turns of the event loop
    in between do nothing); when the reference arrives the model is set,
    the snapshot is read from it, and the provider is in the very state it
    would be in had the same calls been made, in the same order, right after
    the load. *)
Theorem calls_before_the_load_are_served_after_it (env : Env)
    (trace : list (option Write)) (m : MonacoEditorModel) :
  let before := Init.run env Init.start (Init.input <$> trace) in
  let after := Init.step env before (Init.Referenced m) in
  outcomes (Init.core before) = ∅ /\
  microtasks (Init.core before) = [] /\
  model (Init.core before) = None /\
  Init.loading after = Init.Resolved /\
  model (Init.core after) = Some m /\
  snapshot (Init.core after) =
    readPreferences env (Some m) (snapshot Init.unloaded) /\
  Init.core after =
    run env (Init.core (Init.step env Init.start (Init.Referenced m)))
      (call <$> omap id trace).
Proof.
  intros before after. subst after before. rewrite waiting_calls.
  do 6 (split; [reflexivity|]). rewrite run_calls. reflexivity.
Qed.

Lemma calls_before_the_load_are_served_after_it_witness :
  let trace : list (option Write) :=
    [Some ("a", Some (JNum 1), None); None; Some ("b", Some (JNum 2), None)] in
  let m := Demo.document Demo.doc_a false in
  let after :=
    Init.step Demo.env (Init.run Demo.env Init.start (Init.input <$> trace))
      (Init.Referenced m) in
  preferences (snapshot (Init.core after)) = {[ "a" := JNum 1 ]} /\
  microtasks (Init.core after) =
    [SP_loaded 1 "a" (Some (JNum 1)) None; SP_loaded 2 "b" (Some (JNum 2)) None].
Proof.
  intros trace m after.
  destruct (calls_before_the_load_are_served_after_it Demo.env trace m)
    as (_ & _ & _ & _ & _ & Hs & Hc).
  split.
  - unfold after. rewrite Hs. reflexivity.
  - unfold after. rewrite Hc. reflexivity.
Defined.

(** X21: when the provider is disposed before [init] has obtained the model
    reference, then whatever follows (the reference arriving, further calls,
    microtasks, any other event) the provider never gets a model, reads no
    preferences, prompts and saves nothing; the reference is disposed as
    soon as it arrives, once; and every call, made before or after the
    disposal, is rejected once the microtasks have run. *)
Theorem disposal_before_the_load_rejects_every_call (env : Env)
    (before : list (option Write)) (after : list Init.Input) :
  let p :=
    Init.run env Init.start
      ((Init.input <$> before) ++ [Init.Occurs Dispose] ++ after) in
  model (Init.core p) = None /\
  snapshot (Init.core p) = snapshot Init.unloaded /\
  editQueue (Init.core p) = [] /\
  saves (Init.core p) = 0 /\
  prompts (Init.core p) = 0 /\
  Init.released p = (if Init.referenced p then 1 else 0) /\
  length (omap id before) < next_id (Init.core p) /\
  (forall id, 1 <= id < next_id (Init.core p) ->
     id ∈ Init.rejecting p \/ outcomes (Init.core p) !! id = Some Rejected) /\
  (forall n id, length (Init.rejecting p) <= n -> 1 <= id < next_id (Init.core p) ->
     outcomes (Init.core (Init.run env p (replicate n (Init.Occurs Tick)))) !! id =
       Some Rejected).
Proof.
  intros p. subst p. unfold Init.run. rewrite !foldl_app.
  fold (Init.run env Init.start (Init.input <$> before)). rewrite waiting_calls.
  cbn [foldl Init.step]. unfold Init.disposal. simpl.
  rewrite loaded_jobs_ids.
  set (p1 := Init.Build_Provider _ _ _ _ _ _).
  assert (H1 : Init.abandoned p1).
  { split; simpl; auto.
    - apply NoDup_seq.
    - intros id Hin%elem_of_seq. split; [lia|done].
    - intros id Hid Hn. destruct Hn. apply elem_of_seq. lia. }
  fold (Init.run env p1 after).
  destruct (abandoned_run env after p1 H1) as [H Hmono].
  change (next_id (Init.core p1)) with (S (length (omap id before))) in Hmono.
  set (p := Init.run env p1 after) in *. clearbody p. clear H1.
  pose proof H as [Hl Hd Hc Hnd Hr Hj Hf Hrel].
  split; [by rewrite Hc|]. split; [by rewrite Hc|]. split; [by rewrite Hc|].
  split; [by rewrite Hc|]. split; [by rewrite Hc|]. split; [exact Hrel|].
  split; [lia|]. split.
  - intros id0 Hid. destruct (decide (id0 ∈ Init.rejecting p)); [by left|right].
    by apply Hj.
  - intros n id0 Hn Hid.
    destruct (abandoned_run env (replicate n (Init.Occurs Tick)) p H) as [H' Hm'].
    pose proof (abandoned_ticks env n p H Hn) as He.
    apply (Init.ab_rejected _ H'); [lia|]. rewrite He. apply not_elem_of_nil.
Qed.

Lemma disposal_before_the_load_rejects_every_call_witness :
  let p :=
    Init.run Demo.env Init.start
      [Init.Occurs (Call "a" (Some (JNum 1)) None); Init.Occurs Dispose;
       Init.Occurs (Call "b" (Some (JNum 2)) None);
       Init.Referenced (Demo.document Demo.doc_a false)] in
  model (Init.core p) = None /\ Init.released p = 1 /\
  outcomes (Init.core (Init.run Demo.env p (replicate 2 (Init.Occurs Tick)))) !! 1 =
    Some Rejected /\
  outcomes (Init.core (Init.run Demo.env p (replicate 2 (Init.Occurs Tick)))) !! 2 =
    Some Rejected.
Proof.
  intros p.
  destruct (disposal_before_the_load_rejects_every_call Demo.env
              [Some ("a", Some (JNum 1), None)]
              [Init.Occurs (Call "b" (Some (JNum 2)) None);
               Init.Referenced (Demo.document Demo.doc_a false)])
    as (Hm & _ & _ & _ & _ & Hrel & _ & _ & Hr).
  split; [exact Hm|]. split; [exact Hrel|].
  split; [exact (Hr 2 1 ltac:(simpl; lia) ltac:(simpl; lia))|
          exact (Hr 2 2 ltac:(simpl; lia) ltac:(simpl; lia))].
Defined.

(** X22: bursts of calls made one after the other on a clean document at rest,
    each run to quiescence before the next is made, while every save
    succeeds: the provider is at rest after the last one and never prompts,
    [save()] is called at most once per burst, and the model at the end is
    the result of applying the edits of the bursts in order, each burst to
    the document as the previous one left it saved; it is clean. *)
Theorem bursts_in_turn_save_once_each (env : Env) (w : World) (st : State)
    (m : MonacoEditorModel) (wss : list (list Write)) (fuel : nat) :
  idle st -> model st = Some m -> dirty m = false -> save_succeeds w = true ->
  Forall (fun ws => ws <> [] /\ Forall (in_domain env) ws /\ 5 * length ws + 8 <= fuel) wss ->
  let final := in_turn env w fuel st wss in
  idle final /\
  prompts final = prompts st /\
  saves st <= saves final <= saves st + length wss /\
  model final = Some (foldl (fun m ws => settled (edited env m (entries 0 ws))) m wss) /\
  dirty <$> model final = Some false.
Proof.
  revert st m. induction wss as [|ws wss IH]; intros st m I Hm Hd Hs Hw final.
  - subst final. simpl. split; [done|]. split; [done|]. split; [lia|].
    split; [done|]. rewrite Hm. simpl. by rewrite Hd.
  - apply Forall_cons in Hw as [(Hne & Hdom & Hf) Hw].
    destruct (burst_results env w st m ws fuel I Hm Hd Hne Hdom Hf)
      as (I1 & _ & Hm1 & Hsa1 & Hp1 & _).
    set (st1 := drive env w fuel (run env st (call <$> ws))) in *.
    set (m1 := edited env m (entries (next_id st) ws)) in *.
    assert (Hm1' : model st1 = Some (settled (edited env m (entries 0 ws)))).
    { rewrite Hm1. unfold settled. rewrite (edited_entries env ws m 0 (next_id st)). fold m1.
      rewrite Hs. by destruct (dirty m1). }
    assert (Hd1 : dirty (settled (edited env m (entries 0 ws))) = false).
    { unfold settled.
      destruct (dirty (edited env m (entries 0 ws))) eqn:E; [reflexivity|exact E]. }
    subst final. unfold in_turn in *. cbn [foldl]. fold st1.
    destruct (IH st1 _ I1 Hm1' Hd1 Hs Hw) as (If & Hp & Hsa & Hmo & Hdf).
    clearbody st1.
    split; [exact If|]. split; [by rewrite Hp|]. split.
    + cbn [length]. destruct (dirty m1); lia.
    + split; [exact Hmo|exact Hdf].
Qed.

Lemma bursts_in_turn_save_once_each_witness :
  let st := initial (Demo.document Demo.empty_object false) ∅ in
  let wss : list (list Write) :=
    [[("a", Some (JNum 1), None)]; [("b", Some (JNum 2), None)]] in
  let final := in_turn Demo.env (Demo.world Dismissed) 13 st wss in
  idle st /\ idle final /\ prompts final = 0 /\ saves final <= 2 /\
  text <$> model final = Some Demo.doc_ab.
Proof.
  intros st wss final.
  assert (I : idle st) by (split; try reflexivity; intros; apply lookup_empty).
  destruct (bursts_in_turn_save_once_each Demo.env (Demo.world Dismissed) st
              (Demo.document Demo.empty_object false) wss 13 I eq_refl eq_refl eq_refl)
    as (If & Hp & Hsa & Hmo & _).
  { repeat constructor; simpl; try discriminate; lia. }
  split; [exact I|]. split; [exact If|]. split; [exact Hp|].
  split; [change (saves st) with 0 in Hsa; change (length wss) with 2 in Hsa;
          fold final in Hsa; lia|].
  unfold final. rewrite Hmo. vm_compute. reflexivity.
Defined.

(** X23: when no preference of the snapshot is held back by the scope check,
    [reset] does exactly what [handlePreferenceChanges] does with an empty
    object: the same empty snapshot, the same event (a removal record for
    every key, in the same order), no warning. *)
Theorem reset_is_an_unfiltered_clearing (env : Env) (s : Snapshot) :
  (forall k, is_Some (preferences s !! k) -> out_of_scope env k = false) ->
  reset env s = handlePreferenceChanges env ∅ s.
Proof.
  intros Hs. rewrite handlePreferenceChanges_spec. cbv zeta.
  rewrite visited_empty. unfold reset.
  assert (E : forall x, x ∈ map_to_list (preferences s) ->
                preferences s !! x.1 = Some x.2).
  { intros [k v] H. by apply elem_of_map_to_list. }
  rewrite (reset_changes env _ _ E).
  assert (Hf : filter (reportable env (preferences s) ∅) (map_to_list (preferences s)).*1
               = (map_to_list (preferences s)).*1).
  { apply filter_all. apply Forall_forall. intros k Hk.
    apply list_elem_of_fmap in Hk as ([k' v] & -> & Hk). apply elem_of_map_to_list in Hk.
    split; [apply Hs; by eexists|]. simpl. by rewrite Hk. }
  assert (Hw : filter (fun k => out_of_scope env k = true) (map_to_list (preferences s)).*1
               = []).
  { apply filter_none. apply Forall_forall. intros k Hk.
    apply list_elem_of_fmap in Hk as ([k' v] & -> & Hk). apply elem_of_map_to_list in Hk.
    rewrite Hs; [done|]. by eexists. }
  rewrite Hf, Hw, app_nil_r. f_equal.
  rewrite <- list_fmap_compose.
  assert (Hc : (fun x : string * JSON =>
                  {| preferenceName := x.1; newValue := None; oldValue := Some x.2;
                     scope := getScope env; domain := getDomain env |}) <$>
               map_to_list (preferences s) =
               (change_record env (preferences s) ∅ ∘ fst) <$> map_to_list (preferences s)).
  { apply fmap_ext_elem. intros x Hx.
    unfold change_record. simpl. by rewrite (E x Hx), lookup_empty. }
  by rewrite Hc.
Qed.

Lemma reset_is_an_unfiltered_clearing_witness :
  let s := {| preferences := {[ "a" := JNum 1; "b" := JNum 2 ]}; emitted := []; warned := [] |} in
  reset Demo.env s = handlePreferenceChanges Demo.env ∅ s /\
  length <$> emitted (reset Demo.env s) = [2].
Proof.
  intros s. split; [|reflexivity].
  apply (reset_is_an_unfiltered_clearing Demo.env s). reflexivity.
Defined.

(** X24: once the model was loaded, calls made after disposal are not rejected:
    each resolves to [false] in its first microtask.  The reference was
    released once, the snapshot is empty, and nothing is queued, prompted
    or saved. *)
Theorem calls_after_disposal_resolve_false (env : Env) (m : MonacoEditorModel)
    (ws : list Write) :
  let p :=
    Init.run env Init.start
      ([Init.Referenced m; Init.Occurs Dispose] ++
       ((fun x => Init.Occurs (call x)) <$> ws) ++
       replicate (length ws) (Init.Occurs Tick)) in
  Init.released p = 1 /\
  model (Init.core p) = None /\
  preferences (snapshot (Init.core p)) = ∅ /\
  editQueue (Init.core p) = [] /\
  microtasks (Init.core p) = [] /\
  prompts (Init.core p) = 0 /\
  saves (Init.core p) = 0 /\
  (forall i, i < length ws ->
     outcomes (Init.core p) !! (1 + i) = Some (Settled false) /\
     result (Init.core p) (1 + i) = Some false).
Proof.
  intros p. subst p. unfold Init.run. rewrite !foldl_app.
  set (p1 := foldl (Init.step env) Init.start [Init.Referenced m; Init.Occurs Dispose]).
  fold (Init.run env p1 ((fun x => Init.Occurs (call x)) <$> ws)).
  rewrite (loaded_calls env ws p1 eq_refl).
  match goal with |- context [foldl (Init.step env) ?q (replicate _ _)] =>
    fold (Init.run env q (replicate (length ws) (Init.Occurs Tick)));
    rewrite (loaded_ticks env (length ws) q eq_refl)
  end.
  cbn [Init.core Init.with_core Init.released].
  rewrite run_calls.
  rewrite (ticks_gone env ws _ 1); [| reflexivity | reflexivity | intros; apply lookup_empty].
  match goal with |- context [model ?c = None] => set (final := c) end.
  assert (Ho : outcomes final = all_refused (seq 1 (length ws)) ∅) by reflexivity.
  split; [reflexivity|]. split; [reflexivity|]. split; [reflexivity|].
  split; [reflexivity|]. split; [reflexivity|]. split; [reflexivity|]. split; [reflexivity|].
  clearbody final. intros i Hi.
  assert (H : outcomes final !! (1 + i) = Some (Settled false)).
  { rewrite Ho. apply all_refused_lookup. apply elem_of_seq. lia. }
  split; [exact H|]. unfold result. by rewrite H.
Qed.

Lemma calls_after_disposal_resolve_false_witness :
  let p :=
    Init.run Demo.env Init.start
      [Init.Referenced (Demo.document Demo.doc_a false); Init.Occurs Dispose;
       Init.Occurs (Call "a" (Some (JNum 2)) None); Init.Occurs Tick] in
  Init.released p = 1 /\ result (Init.core p) 1 = Some false /\
  emitted (snapshot (Init.core p)) =
    [[{| preferenceName := "a"; newValue := Some (JNum 1); oldValue := None;
         scope := Folder; domain := None |}];
     [{| preferenceName := "a"; newValue := None; oldValue := Some (JNum 1);
         scope := Folder; domain := None |}]].
Proof.
  intros p.
  destruct (calls_after_disposal_resolve_false Demo.env (Demo.document Demo.doc_a false)
              [("a", Some (JNum 2), None)])
    as (Hr & _ & _ & _ & _ & _ & _ & Hc).
  split; [exact Hr|]. split; [exact (proj2 (Hc 0 ltac:(simpl; lia)))|].
  vm_compute. reflexivity.
Defined.

(** X25: the flush transaction of a burst on a clean document whose edits dirty
    it reaches its [save()] with the lock held.  Calls made then register on
    the lock instead of looking at the dirty flag; when the save has
    succeeded and the lock is freed they form a second transaction: no
    prompt is shown although the model was dirty when they were made, their
    edits are applied to the saved document, [save()] is called once for
    the first transaction and once more when the second left the model
    dirty, the first transaction resolves to the pending-changes signal and
    the second to its own outcome, and the provider ends at rest. *)
Theorem writes_during_a_save_wait_for_the_lock (env : Env) (w : World) (st : State)
    (m : MonacoEditorModel) (ws1 ws2 : list Write) (fuel : nat) :
  idle st -> model st = Some m -> dirty m = false ->
  ws1 <> [] -> Forall (in_domain env) ws1 ->
  ws2 <> [] -> Forall (in_domain env) ws2 ->
  save_succeeds w = true ->
  let lpc1 := next_id st + length ws1 in
  let m1 := edited env m (entries (next_id st) ws1) in
  dirty m1 = true ->
  5 * length ws2 + 11 <= fuel ->
  let es2 := entries (S lpc1) ws2 in
  let lpc2 := S lpc1 + length ws2 in
  let m2 := edited env (saved m1) es2 in
  let held := saving env st ws1 in
  let final := drive env w fuel (run env held (call <$> ws2)) in
  reach env w (5 * length ws1 + 2) (run env st (call <$> ws1)) held /\
  model held = Some m1 /\
  LockQueue.busy (fileEditLock held) = true /\
  suspended held = [AwaitSave lpc1] /\
  idle final /\
  prompts final = prompts st /\
  saves final = S (saves st) + (if dirty m2 then 1 else 0) /\
  model final = Some (if dirty m2 then saved m2 else m2) /\
  transactions final !! lpc1 = Some (changes_reported w) /\
  transactions final !! lpc2 = Some (success w m2) /\
  (forall i e a, es2 !! i = Some e -> statuses env (saved m1) es2 !! i = Some a ->
     outcomes final !! editResolver e = Some (verdict lpc2 a)).
Proof.
  intros I Hm Hd Hne1 Hdom1 Hne2 Hdom2 Hsv lpc1 m1 Hd1 Hf es2 lpc2 m2 held final.
  pose proof (burst_saving env w ws1 st m I Hm Hd Hne1 Hdom1 Hd1) as R1. fold held in R1.
  set (es1 := entries (next_id st) ws1) in *.
  set (st0 := set_next_id (S lpc1) st).
  set (F := flush_edits env lpc1 es1 st0).
  assert (Hm0 : model st0 = Some m) by exact Hm.
  pose proof (flush_edits_frame env lpc1 es1 st0)
    as (Fq & Fm & Fs & Fl & Fsa & Fp & Fn & Ftx & Fg & Fd & _).
  pose proof (flush_edits_model env lpc1 es1 st0 m Hm0) as Fmo.
  fold F m1 in Fq, Fm, Fs, Fl, Fsa, Fp, Fn, Ftx, Fg, Fd, Fmo.
  change (editQueue st0) with (editQueue st) in Fq.
  change (microtasks st0) with (microtasks st) in Fm.
  change (suspended st0) with (suspended st) in Fs.
  change (fileEditLock st0) with (fileEditLock st) in Fl.
  change (saves st0) with (saves st) in Fsa.
  change (prompts st0) with (prompts st) in Fp.
  change (next_id st0) with (S lpc1) in Fn.
  change (gates st0) with (gates st) in Fg.
  change (dirtyEditorHandled st0) with (dirtyEditorHandled st) in Fd.
  rewrite (idle_editQueue _ I) in Fq. rewrite (idle_microtasks _ I) in Fm.
  rewrite (idle_suspended _ I) in Fs. rewrite (idle_lock _ I) in Fl.
  assert (Hheld : held =
            set_suspended [AwaitSave lpc1]
              (set_saves (S (saves F)) (set_fileEditLock (LockQueue.mk [] true []) F))).
  { unfold held, saving. fold lpc1 es1 st0 F. by rewrite Fsa. }
  assert (Hg : gates F !! dirtyEditorHandled F = None)
    by (rewrite Fg, Fd; apply (idle_gate _ I)).
  pose proof (save_cycle env w F lpc1 m1 ws2 Fq Fm Fs Fl Fmo Hd1 Hg Hsv Hne2 Hdom2) as R2.
  cbv zeta in R2. rewrite <- Hheld in R2. rewrite Fn in R2. fold es2 lpc2 in R2.
  match type of R2 with reach _ _ _ _ (commit _ _ _ (flush_edits _ _ _ ?t)) =>
    set (T0 := t) in *
  end.
  assert (HmT : model T0 = Some (saved m1)) by reflexivity.
  pose proof (flush_edits_frame env lpc2 es2 T0)
    as (Gq & Gm & Gs & Gl & Gsa & Gp & Gn & Gtx & Gg & Gd & _).
  pose proof (flush_edits_model env lpc2 es2 T0 (saved m1) HmT) as Gmo. fold m2 in Gmo.
  pose proof (commit_frame env w lpc2 (flush_edits env lpc2 es2 T0))
    as (Cq & Cm & Cs & Cl & Co & Cp & Cn & _ & _ & Cg & Cd & _).
  pose proof (commit_spec env w lpc2 _ m2 Gmo) as (Ctx & Csa & Cmo).
  pose proof (commit_transactions env w lpc2 _ m2 Gmo) as Ctr.
  assert (Hq : next_event w (commit env w lpc2 (flush_edits env lpc2 es2 T0)) = None).
  { unfold next_event. rewrite Cm, Cs, Gm, Gs. unfold T0. simpl. by rewrite Fm, Fs. }
  assert (final = commit env w lpc2 (flush_edits env lpc2 es2 T0)) as Hfinal.
  { unfold final. eapply reach_drive; [exact R2|exact Hq|exact Hf]. }
  clearbody final. subst final.
  assert (Hids1 : forall e, e ∈ es1 -> next_id st <= editResolver e < lpc1).
  { intros e He. apply (list_elem_of_fmap_2 editResolver) in He.
    unfold es1 in He. rewrite entries_ids in He. apply elem_of_seq in He.
    unfold lpc1. lia. }
  assert (Hids2 : forall e, e ∈ es2 -> S lpc1 <= editResolver e < lpc2).
  { intros e He. apply (list_elem_of_fmap_2 editResolver) in He.
    unfold es2 in He. rewrite entries_ids in He. apply elem_of_seq in He.
    unfold lpc2. lia. }
  assert (HoF : forall i, lpc1 <= i -> outcomes F !! i = None).
  { intros i Hi. unfold F. rewrite (flush_edits_outcomes_other env lpc1 es1 st0 m i Hm0).
    - apply (idle_fresh _ I). unfold lpc1 in Hi. lia.
    - intros (e & -> & He)%list_elem_of_fmap. specialize (Hids1 e He). lia. }
  split; [exact R1|]. split; [rewrite Hheld; exact Fmo|].
  split; [by rewrite Hheld|]. split; [by rewrite Hheld|].
  split; [|split; [|split; [|split; [|split; [|split]]]]].
  - split.
    + rewrite Cq, Gq. unfold T0. simpl. exact Fq.
    + rewrite Cm, Gm. unfold T0. simpl. exact Fm.
    + rewrite Cs, Gs. unfold T0. simpl. exact Fs.
    + rewrite Cl, Gl. unfold T0. simpl. exact Fl.
    + rewrite Cg, Cd, Gg, Gd. unfold T0. simpl. exact Hg.
    + intros i Hi. rewrite Cn, Gn in Hi. change (next_id T0) with (S lpc2) in Hi.
      rewrite Co, (flush_edits_outcomes_other env lpc2 es2 T0 (saved m1) i HmT).
      * change (outcomes T0) with (outcomes F). apply HoF. unfold lpc2 in Hi. lia.
      * intros (e & -> & He)%list_elem_of_fmap. specialize (Hids2 e He). lia.
  - rewrite Cp, Gp. unfold T0. simpl. exact Fp.
  - rewrite Csa, Gsa. unfold T0. simpl. by rewrite Fsa.
  - rewrite Cmo, Hsv. by destruct (dirty m2).
  - rewrite Ctr, Gtx. unfold T0. simpl.
    rewrite lookup_insert_ne by (unfold lpc2; lia). by rewrite lookup_insert_eq.
  - exact Ctx.
  - intros i e a Hi Ha. rewrite Co.
    eapply flush_edits_outcomes; eauto.
    + unfold es2. rewrite entries_ids. apply NoDup_seq.
    + intros e' He'. change (outcomes T0) with (outcomes F). apply HoF.
      specialize (Hids2 e' He'). lia.
Qed.

Lemma writes_during_a_save_wait_for_the_lock_witness :
  let st := initial (Demo.document Demo.empty_object false) ∅ in
  let ws1 : list Write := [("a", Some (JNum 1), None)] in
  let ws2 : list Write := [("b", Some (JNum 2), None)] in
  let held := saving Demo.env st ws1 in
  let final := drive Demo.env (Demo.world Dismissed) 16 (run Demo.env held (call <$> ws2)) in
  idle st /\
  dirty <$> model held = Some true /\
  prompts final = 0 /\ saves final = 2 /\
  text <$> model final = Some Demo.doc_ab.
Proof.
  intros st ws1 ws2 held final.
  assert (I : idle st) by (split; try reflexivity; intros; apply lookup_empty).
  destruct (writes_during_a_save_wait_for_the_lock Demo.env (Demo.world Dismissed) st
              (Demo.document Demo.empty_object false) ws1 ws2 16 I eq_refl eq_refl
              ltac:(discriminate) ltac:(repeat constructor)
              ltac:(discriminate) ltac:(repeat constructor)
              eq_refl eq_refl ltac:(simpl; lia))
    as (_ & Hh & _ & _ & _ & Hp & Hsa & Hmo & _).
  split; [exact I|]. split; [unfold held; by rewrite Hh|].
  split; [exact Hp|]. split; [exact Hsa|].
  unfold final, held. rewrite Hmo. vm_compute. reflexivity.
Defined.

(** X26: where every edit the text model applies marks it dirty, the snapshot is
    left alone while the flush transaction of a burst applies its edits, and
    when nothing was edited or the save throws; it is read once, when the
    save has succeeded, from the saved document.  So the listeners get at
    most one change event per burst, not one per write. *)
Theorem batch_emits_one_event (env : Env) (w : World) (st : State)
    (m : MonacoEditorModel) (ws : list Write) (fuel : nat) :
  idle st -> model st = Some m -> dirty m = false -> ws <> [] ->
  Forall (in_domain env) ws -> 5 * length ws + 8 <= fuel ->
  (forall m0 ops m1, applyBackgroundEdit env m0 ops = Some m1 -> dirty m1 = true) ->
  let m' := edited env m (entries (next_id st) ws) in
  let final := drive env w fuel (run env st (call <$> ws)) in
  (dirty m' = false \/ save_succeeds w = false -> snapshot final = snapshot st) /\
  (dirty m' = true -> save_succeeds w = true ->
     snapshot final = readPreferences env (Some (saved m')) (snapshot st) /\
     (emitted (snapshot final) = emitted (snapshot st) \/
      exists changes, emitted (snapshot final) = emitted (snapshot st) ++ [changes])).
Proof.
  intros I Hm Hd Hne Hdom Hf Hmarks m' final.
  assert (Hfinal := burst_final env w st m ws fuel I Hm Hd Hne Hdom Hf).
  fold final in Hfinal.
  set (lpc := next_id st + length ws) in *.
  set (es := entries (next_id st) ws) in *.
  set (st0 := set_next_id (S lpc) st) in *.
  assert (Hm0 : model st0 = Some m) by exact Hm.
  pose proof (flush_edits_model env lpc es st0 m Hm0) as Hmod. fold m' in Hmod.
  pose proof (flush_edits_snapshot env Hmarks lpc es st0) as Hsn.
  change (snapshot st0) with (snapshot st) in Hsn.
  clearbody final. subst final. split.
  - intros H. by rewrite (commit_snapshot_unsaved env w lpc _ m' Hmod H).
  - intros Hd' Hs.
    assert (E : snapshot (commit env w lpc (flush_edits env lpc es st0)) =
                readPreferences env (Some (saved m')) (snapshot st)).
    { rewrite (commit_snapshot env w lpc _ m' Hmod Hd' Hs). by rewrite Hsn. }
    split; [exact E|]. rewrite E. unfold readPreferences. cbn [dirty saved].
    rewrite handlePreferenceChanges_spec. cbv zeta. cbn [emitted].
    destruct (_ <$> _); [by left|right; by eexists].
Qed.

Lemma batch_emits_one_event_witness :
  let st := initial (Demo.document Demo.empty_object false) ∅ in
  let ws : list Write := [("a", Some (JNum 1), None); ("b", Some (JNum 2), None)] in
  let final := drive Marking.env (Demo.world Dismissed) 18 (run Marking.env st (call <$> ws)) in
  idle st /\
  map (map preferenceName) (emitted (snapshot final)) = [["a"; "b"]].
Proof.
  intros st ws final.
  assert (I : idle st) by (split; try reflexivity; intros; apply lookup_empty).
  assert (D : Forall (in_domain Marking.env) ws) by (repeat constructor).
  assert (M : forall m0 ops m1,
            applyBackgroundEdit Marking.env m0 ops = Some m1 -> dirty m1 = true).
  { intros m0 ops m1. simpl. unfold Marking.applyEdits.
    destruct (Demo.applyEdits m0 ops); [|done]. by intros [= <-]. }
  destruct (batch_emits_one_event Marking.env (Demo.world Dismissed) st
              (Demo.document Demo.empty_object false) ws 18 I eq_refl eq_refl
              ltac:(discriminate) D ltac:(simpl; lia) M)
    as (_ & H).
  destruct (H eq_refl eq_refl) as [E _].
  split; [exact I|]. unfold final. rewrite E. vm_compute. reflexivity.
Defined.
